(** * Echo: the native TCP echo server and client of [jni/Echo.cpp]

    A shallow embedding of the native half of the Echo application.  The
    C++ functions are translated one by one into a state monad over the
    part of the process they touch: the descriptor table, [errno], the
    pending Java exception, [LogMessage]'s cached method handle and the
    ordered trace of everything the code asks of the kernel and of the
    Java host.

    What the kernel, the C library and the Java host answer is not decided
    by the program; it is an input of each run, collected in [Env].  Every
    result that the source tests (the sentinel [-1] of a system call, a
    [NULL] from [inet_ntop], [FindClass], [GetMethodID], [NewStringUTF])
    has both outcomes in the model.  Results that the source drops
    ([close], [ThrowNew]) are dropped here as well, and the Java method
    [logMessage], once found and called, returns normally. *)

From Stdlib Require Import ZArith Lia Ascii String.
From stdpp Require Import base decidable option list sets gmap strings pretty.

Local Open Scope Z_scope.

(** ** Constants of the source *)

Definition MAX_LOG_MESSAGE_LENGTH : Z := 256.
Definition MAX_BUFFER_SIZE : Z := 80.

Definition PF_INET : Z := 2.
Definition AF_INET : Z := 2.
Definition SOCK_STREAM : Z := 1.
Definition INADDR_ANY : Z := 0.
Definition EBADF : Z := 9.

Definition IOException : string := "java/io/IOException".
Definition NoSuchMethodError : string := "java/lang/NoSuchMethodError".
Definition NoClassDefFoundError : string := "java/lang/NoClassDefFoundError".
Definition OutOfMemoryError : string := "java/lang/OutOfMemoryError".

(** ** Machine integers

    [jint] is a signed 32-bit integer; [unsigned short] has 16 bits;
    [size_t] has [SIZE_BITS] bits (32 on the ARM ABI the library is built
    for; no result below depends on the width).  Conversions to an unsigned
    type reduce modulo the width of the target. *)

Definition SIZE_BITS : Z := 32.

Definition is_jint (z : Z) : Prop := -2147483648 <= z <= 2147483647.

Definition to_ushort (z : Z) : Z := z mod 2 ^ 16.
Definition to_size_t (z : Z) : Z := z mod 2 ^ SIZE_BITS.

(** [htons] and [ntohs] on a little-endian target exchange the two bytes
    of a 16-bit value; [htonl] exchanges the four bytes of a 32-bit one. *)
Definition htons (x : Z) : Z :=
  Z.lor (Z.shiftl (Z.land x 255) 8) (Z.land (Z.shiftr x 8) 255).
Definition ntohs (x : Z) : Z := htons x.
Definition htonl (x : Z) : Z :=
  Z.lor (Z.lor (Z.shiftl (Z.land x 255) 24)
               (Z.shiftl (Z.land (Z.shiftr x 8) 255) 16))
        (Z.lor (Z.shiftl (Z.land (Z.shiftr x 16) 255) 8)
               (Z.land (Z.shiftr x 24) 255)).

(** ** Data *)

Record sockaddr_in : Type := mk_sockaddr_in {
  sin_family : Z;
  sin_port : Z;      (* network byte order *)
  sin_addr : Z       (* network byte order *)
}.

(** A [struct sockaddr_in] that was declared and not written yet.  The
    source hands it to the kernel to be filled and does not read it when
    the call fails, so its content never matters. *)
Definition unset_address : sockaddr_in := mk_sockaddr_in 0 0 0.

Definition NUL : ascii := Ascii.zero.

(** Everything a run asks of the outside, in program order. *)
Inductive event : Type :=
| EvLog (message : string)                 (* CallVoidMethod(obj, logMessage, message) *)
| EvThrow (className message : string)     (* ThrowNew(clazz, message) *)
| EvSocket (domain type protocol ret : Z)
| EvBind (sd : Z) (address : sockaddr_in) (ret : Z)
| EvGetsockname (sd ret : Z)
| EvListen (sd backlog ret : Z)
| EvAccept (sd ret : Z)
| EvRecv (sd len ret : Z) (data : list ascii)
| EvSend (sd : Z) (data : list ascii) (ret : Z)
| EvClose (sd : Z).

(** The answer to one fallible call: failure with the error number it
    leaves in [errno], or success with the value it produces. *)
Inductive reply (A : Type) : Type :=
| Failure (errnum : Z)
| Success (a : A).
Arguments Failure {A} errnum.
Arguments Success {A} a.

(** The Java side of the bridge, as far as the source tests it. *)
Record Host : Type := mk_Host {
  host_logMessage : bool;              (* GetMethodID finds logMessage(String) *)
  host_NewStringUTF : string -> bool;  (* NewStringUTF returns a string *)
  host_FindClass : string -> bool      (* FindClass returns the class *)
}.

(** One run's environment.  The server calls [socket], [bind],
    [getsockname], [listen], [accept] and [inet_ntop] at most once each,
    so one reply each suffices; [recv] and [send] are called once per
    round of the echo loop, so the peer is a list of rounds.  When the
    list is used up the peer neither sends nor disconnects and [recv]
    never returns. *)
Record Env : Type := mk_Env {
  env_host : Host;
  env_strerror_r : Z -> reply string;
  env_socket : reply unit;
  env_bind : reply unit;
  env_getsockname : reply sockaddr_in;
  env_listen : reply unit;
  env_accept : reply sockaddr_in;
  env_inet_ntop : reply string;
  env_peer : list (reply (list ascii) * reply Z)
}.

(** The state of the process that the code reads or writes. *)
Record State : Type := mk_State {
  st_trace : list event;
  st_fds : gset Z;                       (* open descriptors *)
  st_errno : Z;
  st_pending : option (string * string); (* pending exception: class, message *)
  st_methodID : bool;                    (* LogMessage's static methodID is set *)
  st_undefined : bool                    (* an access outside an object happened *)
}.

Definition set_trace (t : list event) (s : State) : State :=
  mk_State t (st_fds s) (st_errno s) (st_pending s) (st_methodID s) (st_undefined s).
Definition set_fds (f : gset Z) (s : State) : State :=
  mk_State (st_trace s) f (st_errno s) (st_pending s) (st_methodID s) (st_undefined s).
Definition set_errno (e : Z) (s : State) : State :=
  mk_State (st_trace s) (st_fds s) e (st_pending s) (st_methodID s) (st_undefined s).
Definition set_pending (p : option (string * string)) (s : State) : State :=
  mk_State (st_trace s) (st_fds s) (st_errno s) p (st_methodID s) (st_undefined s).
Definition set_methodID (b : bool) (s : State) : State :=
  mk_State (st_trace s) (st_fds s) (st_errno s) (st_pending s) b (st_undefined s).
Definition set_undefined (b : bool) (s : State) : State :=
  mk_State (st_trace s) (st_fds s) (st_errno s) (st_pending s) (st_methodID s) b.

(** ** The monad

    A computation either returns a value and a state, or is blocked for
    ever in a system call. *)

Inductive outcome (A : Type) : Type :=
| Returned (a : A) (s : State)
| Blocked (s : State).
Arguments Returned {A} a s.
Arguments Blocked {A} s.

Definition M (A : Type) : Type := State -> outcome A.

Definition ret {A : Type} (a : A) : M A := fun s => Returned a s.
Definition bind {A B : Type} (m : M A) (f : A -> M B) : M B := fun s =>
  match m s with
  | Returned a s' => f a s'
  | Blocked s' => Blocked s'
  end.

#[local] Notation "x <- m ;; k" := (bind m (fun x => k))
  (at level 100, m at next level, right associativity).
#[local, warnings="-notation-incompatible-prefix"]
Notation "' pat <- m ;; k" := (bind m (fun x => match x with pat => k end))
  (at level 100, pat pattern, m at next level, right associativity).
#[local] Notation "m ;; k" := (bind m (fun _ => k))
  (at level 100, right associativity).

Definition get {A : Type} (f : State -> A) : M A := fun s => Returned (f s) s.
Definition modify (f : State -> State) : M unit := fun s => Returned tt (f s).
Definition block {A : Type} : M A := fun s => Blocked s.

Definition emit (e : event) : M unit :=
  modify (fun s => set_trace (st_trace s ++ [e]) s).
Definition undefined_behaviour : M unit := modify (set_undefined true).

(** ** The kernel and the C library *)

(** POSIX hands out the lowest descriptor that is not open. *)
Fixpoint first_free (fuel : nat) (n : Z) (fds : gset Z) : Z :=
  match fuel with
  | O => n
  | S k => if decide (n ∈ fds) then first_free k (n + 1) fds else n
  end.
Definition lowest_unused (fds : gset Z) : Z := first_free (size fds) 0 fds.

Definition new_descriptor : M Z :=
  fds <- get st_fds;;
  let fd := lowest_unused fds in
  modify (set_fds ({[fd]} ∪ fds));;
  ret fd.

Definition sys_socket (r : reply unit) (domain type protocol : Z) : M Z :=
  match r with
  | Failure e =>
      modify (set_errno e);; emit (EvSocket domain type protocol (-1));; ret (-1)
  | Success _ =>
      fd <- new_descriptor;; emit (EvSocket domain type protocol fd);; ret fd
  end.

Definition sys_bind (r : reply unit) (sd : Z) (address : sockaddr_in) : M Z :=
  match r with
  | Failure e => modify (set_errno e);; emit (EvBind sd address (-1));; ret (-1)
  | Success _ => emit (EvBind sd address 0);; ret 0
  end.

Definition sys_getsockname (r : reply sockaddr_in) (sd : Z) (address : sockaddr_in)
  : M (Z * sockaddr_in) :=
  match r with
  | Failure e =>
      modify (set_errno e);; emit (EvGetsockname sd (-1));; ret (-1, address)
  | Success a => emit (EvGetsockname sd 0);; ret (0, a)
  end.

Definition sys_listen (r : reply unit) (sd backlog : Z) : M Z :=
  match r with
  | Failure e => modify (set_errno e);; emit (EvListen sd backlog (-1));; ret (-1)
  | Success _ => emit (EvListen sd backlog 0);; ret 0
  end.

Definition sys_accept (r : reply sockaddr_in) (sd : Z) (address : sockaddr_in)
  : M (Z * sockaddr_in) :=
  match r with
  | Failure e =>
      modify (set_errno e);; emit (EvAccept sd (-1));; ret (-1, address)
  | Success a =>
      fd <- new_descriptor;; emit (EvAccept sd fd);; ret (fd, a)
  end.

(** [recv(sd, buffer, len, 0)]: the kernel stores at most [len] of the
    bytes it has at the start of [buffer] and returns how many.  Storing
    more bytes than [buffer] holds is an access outside the object. *)
Definition sys_recv (r : reply (list ascii)) (sd : Z) (buffer : list ascii) (len : Z)
  : M (Z * list ascii) :=
  match r with
  | Failure e =>
      modify (set_errno e);; emit (EvRecv sd len (-1) []);; ret (-1, buffer)
  | Success bytes =>
      let data := take (Z.to_nat len) bytes in
      (if decide (length data ≤ length buffer)%nat then ret tt
       else undefined_behaviour);;
      emit (EvRecv sd len (Z.of_nat (length data)) data);;
      ret (Z.of_nat (length data),
            take (length buffer) (data ++ drop (length data) buffer))
  end.

(** [send(sd, buffer, len, 0)]: the kernel is offered the first [len]
    bytes of [buffer] and takes as many as it has room for. *)
Definition sys_send (r : reply Z) (sd : Z) (buffer : list ascii) (len : Z) : M Z :=
  let data := take (Z.to_nat len) buffer in
  (if decide (len <= Z.of_nat (length buffer)) then ret tt
   else undefined_behaviour);;
  match r with
  | Failure e => modify (set_errno e);; emit (EvSend sd data (-1));; ret (-1)
  | Success room =>
      let n := Z.max 0 (Z.min room len) in
      emit (EvSend sd data n);; ret n
  end.

(** [close(sd)]; the source never looks at the result. *)
Definition sys_close (sd : Z) : M unit :=
  fds <- get st_fds;;
  (if decide (sd ∈ fds) then modify (set_fds (fds ∖ {[sd]}))
   else modify (set_errno EBADF));;
  emit (EvClose sd).

Definition lib_inet_ntop (r : reply string) : M (option string) :=
  match r with
  | Failure e => modify (set_errno e);; ret None
  | Success ip => ret (Some ip)
  end.

(** [buffer[i] = c] *)
Definition store (buffer : list ascii) (i : Z) (c : ascii) : M (list ascii) :=
  if decide (0 <= i < Z.of_nat (length buffer))
  then ret (<[Z.to_nat i := c]> buffer)
  else undefined_behaviour;; ret buffer.

(** The characters of [buffer] before its first [NUL]. *)
Fixpoint c_str (buffer : list ascii) : list ascii :=
  match buffer with
  | [] => []
  | c :: rest => if decide (c = NUL) then [] else c :: c_str rest
  end.

(** Reading [buffer] as a string ([%s]) runs to the first [NUL]; without
    one the read leaves the object. *)
Definition read_c_str (buffer : list ascii) : M string :=
  (if decide (NUL ∈ buffer) then ret tt else undefined_behaviour);;
  ret (string_of_list_ascii (c_str buffer)).

(** [vsnprintf(buffer, size, ...)] keeps at most [size - 1] characters. *)
Definition vsnprintf (size : Z) (text : string) : string :=
  String.substring 0 (Z.to_nat (size - 1)) text.

Definition fmt_d (z : Z) : string := pretty z.
Definition fmt_hu (z : Z) : string := pretty (to_ushort z).

(** ** The Java host *)

(** A failed lookup or allocation in the host leaves its own exception
    pending, as the JNI specification says. *)
Definition host_raise (className : string) : M unit :=
  modify (set_pending (Some (className, EmptyString))).

Definition ExceptionOccurred : M bool :=
  get (fun s => match st_pending s with Some _ => true | None => false end).

Definition GetMethodID (h : Host) : M bool :=
  if host_logMessage h then ret true
  else host_raise NoSuchMethodError;; ret false.

Definition NewStringUTF (h : Host) (text : string) : M (option string) :=
  if host_NewStringUTF h text then ret (Some text)
  else host_raise OutOfMemoryError;; ret None.

Definition FindClass (h : Host) (className : string) : M bool :=
  if host_FindClass h className then ret true
  else host_raise NoClassDefFoundError;; ret false.

Definition ThrowNew (className message : string) : M unit :=
  modify (set_pending (Some (className, message)));;
  emit (EvThrow className message).

Definition CallVoidMethod (message : string) : M unit := emit (EvLog message).

(** [strerror_r(errnum, buffer, size)]: on success the text is in
    [buffer]; on failure [errno] is set and [buffer] is as it was.  A
    buffer that was never written is [None]. *)
Definition lib_strerror_r (r : reply string) (buffer : option string) (size : Z)
  : M (Z * option string) :=
  match r with
  | Failure e => modify (set_errno e);; ret (-1, buffer)
  | Success text => ret (0, Some (vsnprintf size text))
  end.

(** An array of [n] characters that was never written holds whatever the
    stack held. *)
Definition uninitialised (n : Z) (junk : list ascii) : list ascii :=
  take (Z.to_nat n) (junk ++ replicate (Z.to_nat n) NUL).

(** ** The functions of [Echo.cpp] *)

Section Native.

Variable env : Env.

(** [LogMessage(env, obj, format, ...)]; [text] is [format] with its
    arguments filled in. *)
Definition LogMessage (text : string) : M unit :=
  cached <- get st_methodID;;
  (if cached then ret tt
   else found <- GetMethodID (env_host env);; modify (set_methodID found));;
  methodID <- get st_methodID;;
  if methodID then
    let buffer := vsnprintf MAX_LOG_MESSAGE_LENGTH text in
    message <- NewStringUTF (env_host env) buffer;;
    match message with
    | Some m => CallVoidMethod m
    | None => ret tt
    end
  else ret tt.

Definition ThrowException (className message : string) : M unit :=
  clazz <- FindClass (env_host env) className;;
  if clazz then ThrowNew className message else ret tt.

Definition ThrowErrnoException (className : string) (errnum : Z) : M unit :=
  '(r, buffer) <- lib_strerror_r (env_strerror_r env errnum) None MAX_LOG_MESSAGE_LENGTH;;
  buffer <- (if decide (-1 = r) then
              e <- get st_errno;;
              '(_, b) <- lib_strerror_r (env_strerror_r env e) buffer MAX_LOG_MESSAGE_LENGTH;;
              ret b
            else ret buffer);;
  message <- match buffer with
             | Some text => ret text
             | None => undefined_behaviour;; ret EmptyString
             end;;
  ThrowException className message.

Definition NewTcpSocket : M Z :=
  LogMessage "Constructing a new TCP socket...";;
  tcpSocket <- sys_socket (env_socket env) PF_INET SOCK_STREAM 0;;
  (if decide (-1 = tcpSocket) then
     e <- get st_errno;; ThrowErrnoException IOException e
   else ret tt);;
  ret tcpSocket.

Definition BindSocketToPort (sd port : Z) : M unit :=
  let address :=
    mk_sockaddr_in AF_INET (htons port) (htonl INADDR_ANY) in
  LogMessage ("Binding to port " +:+ fmt_hu port +:+ ".");;
  r <- sys_bind (env_bind env) sd address;;
  if decide (-1 = r) then
    e <- get st_errno;; ThrowErrnoException IOException e
  else ret tt.

Definition GetSocketPort (sd : Z) : M Z :=
  '(r, address) <- sys_getsockname (env_getsockname env) sd unset_address;;
  if decide (-1 = r) then
    e <- get st_errno;; ThrowErrnoException IOException e;; ret 0
  else
    let port := ntohs (sin_port address) in
    LogMessage ("Binded to random port " +:+ fmt_hu port +:+ ".");;
    ret port.

Definition ListenOnSocket (sd backlog : Z) : M unit :=
  LogMessage ("Listening on socket with a backlog of " +:+ fmt_d backlog
              +:+ " pending connections.");;
  r <- sys_listen (env_listen env) sd backlog;;
  if decide (-1 = r) then
    e <- get st_errno;; ThrowErrnoException IOException e
  else ret tt.

Definition LogAddress (message : string) (address : sockaddr_in) : M unit :=
  ip <- lib_inet_ntop (env_inet_ntop env);;
  match ip with
  | None => e <- get st_errno;; ThrowErrnoException IOException e
  | Some ip =>
      let port := ntohs (sin_port address) in
      LogMessage (message +:+ " " +:+ ip +:+ ":" +:+ fmt_hu port +:+ ".")
  end.

Definition AcceptOnSocket (sd : Z) : M Z :=
  LogMessage "Waiting for a client connection...";;
  '(clientSocket, address) <- sys_accept (env_accept env) sd unset_address;;
  (if decide (-1 = clientSocket) then
     e <- get st_errno;; ThrowErrnoException IOException e
   else LogAddress "Client connection from " address);;
  ret clientSocket.

Definition ReceiveFromSocket (r : reply (list ascii)) (sd : Z)
    (buffer : list ascii) (bufferSize : Z) : M (Z * list ascii) :=
  LogMessage "Receiving from the socket...";;
  '(recvSize, buffer) <- sys_recv r sd buffer (to_size_t (bufferSize - 1));;
  if decide (-1 = recvSize) then
    e <- get st_errno;; ThrowErrnoException IOException e;;
    ret (recvSize, buffer)
  else
    buffer <- store buffer recvSize NUL;;
    (if decide (recvSize > 0) then
       text <- read_c_str buffer;;
       LogMessage ("Received " +:+ fmt_d recvSize +:+ " bytes: " +:+ text)
     else LogMessage "Client disconnected.");;
    ret (recvSize, buffer).

Definition SendToSocket (r : reply Z) (sd : Z)
    (buffer : list ascii) (bufferSize : Z) : M Z :=
  LogMessage "Sending to the socket...";;
  sentSize <- sys_send r sd buffer bufferSize;;
  (if decide (-1 = sentSize) then
     e <- get st_errno;; ThrowErrnoException IOException e
   else if decide (sentSize > 0) then
     text <- read_c_str buffer;;
     LogMessage ("Sent " +:+ fmt_d sentSize +:+ " bytes: " +:+ text)
   else LogMessage "Client disconnected.");;
  ret sentSize.

(** [nativeStartTcpClient(env, obj, ip, port, message)] *)
Definition nativeStartTcpClient (ip : string) (port : Z) (message : string) : M unit :=
  clientSocket <- NewTcpSocket;;
  exc <- ExceptionOccurred;;
  if exc then ret tt else sys_close clientSocket.

(** The [while (1)] of the server: one round per element of [peer].
    When the peer has no more to say and does not disconnect, the next
    round logs that it receives and stays in [recv]. *)
Fixpoint echo_loop (peer : list (reply (list ascii) * reply Z))
    (clientSocket : Z) (buffer : list ascii) : M unit :=
  match peer with
  | [] => LogMessage "Receiving from the socket...";; block
  | (r, w) :: peer' =>
      '(recvSize, buffer) <- ReceiveFromSocket r clientSocket buffer MAX_BUFFER_SIZE;;
      exc <- ExceptionOccurred;;
      if bool_decide (0 = recvSize) || exc then ret tt (* break *) else
      sentSize <- SendToSocket w clientSocket buffer (to_size_t recvSize);;
      exc <- ExceptionOccurred;;
      if bool_decide (0 = sentSize) || exc then ret tt (* break *) else
      echo_loop peer' clientSocket buffer
  end.

(** The part of the server between [NewTcpSocket] and the label [exit];
    returning early is [goto exit]. *)
Definition server_body (junk : list ascii) (port serverSocket : Z) : M unit :=
  BindSocketToPort serverSocket (to_ushort port);;
  exc <- ExceptionOccurred;;
  if exc then ret tt else
  let rest : M unit :=
    ListenOnSocket serverSocket 4;;
    exc <- ExceptionOccurred;;
    if exc then ret tt else
    clientSocket <- AcceptOnSocket serverSocket;;
    exc <- ExceptionOccurred;;
    if exc then ret tt else
    let buffer := uninitialised MAX_BUFFER_SIZE junk in
    echo_loop (env_peer env) clientSocket buffer;;
    sys_close clientSocket in
  if decide (0 = port) then
    GetSocketPort serverSocket;;
    exc <- ExceptionOccurred;;
    if exc then ret tt else rest
  else rest.

(** [nativeStartTcpServer(env, obj, port)]; [junk] is what the stack
    holds where [buffer] is placed. *)
Definition nativeStartTcpServer (junk : list ascii) (port : Z) : M unit :=
  serverSocket <- NewTcpSocket;;
  exc <- ExceptionOccurred;;
  (if exc then ret tt else server_body junk port serverSocket);;
  (* exit: *)
  if decide (serverSocket > 0) then sys_close serverSocket else ret tt.

End Native.

(** * Reading traces *)

#[global] Instance sockaddr_in_eq_dec : EqDecision sockaddr_in.
Proof. solve_decision. Defined.
#[global] Instance event_eq_dec : EqDecision event.
Proof. solve_decision. Defined.

(** The events that are calls into the kernel. *)
Definition is_syscall (e : event) : bool :=
  match e with
  | EvLog _ | EvThrow _ _ => false
  | _ => true
  end.
Definition syscalls (t : list event) : list event := filter (fun e => is_syscall e = true) t.

(** The exceptions thrown by the native code. *)
Definition is_throw (e : event) : bool :=
  match e with
  | EvThrow _ _ => true
  | _ => false
  end.
Definition throws (t : list event) : list event := filter (fun e => is_throw e = true) t.

(** What a run added to the trace it started from. *)
Definition new_events (s s' : State) : list event :=
  drop (length (st_trace s)) (st_trace s').

Definition final {A : Type} (o : outcome A) : State :=
  match o with
  | Returned _ s => s
  | Blocked s => s
  end.

(** The host does what the native code relies on: the activity has its
    [logMessage] method, strings can be allocated, and
    [java.io.IOException] can be found. *)
Definition host_ok (env : Env) : Prop :=
  host_logMessage (env_host env) = true /\
  (forall text, host_NewStringUTF (env_host env) text = true) /\
  host_FindClass (env_host env) IOException = true.

(** The text for an error number: [strerror_r] on it and, when that
    fails, [strerror_r] on the [errno] this failure left. *)
Definition errno_message (env : Env) (errnum : Z) : option string :=
  match env_strerror_r env errnum with
  | Success text => Some (vsnprintf MAX_LOG_MESSAGE_LENGTH text)
  | Failure e =>
      match env_strerror_r env e with
      | Success text => Some (vsnprintf MAX_LOG_MESSAGE_LENGTH text)
      | Failure _ => None
      end
  end.

(** ** States and events of the echo loop *)

(** [s] with [evs] added to its trace and [LogMessage]'s cache filled. *)
Definition after (evs : list event) (s : State) : State :=
  mk_State (st_trace s ++ evs) (st_fds s) (st_errno s) (st_pending s) true
           (st_undefined s).

Definition log_line (text : string) : event :=
  EvLog (vsnprintf MAX_LOG_MESSAGE_LENGTH text).

(** [s] after descriptor [fd] was opened and [evs] added to the trace. *)
Definition opened (fd : Z) (evs : list event) (s : State) : State :=
  set_fds ({[fd]} ∪ st_fds s) (after evs s).

(** One round of the echo loop in which [data] arrives and the kernel
    has room for [room] bytes of the answer. *)
Definition round_events (sd : Z) (data : list ascii) (room : Z) : list event :=
  let n := Z.of_nat (length data) in
  let m := Z.max 0 (Z.min room n) in
  let text := string_of_list_ascii (c_str data) in
  [ log_line "Receiving from the socket...";
    EvRecv sd (MAX_BUFFER_SIZE - 1) n data;
    log_line ("Received " +:+ fmt_d n +:+ " bytes: " +:+ text);
    log_line "Sending to the socket...";
    EvSend sd data m;
    log_line ("Sent " +:+ fmt_d m +:+ " bytes: " +:+ text) ].

Fixpoint rounds_events (sd : Z) (rounds : list (list ascii * Z)) : list event :=
  match rounds with
  | [] => []
  | (data, room) :: rest => round_events sd data room ++ rounds_events sd rest
  end.

(** The replies of the kernel in such rounds. *)
Definition as_peer (rounds : list (list ascii * Z)) : list (reply (list ascii) * reply Z) :=
  map (fun '(data, room) => (Success data, Success room)) rounds.

(** A chunk fits one receive and the kernel takes at least one byte of
    the answer. *)
Definition good_round (r : list ascii * Z) : Prop :=
  (0 < length (fst r) <= 79)%nat /\ 0 < snd r.

(** The transfer buffer after [data] was received into it and the
    terminator stored behind it. *)
Definition filled (data buffer : list ascii) : list ascii :=
  <[length data := NUL]> (data ++ drop (length data) buffer).

(** [s'] is [s] after a stretch of the run that added [evs] to the
    trace, raised nothing and left the descriptors and the flag of
    undefined behaviour as they were. *)
Definition adds (evs : list event) (s s' : State) : Prop :=
  st_trace s' = st_trace s ++ evs /\
  st_fds s' = st_fds s /\
  st_pending s' = st_pending s /\
  st_undefined s' = st_undefined s.

(** The system calls of rounds in which every chunk is received whole
    and sent back whole. *)
Definition echo_calls (sd : Z) (chunks : list (list ascii)) : list event :=
  flat_map (fun c => [ EvRecv sd (MAX_BUFFER_SIZE - 1) (Z.of_nat (length c)) c;
                       EvSend sd c (Z.of_nat (length c)) ]) chunks.

(** The system calls of rounds in which the kernel takes what it has
    room for: every chunk is offered whole, once, and [send] returns how
    much of it was taken. *)
Definition offered_calls (sd : Z) (rounds : list (list ascii * Z)) : list event :=
  flat_map (fun r => [ EvRecv sd (MAX_BUFFER_SIZE - 1) (Z.of_nat (length (fst r))) (fst r);
                       EvSend sd (fst r) (Z.min (snd r) (Z.of_nat (length (fst r)))) ])
           rounds.

(** The bytes a run received, and the bytes the kernel took of what the
    run offered to send, in the order of the calls. *)
Definition received_bytes (t : list event) : list ascii :=
  flat_map (fun e => match e with EvRecv _ _ _ data => data | _ => [] end) t.
Definition sent_bytes (t : list event) : list ascii :=
  flat_map (fun e => match e with
                     | EvSend _ data ret => take (Z.to_nat ret) data
                     | _ => []
                     end) t.

(** ** What a run asks of the kernel *)

(** Every event that [m] adds to the trace satisfies [P], from whatever
    state [m] is started and whether it returns or blocks. *)
Definition emits {A : Type} (P : event -> Prop) (m : M A) : Prop :=
  forall s, exists evs,
    st_trace (final (m s)) = st_trace s ++ evs /\ Forall P evs.

(** The one line with which the server reports the port it found. *)
Definition is_port_report (message : string) : bool :=
  String.prefix "Binded to random port " message.

(** The address the server binds to when started with [port]. *)
Definition bind_address (port : Z) : sockaddr_in :=
  mk_sockaddr_in AF_INET (htons (to_ushort port)) (htonl INADDR_ANY).

(** The wildcard address with port 0: the kernel picks a free port. *)
Definition ephemeral_address : sockaddr_in := mk_sockaddr_in AF_INET 0 0.

(** What the server started with [port] may ask of the kernel: the
    arguments of each call are fixed by the source. *)
Definition server_event (port : Z) (e : event) : Prop :=
  match e with
  | EvLog message => port = 0 \/ is_port_report message = false
  | EvThrow _ _ => True
  | EvSocket domain type protocol _ =>
      domain = PF_INET /\ type = SOCK_STREAM /\ protocol = 0
  | EvBind _ address _ =>
      address = mk_sockaddr_in AF_INET (htons (to_ushort port)) (htonl INADDR_ANY)
  | EvGetsockname _ _ => port = 0
  | EvListen _ backlog _ => backlog = 4
  | EvAccept _ _ => True
  | EvRecv _ len ret data =>
      len = MAX_BUFFER_SIZE - 1 /\ ret <= MAX_BUFFER_SIZE - 1 /\
      (length data <= 79)%nat
  | EvSend _ _ _ => True
  | EvClose _ => True
  end.

(** A step that calls nothing in the kernel and touches neither the
    descriptors nor the transfer buffer; it may log and may leave an
    exception pending. *)
Definition quiet (s s' : State) : Prop :=
  (exists evs, st_trace s' = st_trace s ++ evs /\ syscalls evs = []) /\
  st_fds s' = st_fds s /\
  (st_pending s <> None -> st_pending s' <> None).

(** Between [s] and [s'] the run made exactly the system calls [sys]. *)
Definition calls (sys : list event) (s s' : State) : Prop :=
  exists evs, st_trace s' = st_trace s ++ evs /\ syscalls evs = sys.

(** What the server has done when it enters the echo loop after a setup
    in which every call succeeded: [fd] is the listening descriptor,
    [client] the accepted one, [bound] the address [getsockname] gave,
    [peer] the address of the peer and [ip] its text. *)
Definition setup_events (port fd client : Z) (bound peer : sockaddr_in) (ip : string)
  : list event :=
  [ log_line "Constructing a new TCP socket...";
    EvSocket PF_INET SOCK_STREAM 0 fd;
    log_line ("Binding to port " +:+ fmt_hu (to_ushort port) +:+ ".");
    EvBind fd (bind_address port) 0 ] ++
  (if decide (0 = port)
   then [ EvGetsockname fd 0;
          log_line ("Binded to random port " +:+ fmt_hu (ntohs (sin_port bound)) +:+ ".") ]
   else []) ++
  [ log_line ("Listening on socket with a backlog of " +:+ fmt_d 4
              +:+ " pending connections.");
    EvListen fd 4 0;
    log_line "Waiting for a client connection...";
    EvAccept fd client;
    log_line ("Client connection from " +:+ " " +:+ ip +:+ ":"
              +:+ fmt_hu (ntohs (sin_port peer)) +:+ ".") ].

(** The exit of the server. *)
Definition exit_events (fd : Z) : list event :=
  if decide (fd > 0) then [EvClose fd] else [].

(** ** The order of the life cycle

    The steps of the server are numbered in the order of the source; the
    events of the host have no number. *)
Definition phase (e : event) : option nat :=
  match e with
  | EvLog _ | EvThrow _ _ => None
  | EvSocket _ _ _ _ => Some 1%nat
  | EvBind _ _ _ => Some 2%nat
  | EvGetsockname _ _ => Some 3%nat
  | EvListen _ _ _ => Some 4%nat
  | EvAccept _ _ => Some 5%nat
  | EvRecv _ _ _ _ | EvSend _ _ _ => Some 6%nat
  | EvClose _ => Some 7%nat
  end.

(** An event that signals a failure: a system call that returned -1, or
    an exception thrown. *)
Definition failed (e : event) : bool :=
  match e with
  | EvThrow _ _ => true
  | EvSocket _ _ _ ret | EvBind _ _ ret | EvGetsockname _ ret
  | EvListen _ _ ret | EvAccept _ ret | EvRecv _ _ ret _ | EvSend _ _ ret =>
      bool_decide (ret = -1)
  | EvLog _ | EvClose _ => false
  end.

(** Step [q] may come after step [p]: it is a later step, or both are
    calls of the echo loop, or both are closes. *)
Definition follows (p q : nat) : Prop :=
  (p < q)%nat \/ (p = q /\ (6 <= p)%nat).

(** [t] continues a run that has reached step [p]: its calls come in the
    order of the steps, the steps before the echo loop at most once, and
    after an event that signalled a failure ([stopped]) the only calls
    are closes. *)
Fixpoint lifecycle (p : nat) (stopped : bool) (t : list event) : Prop :=
  match t with
  | [] => True
  | e :: t' =>
      match phase e with
      | None => lifecycle p (stopped || failed e) t'
      | Some q =>
          follows p q /\ (stopped = true -> q = 7%nat) /\
          lifecycle q (stopped || failed e) t'
      end
  end.

Fixpoint last_phase (p : nat) (t : list event) : nat :=
  match t with
  | [] => p
  | e :: t' => last_phase (default p (phase e)) t'
  end.

Definition any_failed (t : list event) : bool := existsb failed t.

(** From step [p], [m] goes on in the order of the life cycle, gets no
    further than step [q], and leaves an exception pending whenever one
    of its events signalled a failure. *)
Definition step {A : Type} (p : nat) (m : M A) (q : nat) : Prop :=
  forall s, exists evs,
    st_trace (final (m s)) = st_trace s ++ evs /\
    lifecycle p false evs /\
    (last_phase p evs <= q)%nat /\
    (any_failed evs = true -> st_pending (final (m s)) <> None).

(** ** Further readings of a run *)

(** What [ThrowException className text] leaves behind when started in
    [s]: the exception thrown and pending, or, when the class is not
    found, the host's own exception pending and nothing thrown. *)
Definition raises (env : Env) (className text : string) (s s' : State) : Prop :=
  st_undefined s' = st_undefined s /\
  if host_FindClass (env_host env) className
  then new_events s s' = [EvThrow className text] /\
       st_pending s' = Some (className, text)
  else new_events s s' = [] /\
       st_pending s' = Some (NoClassDefFoundError, EmptyString).

(** What the server has done when the socket is created and bound and,
    for port 0, the port found. *)
Definition bound_events (port fd : Z) (bound : sockaddr_in) : list event :=
  [ log_line "Constructing a new TCP socket...";
    EvSocket PF_INET SOCK_STREAM 0 fd;
    log_line ("Binding to port " +:+ fmt_hu (to_ushort port) +:+ ".");
    EvBind fd (bind_address port) 0 ] ++
  (if decide (0 = port)
   then [ EvGetsockname fd 0;
          log_line ("Binded to random port " +:+ fmt_hu (ntohs (sin_port bound)) +:+ ".") ]
   else []).

(** [LogMessage text], started in [s], cannot hand its line to Java: the
    method is neither cached nor found, or the host has no memory for
    the string. *)
Definition cannot_log (env : Env) (s : State) (text : string) : Prop :=
  (st_methodID s = false /\ host_logMessage (env_host env) = false) \/
  host_NewStringUTF (env_host env) (vsnprintf MAX_LOG_MESSAGE_LENGTH text) = false.

(** The platform has a text for every error number, at the first or at
    the second attempt of [ThrowErrnoException]. *)
Definition strerror_ok (env : Env) : Prop :=
  forall e, errno_message env e <> None.

(** The calls of the echo loop on [sd], read from the first: a receive
    asking for 79 bytes comes first; a send follows only a receive that
    yielded at least one byte, and offers exactly the bytes that receive
    yielded; a further round follows only a send that took at least one
    byte. *)
Fixpoint echoes (sd : Z) (t : list event) : Prop :=
  match t with
  | [] => True
  | EvRecv sd1 len n data :: t1 =>
      sd1 = sd /\ len = MAX_BUFFER_SIZE - 1 /\
      match t1 with
      | [] => True
      | EvSend sd2 data' m :: t2 =>
          sd2 = sd /\ 0 < n /\ n = Z.of_nat (length data) /\ data' = data /\
          (t2 <> [] -> 0 < m) /\
          echoes sd t2
      | _ => False
      end
  | _ => False
  end.

(** ** Invariants of a run, for any environment *)

(** [m], started in a state of [P], returns in a state of [Q] or is
    blocked in a state of [B]. *)
Definition hoare {A : Type} (P : State -> Prop) (m : M A)
    (Q : A -> State -> Prop) (B : State -> Prop) : Prop :=
  forall s, P s ->
    match m s with
    | Returned a s' => Q a s'
    | Blocked s' => B s'
    end.

(** [m] leads from every state to one that [R] relates to it. *)
Definition preserves {A : Type} (R : State -> State -> Prop) (m : M A) : Prop :=
  forall s, R s (final (m s)).

(** No access outside an object happened between [s] and [s'], provided
    the platform has a text for every error number. *)
Definition defined (env : Env) (s s' : State) : Prop :=
  strerror_ok env -> st_undefined s' = st_undefined s.

(** As [defined], and the same descriptors are open. *)
Definition steady (env : Env) (s s' : State) : Prop :=
  st_fds s' = st_fds s /\ defined env s s'.

(** The descriptor each call of the server is made on, when [fd] is the
    descriptor the kernel has for [socket] and [client] the one it has
    for [accept]. *)
Definition on_descriptors (fd client : Z) (e : event) : Prop :=
  match e with
  | EvLog _ | EvThrow _ _ => True
  | EvSocket _ _ _ ret => ret = fd \/ ret = -1
  | EvBind sd _ _ | EvGetsockname sd _ | EvListen sd _ _ => sd = fd
  | EvAccept sd ret => sd = fd /\ (ret = client \/ ret = -1)
  | EvRecv sd _ _ _ | EvSend sd _ _ => sd = client
  | EvClose sd => sd = client \/ (sd = fd /\ fd > 0)
  end.

(** A state of a run of the server that started in [s0]: the open
    descriptors are [fds], and every call so far was made on the
    descriptors of the run. *)
Definition tracks (env : Env) (s0 : State) (fd client : Z) (fds : gset Z)
    (s : State) : Prop :=
  st_fds s = fds /\
  defined env s0 s /\
  exists evs, st_trace s = st_trace s0 ++ evs /\
              Forall (on_descriptors fd client) evs.

(** A line handed to Java fits [LogMessage]'s buffer with its
    terminator. *)
Definition fits_log_buffer (e : event) : Prop :=
  match e with
  | EvLog message => Z.of_nat (String.length message) < MAX_LOG_MESSAGE_LENGTH
  | _ => True
  end.

(** ** A concrete environment

    A host in order, a platform with a text for every error number, a
    process with the three standard descriptors open, and a peer on the
    loopback interface.  The theorems below are instantiated on it. *)

Definition working_host : Host := mk_Host true (fun _ => true) (fun _ => true).

Definition plain_strerror (e : Z) : reply string :=
  Success ("error " +:+ pretty e).

Definition loopback : sockaddr_in :=
  mk_sockaddr_in AF_INET (htons 40000) (htonl 2130706433).

Definition session (peer : list (reply (list ascii) * reply Z)) : Env :=
  mk_Env working_host plain_strerror (Success tt) (Success tt) (Success loopback)
         (Success tt) (Success loopback) (Success "127.0.0.1"%string) peer.

Definition fresh_process : State := mk_State [] {[0; 1; 2]} 0 None false false.

Definition ping : list ascii := list_ascii_of_string "ping".
Definition hello : list ascii := list_ascii_of_string "hello".

Definition ECONNRESET : Z := 104.
Definition ENOSPC : Z := 28.



(** An environment in which everything succeeds except the conversion
    of the peer's address to text after the connection was accepted. *)
Definition unprintable_peer : Env :=
  mk_Env working_host plain_strerror (Success tt) (Success tt) (Success loopback)
         (Success tt) (Success loopback) (Failure ENOSPC)
         [(Success ping, Success 4); (Success [], Success 0)].

(** An environment in which every call succeeds, but the host has no
    memory left for the line that reports the peer. *)
Definition out_of_memory : Env :=
  mk_Env (mk_Host true (fun text => negb (String.prefix "Client connection" text))
                  (fun _ => true))
         plain_strerror (Success tt) (Success tt) (Success loopback)
         (Success tt) (Success loopback) (Success "127.0.0.1"%string)
         [(Success ping, Success 4); (Success [], Success 0)].

(** A process that was started with its standard input closed, so that
    descriptor 0 is free. *)
Definition no_stdin : State := mk_State [] {[1; 2]} 0 None false false.

(** Error numbers of the steps of the setup. *)
Definition EMFILE : Z := 24.
Definition EADDRINUSE : Z := 98.
Definition ECONNABORTED : Z := 103.

(** Environments in which one step of the setup fails. *)
Definition no_descriptor_left : Env :=
  mk_Env working_host plain_strerror (Failure EMFILE) (Success tt) (Success loopback)
         (Success tt) (Success loopback) (Success "127.0.0.1"%string) [].

Definition port_in_use : Env :=
  mk_Env working_host plain_strerror (Success tt) (Failure EADDRINUSE) (Success loopback)
         (Success tt) (Success loopback) (Success "127.0.0.1"%string) [].

Definition cannot_listen : Env :=
  mk_Env working_host plain_strerror (Success tt) (Success tt) (Success loopback)
         (Failure EADDRINUSE) (Success loopback) (Success "127.0.0.1"%string) [].

Definition connection_aborted : Env :=
  mk_Env working_host plain_strerror (Success tt) (Success tt) (Success loopback)
         (Success tt) (Failure ECONNABORTED) (Success "127.0.0.1"%string) [].

(** A host whose activity has no [logMessage] method. *)
Definition silent_host : Host := mk_Host false (fun _ => true) (fun _ => true).

Definition no_log_method : Env :=
  mk_Env silent_host plain_strerror (Success tt) (Success tt) (Success loopback)
         (Success tt) (Success loopback) (Success "127.0.0.1"%string) [].

(** A peer that sends a chunk with a zero byte, of which the kernel
    takes a part, then a chunk whose answer fails. *)
Definition rough_peer : list (reply (list ascii) * reply Z) :=
  [ (Success (list_ascii_of_string "ab" ++ NUL :: list_ascii_of_string "cd"), Success 2);
    (Success hello, Failure ECONNRESET);
    (Success ping, Success 4) ].

(** * Lemmas *)

Arguments vsnprintf : simpl never.
Arguments fmt_d : simpl never.
Arguments fmt_hu : simpl never.
Arguments to_ushort : simpl never.
Arguments htons : simpl never.
Arguments htonl : simpl never.
Arguments ntohs : simpl never.
Arguments lowest_unused : simpl never.
Arguments String.append : simpl never.

Lemma after_after evs1 evs2 s : after evs2 (after evs1 s) = after (evs1 ++ evs2) s.
Proof. unfold after; simpl. by rewrite app_assoc. Qed.

Lemma new_events_after evs s : new_events s (after evs s) = evs.
Proof. unfold new_events; simpl. by rewrite drop_app_length. Qed.

Section HostOk.

Variable env : Env.
Hypothesis Hhost : host_ok env.

Lemma LogMessage_ok text s :
  LogMessage env text s = Returned tt (after [log_line text] s).
Proof.
  destruct Hhost as (Hm & Hs & _).
  unfold LogMessage, bind, get, GetMethodID, NewStringUTF, CallVoidMethod,
    emit, modify, ret.
  destruct s as [t f e p [] u]; simpl; rewrite ?Hm, ?Hs; simpl; rewrite ?Hs; reflexivity.
Qed.

Lemma ThrowErrnoException_ok e text s :
  errno_message env e = Some text ->
  exists e',
    ThrowErrnoException env IOException e s =
    Returned tt (mk_State (st_trace s ++ [EvThrow IOException text]) (st_fds s) e'
                   (Some (IOException, text)) (st_methodID s) (st_undefined s)).
Proof.
  destruct Hhost as (_ & _ & Hc).
  unfold errno_message, ThrowErrnoException, ThrowException, FindClass, ThrowNew,
    lib_strerror_r, bind, get, emit, modify, ret.
  destruct (env_strerror_r env e) as [e1|t1] eqn:E1; simpl.
  - destruct (env_strerror_r env e1) as [e2|t2] eqn:E2; simpl; [done|].
    intros [= <-]. rewrite Hc. simpl. by exists e1.
  - intros [= <-]. rewrite Hc. simpl. by exists (st_errno s).
Qed.

End HostOk.

(** ** The transfer buffer *)

Lemma c_str_app_nul d r : c_str (d ++ NUL :: r) = c_str d.
Proof.
  induction d as [|c d IH]; simpl; [done|].
  destruct (decide (c = NUL)); [done|]. by rewrite IH.
Qed.

Lemma filled_eq d buffer : (length d < length buffer)%nat ->
  filled d buffer = d ++ NUL :: drop (S (length d)) buffer.
Proof.
  intros H. unfold filled.
  rewrite insert_app_r_alt by lia. rewrite Nat.sub_diag.
  destruct (drop (length d) buffer) as [|c r] eqn:E.
  - apply (f_equal length) in E. rewrite length_drop in E. simpl in E. lia.
  - simpl. do 2 f_equal.
    replace (S (length d)) with (length d + 1)%nat by lia.
    by rewrite <- drop_drop, E.
Qed.

Lemma filled_length d buffer : (length d < length buffer)%nat ->
  length (filled d buffer) = length buffer.
Proof.
  intros H. unfold filled. rewrite length_insert, length_app, length_drop. lia.
Qed.

Lemma filled_terminated d buffer : (length d < length buffer)%nat ->
  filled d buffer !! length d = Some NUL.
Proof.
  intros H. unfold filled. apply list_lookup_insert_eq.
  rewrite length_app, length_drop. lia.
Qed.

Lemma c_str_filled d buffer : (length d < length buffer)%nat ->
  c_str (filled d buffer) = c_str d.
Proof. intros H. rewrite filled_eq by done. apply c_str_app_nul. Qed.

Lemma NUL_in_filled d buffer : (length d < length buffer)%nat ->
  NUL ∈ filled d buffer.
Proof. intros H. rewrite filled_eq by done. set_solver. Qed.

Lemma take_filled d buffer : (length d < length buffer)%nat ->
  take (length d) (filled d buffer) = d.
Proof. intros H. rewrite filled_eq by done. by rewrite take_app_length. Qed.

Lemma uninitialised_length n junk : 0 <= n ->
  length (uninitialised n junk) = Z.to_nat n.
Proof.
  intros H. unfold uninitialised.
  rewrite length_take, length_app, length_replicate. lia.
Qed.

(** ** The functions of the echo loop when the host is in order *)

Ltac unfold_monad :=
  unfold bind, ret, get, emit, modify, undefined_behaviour, block.

Ltac state_fields :=
  cbn [st_trace st_fds st_errno st_pending st_methodID st_undefined
       after set_trace set_fds set_errno set_pending set_methodID set_undefined].

Section EchoLoop.

Variable env : Env.
Hypothesis Hhost : host_ok env.

Lemma ReceiveFromSocket_data d sd buffer s :
  length buffer = 80%nat -> (0 < length d <= 79)%nat ->
  ReceiveFromSocket env (Success d) sd buffer MAX_BUFFER_SIZE s =
  Returned (Z.of_nat (length d), filled d buffer)
    (after [ log_line "Receiving from the socket...";
             EvRecv sd (MAX_BUFFER_SIZE - 1) (Z.of_nat (length d)) d;
             log_line ("Received " +:+ fmt_d (Z.of_nat (length d)) +:+ " bytes: "
                       +:+ string_of_list_ascii (c_str d)) ] s).
Proof.
  intros Hb Hd.
  unfold ReceiveFromSocket, sys_recv, store, read_c_str.
  change (to_size_t (MAX_BUFFER_SIZE - 1)) with 79.
  change (Z.to_nat 79) with 79%nat.
  rewrite (take_ge d) by lia.
  unfold bind at 1. unfold bind at 1. rewrite LogMessage_ok by done.
  rewrite decide_True by lia.
  rewrite (take_ge (d ++ _)) by (rewrite length_app, length_drop; lia).
  unfold_monad. state_fields.
  rewrite decide_False by lia.
  rewrite decide_True by (rewrite length_app, length_drop; lia).
  rewrite decide_True by lia.
  rewrite Nat2Z.id. fold (filled d buffer).
  rewrite decide_True by (apply NUL_in_filled; lia).
  rewrite LogMessage_ok by done.
  rewrite c_str_filled by lia.
  f_equal. unfold after; simpl. rewrite <- !app_assoc. reflexivity.
Qed.

Lemma ReceiveFromSocket_eof sd buffer s :
  length buffer = 80%nat ->
  ReceiveFromSocket env (Success []) sd buffer MAX_BUFFER_SIZE s =
  Returned (0, filled [] buffer)
    (after [ log_line "Receiving from the socket...";
             EvRecv sd (MAX_BUFFER_SIZE - 1) 0 [];
             log_line "Client disconnected." ] s).
Proof.
  intros Hb.
  unfold ReceiveFromSocket, sys_recv, store, read_c_str.
  change (to_size_t (MAX_BUFFER_SIZE - 1)) with 79.
  change (Z.to_nat 79) with 79%nat.
  unfold bind at 1. unfold bind at 1. rewrite LogMessage_ok by done.
  cbn [take length app drop].
  rewrite (take_ge buffer) by lia.
  rewrite decide_True by lia.
  unfold_monad. state_fields.
  rewrite decide_False by lia.
  rewrite decide_True by lia.
  rewrite decide_False by lia.
  rewrite LogMessage_ok by done.
  f_equal. unfold after; simpl. rewrite <- !app_assoc. reflexivity.
Qed.

Lemma ReceiveFromSocket_fail e text sd buffer s :
  errno_message env e = Some text ->
  exists s',
    ReceiveFromSocket env (Failure e) sd buffer MAX_BUFFER_SIZE s = Returned (-1, buffer) s' /\
    st_trace s' = st_trace s ++ [ log_line "Receiving from the socket...";
                                  EvRecv sd (MAX_BUFFER_SIZE - 1) (-1) [];
                                  EvThrow IOException text ] /\
    st_pending s' = Some (IOException, text) /\
    st_fds s' = st_fds s /\ st_undefined s' = st_undefined s.
Proof.
  intros Hmsg.
  unfold ReceiveFromSocket, sys_recv.
  change (to_size_t (MAX_BUFFER_SIZE - 1)) with 79.
  unfold bind at 1. unfold bind at 1. rewrite LogMessage_ok by done.
  unfold_monad. state_fields.
  rewrite decide_True by lia.
  match goal with |- context [ThrowErrnoException env IOException ?e ?s0] =>
    destruct (ThrowErrnoException_ok env Hhost e text s0 Hmsg) as [e' ->] end.
  eexists; split; [reflexivity|]. state_fields.
  rewrite <- !app_assoc. done.
Qed.

Lemma to_size_t_small n : 0 <= n < 2 ^ SIZE_BITS -> to_size_t n = n.
Proof. intros H. unfold to_size_t. by apply Z.mod_small. Qed.

Lemma SendToSocket_sent d room sd buffer s :
  length buffer = 80%nat -> (0 < length d <= 79)%nat -> 0 < room ->
  SendToSocket env (Success room) sd (filled d buffer)
    (to_size_t (Z.of_nat (length d))) s =
  let m := Z.max 0 (Z.min room (Z.of_nat (length d))) in
  Returned m
    (after [ log_line "Sending to the socket...";
             EvSend sd d m;
             log_line ("Sent " +:+ fmt_d m +:+ " bytes: "
                       +:+ string_of_list_ascii (c_str d)) ] s).
Proof.
  intros Hb Hd Hr.
  rewrite to_size_t_small by (unfold SIZE_BITS; lia).
  unfold SendToSocket, sys_send, read_c_str.
  unfold bind at 1. rewrite LogMessage_ok by done.
  rewrite Nat2Z.id, take_filled, filled_length by lia.
  rewrite decide_True by lia.
  unfold_monad. state_fields.
  rewrite decide_False by lia.
  rewrite decide_True by lia.
  rewrite decide_True by (apply NUL_in_filled; lia).
  rewrite LogMessage_ok by done.
  rewrite c_str_filled by lia.
  cbv zeta. f_equal. unfold after; simpl. rewrite <- !app_assoc. reflexivity.
Qed.

Lemma SendToSocket_none d room sd buffer s :
  length buffer = 80%nat -> (0 < length d <= 79)%nat -> room <= 0 ->
  SendToSocket env (Success room) sd (filled d buffer)
    (to_size_t (Z.of_nat (length d))) s =
  Returned 0
    (after [ log_line "Sending to the socket...";
             EvSend sd d 0;
             log_line "Client disconnected." ] s).
Proof.
  intros Hb Hd Hr.
  rewrite to_size_t_small by (unfold SIZE_BITS; lia).
  unfold SendToSocket, sys_send, read_c_str.
  unfold bind at 1. rewrite LogMessage_ok by done.
  rewrite Nat2Z.id, take_filled, filled_length by lia.
  rewrite decide_True by lia.
  replace (Z.max 0 (Z.min room (Z.of_nat (length d)))) with 0 by lia.
  unfold_monad. state_fields.
  rewrite decide_False by lia.
  rewrite decide_False by lia.
  rewrite LogMessage_ok by done.
  f_equal. unfold after; simpl. rewrite <- !app_assoc. reflexivity.
Qed.

Lemma SendToSocket_fail e text d sd buffer s :
  length buffer = 80%nat -> (0 < length d <= 79)%nat ->
  errno_message env e = Some text ->
  exists s',
    SendToSocket env (Failure e) sd (filled d buffer)
      (to_size_t (Z.of_nat (length d))) s = Returned (-1) s' /\
    st_trace s' = st_trace s ++ [ log_line "Sending to the socket...";
                                  EvSend sd d (-1);
                                  EvThrow IOException text ] /\
    st_pending s' = Some (IOException, text) /\
    st_fds s' = st_fds s /\ st_undefined s' = st_undefined s.
Proof.
  intros Hb Hd Hmsg.
  rewrite to_size_t_small by (unfold SIZE_BITS; lia).
  unfold SendToSocket, sys_send.
  unfold bind at 1. rewrite LogMessage_ok by done.
  rewrite Nat2Z.id, take_filled, filled_length by lia.
  rewrite decide_True by lia.
  unfold_monad. state_fields.
  rewrite decide_True by lia.
  match goal with |- context [ThrowErrnoException env IOException ?e ?s0] =>
    destruct (ThrowErrnoException_ok env Hhost e text s0 Hmsg) as [e' ->] end.
  eexists; split; [reflexivity|]. state_fields.
  rewrite <- !app_assoc. done.
Qed.

(** A round in which data arrives and at least one byte of the answer is
    taken leads to the next round, with the same descriptor and a buffer
    of the same size. *)
Lemma echo_loop_round d room peer sd buffer s :
  length buffer = 80%nat -> (0 < length d <= 79)%nat -> 0 < room ->
  st_pending s = None ->
  echo_loop env ((Success d, Success room) :: peer) sd buffer s =
  echo_loop env peer sd (filled d buffer) (after (round_events sd d room) s).
Proof.
  intros Hb Hd Hr Hp.
  cbn [echo_loop]. unfold bind at 1.
  rewrite ReceiveFromSocket_data by done.
  unfold ExceptionOccurred. unfold bind at 1, get at 1. state_fields.
  rewrite Hp, bool_decide_eq_false_2 by lia. cbn [orb].
  unfold bind at 1. rewrite SendToSocket_sent by done. cbv zeta.
  unfold bind at 1, get at 1. state_fields.
  rewrite Hp, bool_decide_eq_false_2 by lia. cbn [orb].
  rewrite after_after. reflexivity.
Qed.

Lemma adds_after evs s : adds evs s (after evs s).
Proof. by unfold adds, after. Qed.

Lemma adds_trans evs1 evs2 s1 s2 s3 :
  adds evs1 s1 s2 -> adds evs2 s2 s3 -> adds (evs1 ++ evs2) s1 s3.
Proof.
  intros (Ht1 & Hf1 & Hp1 & Hu1) (Ht2 & Hf2 & Hp2 & Hu2).
  unfold adds. rewrite Ht2, Ht1, Hf2, Hp2, Hu2, app_assoc. done.
Qed.

Lemma adds_new_events evs s s' : adds evs s s' -> new_events s s' = evs.
Proof.
  intros (Ht & _). unfold new_events. rewrite Ht. apply drop_app_length.
Qed.

Lemma echo_loop_rounds rounds peer sd buffer s :
  length buffer = 80%nat -> Forall good_round rounds -> st_pending s = None ->
  exists buffer' s',
    length buffer' = 80%nat /\ adds (rounds_events sd rounds) s s' /\
    echo_loop env (as_peer rounds ++ peer) sd buffer s =
    echo_loop env peer sd buffer' s'.
Proof.
  intros Hb Hgood. revert buffer s Hb.
  induction Hgood as [|[d room] rounds [Hd Hr] _ IH]; intros buffer s Hb Hp.
  - exists buffer, s. split_and!; [done| |done].
    unfold adds. simpl. by rewrite app_nil_r.
  - simpl in Hd, Hr. cbn [as_peer map app].
    rewrite echo_loop_round by done.
    destruct (IH (filled d buffer) (after (round_events sd d room) s))
      as (buffer' & s' & Hb' & Hadds & Heq).
    { rewrite filled_length; lia. }
    { done. }
    exists buffer', s'. split_and!; [done| |done].
    cbn [rounds_events]. eapply adds_trans; [apply adds_after|done].
Qed.

(** The loop ends, without an error, in the round in which nothing
    arrives. *)
Lemma echo_loop_eof w peer sd buffer s :
  length buffer = 80%nat -> st_pending s = None ->
  exists s',
    echo_loop env ((Success [], w) :: peer) sd buffer s = Returned tt s' /\
    adds [ log_line "Receiving from the socket...";
           EvRecv sd (MAX_BUFFER_SIZE - 1) 0 [];
           log_line "Client disconnected." ] s s'.
Proof.
  intros Hb Hp. eexists. split; [|apply adds_after].
  cbn [echo_loop]. unfold bind at 1.
  rewrite ReceiveFromSocket_eof by done.
  unfold ExceptionOccurred. unfold bind at 1, get at 1. state_fields.
  rewrite bool_decide_eq_true_2 by done. reflexivity.
Qed.

(** The loop ends in the round in which [recv] fails. *)
Lemma echo_loop_recv_fail e text w peer sd buffer s :
  errno_message env e = Some text ->
  exists s',
    echo_loop env ((Failure e, w) :: peer) sd buffer s = Returned tt s' /\
    st_trace s' = st_trace s ++ [ log_line "Receiving from the socket...";
                                  EvRecv sd (MAX_BUFFER_SIZE - 1) (-1) [];
                                  EvThrow IOException text ] /\
    st_pending s' = Some (IOException, text) /\
    st_fds s' = st_fds s /\ st_undefined s' = st_undefined s.
Proof.
  intros Hmsg.
  destruct (ReceiveFromSocket_fail e text sd buffer s Hmsg)
    as (s' & Heq & Ht & Hp & Hf & Hu).
  exists s'. split; [|done].
  cbn [echo_loop]. unfold bind at 1. rewrite Heq.
  unfold ExceptionOccurred. unfold bind at 1, get at 1. rewrite Hp.
  rewrite orb_true_r. reflexivity.
Qed.

(** The loop ends, without an error, in the round in which the kernel
    takes nothing of the answer. *)
Lemma echo_loop_send_none d room peer sd buffer s :
  length buffer = 80%nat -> (0 < length d <= 79)%nat -> room <= 0 ->
  st_pending s = None ->
  exists s',
    echo_loop env ((Success d, Success room) :: peer) sd buffer s = Returned tt s' /\
    adds [ log_line "Receiving from the socket...";
           EvRecv sd (MAX_BUFFER_SIZE - 1) (Z.of_nat (length d)) d;
           log_line ("Received " +:+ fmt_d (Z.of_nat (length d)) +:+ " bytes: "
                     +:+ string_of_list_ascii (c_str d));
           log_line "Sending to the socket...";
           EvSend sd d 0;
           log_line "Client disconnected." ] s s'.
Proof.
  intros Hb Hd Hr Hp. eexists. split.
  - cbn [echo_loop]. unfold bind at 1.
    rewrite ReceiveFromSocket_data by done.
    unfold ExceptionOccurred. unfold bind at 1, get at 1. state_fields.
    rewrite Hp, bool_decide_eq_false_2 by lia. cbn [orb].
    unfold bind at 1. rewrite SendToSocket_none by done.
    unfold bind at 1, get at 1. state_fields.
    rewrite bool_decide_eq_true_2 by done. cbn [orb].
    rewrite after_after. reflexivity.
  - apply adds_after.
Qed.

(** The loop ends in the round in which [send] fails. *)
Lemma echo_loop_send_fail e text d peer sd buffer s :
  length buffer = 80%nat -> (0 < length d <= 79)%nat -> st_pending s = None ->
  errno_message env e = Some text ->
  exists s',
    echo_loop env ((Success d, Failure e) :: peer) sd buffer s = Returned tt s' /\
    st_trace s' = st_trace s ++
      [ log_line "Receiving from the socket...";
        EvRecv sd (MAX_BUFFER_SIZE - 1) (Z.of_nat (length d)) d;
        log_line ("Received " +:+ fmt_d (Z.of_nat (length d)) +:+ " bytes: "
                  +:+ string_of_list_ascii (c_str d));
        log_line "Sending to the socket...";
        EvSend sd d (-1);
        EvThrow IOException text ] /\
    st_pending s' = Some (IOException, text) /\
    st_fds s' = st_fds s /\ st_undefined s' = st_undefined s.
Proof.
  intros Hb Hd Hp0 Hmsg.
  cbn [echo_loop]. unfold bind at 1.
  rewrite ReceiveFromSocket_data by done.
  unfold ExceptionOccurred. unfold bind at 1, get at 1. state_fields.
  rewrite Hp0, bool_decide_eq_false_2 by lia. cbn [orb].
  unfold bind at 1.
  match goal with |- context [SendToSocket env _ sd _ _ ?s0] =>
    destruct (SendToSocket_fail e text d sd buffer s0 Hb Hd Hmsg)
      as (s' & Heq & Ht & Hp & Hf & Hu) end.
  exists s'. rewrite Heq.
  unfold bind at 1, get at 1. rewrite Hp, orb_true_r.
  split; [reflexivity|]. rewrite Ht. state_fields.
  rewrite <- !app_assoc. done.
Qed.

End EchoLoop.

(** ** What a run can add to the trace, for any environment *)

Section Emits.

Context {P : event -> Prop}.

Lemma emits_ret {A} (a : A) : emits P (ret a).
Proof. intros s. exists []. simpl. by rewrite app_nil_r. Qed.

Lemma emits_get {A} (f : State -> A) : emits P (get f).
Proof. intros s. exists []. simpl. by rewrite app_nil_r. Qed.

Lemma emits_block {A} : emits P (@block A).
Proof. intros s. exists []. simpl. by rewrite app_nil_r. Qed.

Lemma emits_modify f :
  (forall s, st_trace (f s) = st_trace s) -> emits P (modify f).
Proof. intros Hf s. exists []. simpl. by rewrite Hf, app_nil_r. Qed.

Lemma emits_emit e : P e -> emits P (emit e).
Proof. intros He s. exists [e]. simpl. by split; [|constructor]. Qed.

Lemma emits_bind {A B} (m : M A) (f : A -> M B) :
  emits P m -> (forall a, emits P (f a)) -> emits P (bind m f).
Proof.
  intros Hm Hf s. destruct (Hm s) as (evs1 & Ht1 & HP1).
  unfold bind. destruct (m s) as [a s1|s1]; simpl in *.
  - destruct (Hf a s1) as (evs2 & Ht2 & HP2).
    exists (evs1 ++ evs2). rewrite Ht2, Ht1, app_assoc.
    split; [done|]. by apply Forall_app.
  - by exists evs1.
Qed.

End Emits.

Ltac emits_step :=
  lazymatch goal with
  | |- emits _ (bind _ _) => apply emits_bind; [|intros]
  | |- emits _ (ret _) => apply emits_ret
  | |- emits _ (get _) => apply emits_get
  | |- emits _ ExceptionOccurred => apply emits_get
  | |- emits _ block => apply emits_block
  | |- emits _ undefined_behaviour => by apply emits_modify
  | |- emits _ (host_raise _) => by apply emits_modify
  | |- emits _ (modify _) => by apply emits_modify
  | |- emits _ (emit _) => apply emits_emit
  | |- emits _ (if ?b then _ else _) => destruct b
  | |- emits _ (match ?x with _ => _ end) => destruct x
  end.

Section EmitsNative.

Variable env : Env.
Variable P : event -> Prop.
Hypothesis P_throw : forall className message, P (EvThrow className message).

Lemma emits_LogMessage text : P (log_line text) -> emits P (LogMessage env text).
Proof.
  intros H s.
  unfold LogMessage, GetMethodID, NewStringUTF, CallVoidMethod, host_raise.
  unfold_monad.
  destruct (st_methodID s) eqn:Hc; cbn; rewrite ?Hc; cbn;
    [| destruct (host_logMessage (env_host env)); cbn ];
    try destruct (host_NewStringUTF (env_host env) _); cbn;
    first [ by exists [log_line text]; split; [|repeat constructor]
          | by exists []; rewrite app_nil_r ].
Qed.

Lemma emits_ThrowErrnoException className errnum :
  emits P (ThrowErrnoException env className errnum).
Proof.
  unfold ThrowErrnoException, ThrowException, FindClass, ThrowNew, lib_strerror_r.
  repeat emits_step; done.
Qed.

Lemma emits_sys_close sd : P (EvClose sd) -> emits P (sys_close sd).
Proof. intros H. unfold sys_close. repeat emits_step; done. Qed.

Ltac emits_native :=
  repeat first [ apply emits_LogMessage | apply emits_ThrowErrnoException
               | apply emits_sys_close | emits_step ].

Lemma emits_NewTcpSocket :
  P (log_line "Constructing a new TCP socket...") ->
  (forall ret, P (EvSocket PF_INET SOCK_STREAM 0 ret)) ->
  emits P (NewTcpSocket env).
Proof.
  intros HL H. unfold NewTcpSocket, sys_socket, new_descriptor.
  emits_native; done.
Qed.

Lemma emits_BindSocketToPort sd port :
  P (log_line ("Binding to port " +:+ fmt_hu port +:+ ".")) ->
  (forall ret, P (EvBind sd (mk_sockaddr_in AF_INET (htons port) (htonl INADDR_ANY)) ret)) ->
  emits P (BindSocketToPort env sd port).
Proof.
  intros HL H. unfold BindSocketToPort, sys_bind.
  emits_native; done.
Qed.

Lemma emits_GetSocketPort sd :
  (forall port, P (log_line ("Binded to random port " +:+ fmt_hu port +:+ "."))) ->
  (forall ret, P (EvGetsockname sd ret)) ->
  emits P (GetSocketPort env sd).
Proof.
  intros HL H. unfold GetSocketPort, sys_getsockname.
  emits_native; done.
Qed.

Lemma emits_ListenOnSocket sd backlog :
  P (log_line ("Listening on socket with a backlog of " +:+ fmt_d backlog
               +:+ " pending connections.")) ->
  (forall ret, P (EvListen sd backlog ret)) ->
  emits P (ListenOnSocket env sd backlog).
Proof.
  intros HL H. unfold ListenOnSocket, sys_listen.
  emits_native; done.
Qed.

Lemma emits_AcceptOnSocket sd :
  P (log_line "Waiting for a client connection...") ->
  (forall ip port, P (log_line ("Client connection from " +:+ " " +:+ ip +:+ ":"
                                +:+ fmt_hu port +:+ "."))) ->
  (forall ret, P (EvAccept sd ret)) ->
  emits P (AcceptOnSocket env sd).
Proof.
  intros HL1 HL2 H.
  unfold AcceptOnSocket, LogAddress, sys_accept, new_descriptor, lib_inet_ntop.
  emits_native; done.
Qed.

Lemma emits_ReceiveFromSocket r sd buffer bufferSize :
  P (log_line "Receiving from the socket...") ->
  (forall n text, P (log_line ("Received " +:+ fmt_d n +:+ " bytes: " +:+ text))) ->
  P (log_line "Client disconnected.") ->
  (forall ret data, ret <= to_size_t (bufferSize - 1) ->
     (length data <= Z.to_nat (to_size_t (bufferSize - 1)))%nat ->
     P (EvRecv sd (to_size_t (bufferSize - 1)) ret data)) ->
  emits P (ReceiveFromSocket env r sd buffer bufferSize).
Proof.
  intros HL1 HL2 HL3 H. unfold ReceiveFromSocket, sys_recv, store, read_c_str.
  assert (0 <= to_size_t (bufferSize - 1)).
  { unfold to_size_t, SIZE_BITS. apply Z.mod_pos_bound. lia. }
  emits_native; try done.
  - apply H; simpl; lia.
  - apply H; rewrite length_take; lia.
Qed.

Lemma emits_SendToSocket r sd buffer bufferSize :
  P (log_line "Sending to the socket...") ->
  (forall n text, P (log_line ("Sent " +:+ fmt_d n +:+ " bytes: " +:+ text))) ->
  P (log_line "Client disconnected.") ->
  (forall data ret, P (EvSend sd data ret)) ->
  emits P (SendToSocket env r sd buffer bufferSize).
Proof.
  intros HL1 HL2 HL3 H. unfold SendToSocket, sys_send, read_c_str.
  emits_native; done.
Qed.

Lemma emits_echo_loop peer sd buffer :
  P (log_line "Receiving from the socket...") ->
  (forall n text, P (log_line ("Received " +:+ fmt_d n +:+ " bytes: " +:+ text))) ->
  P (log_line "Client disconnected.") ->
  P (log_line "Sending to the socket...") ->
  (forall n text, P (log_line ("Sent " +:+ fmt_d n +:+ " bytes: " +:+ text))) ->
  (forall ret data, ret <= MAX_BUFFER_SIZE - 1 -> (length data <= 79)%nat ->
     P (EvRecv sd (MAX_BUFFER_SIZE - 1) ret data)) ->
  (forall data ret, P (EvSend sd data ret)) ->
  emits P (echo_loop env peer sd buffer).
Proof.
  intros HL1 HL2 HL3 HL4 HL5 Hr Hs. revert buffer.
  induction peer as [|[r w] peer IH]; intros buffer; cbn [echo_loop].
  - emits_native; done.
  - repeat first [apply emits_ReceiveFromSocket | apply emits_SendToSocket
                 | apply IH | emits_step]; done.
Qed.

End EmitsNative.

(** Whatever the environment does, the server started with [port] only
    makes the calls of [server_event port]. *)
Ltac emits_server :=
  repeat first
    [ apply emits_NewTcpSocket | apply emits_BindSocketToPort
    | apply emits_GetSocketPort | apply emits_ListenOnSocket
    | apply emits_AcceptOnSocket | apply emits_echo_loop
    | apply emits_sys_close | emits_step ].

Lemma emits_nativeStartTcpServer env junk port :
  emits (server_event port) (nativeStartTcpServer env junk port).
Proof.
  unfold nativeStartTcpServer, server_body.
  emits_server;
    try done; try (intros; right; reflexivity); try (intros; by left).
Qed.

Lemma server_events env junk port s e :
  e ∈ new_events s (final (nativeStartTcpServer env junk port s)) ->
  server_event port e.
Proof.
  destruct (emits_nativeStartTcpServer env junk port s) as (evs & Ht & HP).
  unfold new_events. rewrite Ht, drop_app_length.
  intros Hin. by eapply Forall_forall in HP.
Qed.

(** A run that returned [a] in [s1] goes on with the rest from there, and
    the rest only adds to the trace. *)
Lemma trace_after_prefix {A B} (m : M A) (k : A -> M B) s a s1 :
  m s = Returned a s1 ->
  (forall a, emits (fun _ => True) (k a)) ->
  exists rest, st_trace (final (bind m k s)) = st_trace s1 ++ rest.
Proof.
  intros Hm Hk. unfold bind. rewrite Hm.
  destruct (Hk a s1) as (rest & Ht & _). by exists rest.
Qed.

(** ** The events of whole rounds *)

Lemma syscalls_app t1 t2 : syscalls (t1 ++ t2) = syscalls t1 ++ syscalls t2.
Proof. apply filter_app. Qed.

Lemma throws_app t1 t2 : throws (t1 ++ t2) = throws t1 ++ throws t2.
Proof. apply filter_app. Qed.

Lemma syscalls_round_events sd d room :
  syscalls (round_events sd d room) =
  [ EvRecv sd (MAX_BUFFER_SIZE - 1) (Z.of_nat (length d)) d;
    EvSend sd d (Z.max 0 (Z.min room (Z.of_nat (length d)))) ].
Proof. reflexivity. Qed.

Lemma throws_rounds_events sd rounds : throws (rounds_events sd rounds) = [].
Proof.
  induction rounds as [|[d room] rounds IH]; [done|].
  cbn [rounds_events]. rewrite throws_app, IH. reflexivity.
Qed.

Lemma syscalls_rounds_events_whole sd rounds :
  Forall (fun r => Z.of_nat (length (fst r)) <= snd r) rounds ->
  syscalls (rounds_events sd rounds) = echo_calls sd (map fst rounds).
Proof.
  induction 1 as [|[d room] rounds Hroom _ IH]; [done|].
  cbn [rounds_events]. rewrite syscalls_app, IH, syscalls_round_events.
  simpl in Hroom. replace (Z.max 0 (Z.min room (Z.of_nat (length d))))
    with (Z.of_nat (length d)) by lia.
  reflexivity.
Qed.

Lemma sends_of_rounds_events sd rounds sd' data ret :
  Forall good_round rounds ->
  EvSend sd' data ret ∈ rounds_events sd rounds -> data <> [] /\ 0 < ret.
Proof.
  induction 1 as [|[d room] rounds [Hd Hr] _ IH]; cbn [rounds_events].
  - by intros ?%elem_of_nil.
  - simpl in Hd, Hr. rewrite elem_of_app. intros [Hin|Hin]; [|by apply IH].
    unfold round_events in Hin. cbv zeta in Hin.
    repeat (apply elem_of_cons in Hin as [Heq|Hin]; [try discriminate Heq|]).
    + injection Heq as -> -> ->. split; [|lia]. intros ->. simpl in Hd. lia.
    + by apply elem_of_nil in Hin.
Qed.

Lemma vsnprintf_nonempty text :
  text <> EmptyString -> vsnprintf MAX_LOG_MESSAGE_LENGTH text <> EmptyString.
Proof. destruct text; [done|]. intros _. discriminate. Qed.

Lemma errno_message_nonempty env e text :
  (forall e t, env_strerror_r env e = Success t -> t <> EmptyString) ->
  errno_message env e = Some text -> text <> EmptyString.
Proof.
  intros Hplat. unfold errno_message.
  destruct (env_strerror_r env e) as [e1|t1] eqn:E1.
  - destruct (env_strerror_r env e1) as [e2|t2] eqn:E2; [done|].
    intros [= <-]. eapply vsnprintf_nonempty, Hplat, E2.
  - intros [= <-]. eapply vsnprintf_nonempty, Hplat, E1.
Qed.

(** * The echo loop *)

Lemma bind_assoc {A B C} (m : M A) (f : A -> M B) (g : B -> M C) s :
  bind (bind m f) g s = bind m (fun a => bind (f a) g) s.
Proof. unfold bind. by destruct (m s). Qed.

Lemma sys_recv_returns r sd buffer len s :
  exists ret data buffer' s',
    sys_recv r sd buffer len s = Returned (ret, buffer') s' /\
    st_trace s' = st_trace s ++ [EvRecv sd len ret data].
Proof.
  unfold sys_recv. destruct r as [e|bytes]; unfold_monad; cbn.
  - by eexists _, _, _, _.
  - destruct (decide _); cbn; by eexists _, _, _, _.
Qed.

(** Every round of the echo loop starts with a receive. *)
Lemma echo_loop_first_call env r w peer sd buffer s :
  host_ok env ->
  exists ret data rest,
    st_trace (final (echo_loop env ((r, w) :: peer) sd buffer s)) =
    st_trace s ++ EvLog "Receiving from the socket..." :: EvRecv sd 79 ret data :: rest.
Proof.
  intros Hhost. cbn [echo_loop]. unfold ReceiveFromSocket.
  rewrite bind_assoc. unfold bind at 1. rewrite LogMessage_ok by done.
  rewrite bind_assoc. unfold bind at 1.
  change (to_size_t (MAX_BUFFER_SIZE - 1)) with 79.
  destruct (sys_recv_returns r sd buffer 79
              (after [log_line "Receiving from the socket..."] s))
    as (ret & data & buffer' & s1 & -> & Ht1).
  match goal with |- context [final (bind ?m ?k s1)] =>
    assert (emits (fun _ => True) (bind m k)) as Hrest end.
  { pose proof (emits_echo_loop env (fun _ => True) (fun _ _ => I) peer sd) as Hloop.
    unfold store, read_c_str.
    repeat first
      [ apply emits_LogMessage | apply emits_ThrowErrnoException
      | apply emits_SendToSocket | apply Hloop | emits_step ]; done. }
  destruct (Hrest s1) as (rest & -> & _).
  exists ret, data, rest. rewrite Ht1. cbn. by rewrite <- !app_assoc.
Qed.

Lemma syscalls_rounds_events_offered sd rounds :
  Forall good_round rounds ->
  syscalls (rounds_events sd rounds) = offered_calls sd rounds.
Proof.
  induction 1 as [|[d room] rounds [Hd Hr] _ IH]; [done|].
  cbn [rounds_events]. rewrite syscalls_app, IH, syscalls_round_events.
  simpl in Hd, Hr. cbn [offered_calls flat_map fst snd app].
  by replace (Z.max 0 (Z.min room (Z.of_nat (length d))))
    with (Z.min room (Z.of_nat (length d))) by lia.
Qed.

Lemma received_bytes_app t1 t2 :
  received_bytes (t1 ++ t2) = received_bytes t1 ++ received_bytes t2.
Proof. apply flat_map_app. Qed.

Lemma sent_bytes_app t1 t2 : sent_bytes (t1 ++ t2) = sent_bytes t1 ++ sent_bytes t2.
Proof. apply flat_map_app. Qed.

(** The events of the host carry no bytes of the connection. *)
Lemma bytes_of_syscalls t :
  received_bytes (syscalls t) = received_bytes t /\
  sent_bytes (syscalls t) = sent_bytes t.
Proof.
  unfold syscalls. induction t as [|e t [IH1 IH2]]; [done|].
  destruct (is_syscall e) eqn:He.
  - rewrite filter_cons_True by done.
    change (e :: t) with ([e] ++ t). change (e :: filter _ t) with ([e] ++ filter (fun e => is_syscall e = true) t).
    by rewrite !received_bytes_app, !sent_bytes_app, IH1, IH2.
  - rewrite filter_cons_False by (by rewrite He).
    rewrite IH1, IH2. by destruct e.
Qed.

Lemma bytes_of_offered_calls sd rounds :
  Forall good_round rounds ->
  received_bytes (offered_calls sd rounds) = concat (map fst rounds) /\
  sent_bytes (offered_calls sd rounds)
    = concat (map (fun r => take (Z.to_nat (snd r)) (fst r)) rounds).
Proof.
  induction 1 as [|[d room] rounds [Hd Hr] _ [IH1 IH2]]; [done|].
  simpl in Hd, Hr.
  change (offered_calls sd ((d, room) :: rounds))
    with ([ EvRecv sd (MAX_BUFFER_SIZE - 1) (Z.of_nat (length d)) d;
            EvSend sd d (Z.min room (Z.of_nat (length d))) ] ++ offered_calls sd rounds).
  rewrite received_bytes_app, sent_bytes_app, IH1, IH2.
  cbn [received_bytes sent_bytes flat_map map concat fst snd app].
  split; [by rewrite app_nil_r|]. rewrite app_nil_r. f_equal.
  destruct (decide (room <= Z.of_nat (length d))).
  - by rewrite Z.min_l.
  - rewrite Z.min_r, Nat2Z.id by lia. by rewrite !take_ge by lia.
Qed.

(** C2, as amended.  On an accepted connection, for chunks as the
    receives deliver them, each of 1 to 79 bytes, and a kernel that takes
    at least one byte of every answer: the calls of the echo loop are, in
    this order, receive chunk 1, send offering exactly chunk 1, receive
    chunk 2, send offering exactly chunk 2, and so on, nothing of an
    earlier round being offered again; what follows the rounds starts
    with the next receive.  Of each chunk the peer gets back the bytes
    the kernel took, the first [min room |chunk|]; when the peer then
    disconnects the loop returns with nothing pending.  When the kernel
    takes every answer whole, each chunk is sent back exactly. *)
Theorem echo_chunks_offered_in_order env rounds peer sd buffer s :
  host_ok env ->
  length buffer = 80%nat ->
  st_pending s = None ->
  Forall good_round rounds ->
  let t := new_events s (final (echo_loop env (as_peer rounds ++ peer) sd buffer s)) in
  (exists rest,
     syscalls t = offered_calls sd rounds ++ rest /\
     match peer with
     | [] => rest = []
     | _ :: _ => exists ret data rest', rest = EvRecv sd 79 ret data :: rest'
     end) /\
  (forall w peer', peer = (Success [], w) :: peer' ->
     exists s',
       echo_loop env (as_peer rounds ++ peer) sd buffer s = Returned tt s' /\
       syscalls t = offered_calls sd rounds ++ [EvRecv sd 79 0 []] /\
       st_pending s' = None /\
       received_bytes t = concat (map fst rounds) /\
       sent_bytes t = concat (map (fun r => take (Z.to_nat (snd r)) (fst r)) rounds)) /\
  (Forall (fun r => Z.of_nat (length (fst r)) <= snd r) rounds ->
   offered_calls sd rounds = echo_calls sd (map fst rounds) /\
   sent_bytes (offered_calls sd rounds) = concat (map fst rounds)).
Proof.
  intros Hhost Hb Hp Hgood t.
  destruct (echo_loop_rounds env Hhost rounds peer sd buffer s)
    as (buffer1 & s1 & Hb1 & Hadds1 & Heq); [done..|].
  pose proof Hadds1 as (Ht1 & _ & Hp1 & _).
  pose proof (syscalls_rounds_events_offered sd rounds Hgood) as Hoffered.
  pose proof (bytes_of_offered_calls sd rounds Hgood) as [Hrecv Hsent].
  split_and!.
  - destruct peer as [|[r w] peer'].
    + exists []. split; [|done]. unfold t. rewrite Heq. cbn [echo_loop].
      unfold bind. rewrite LogMessage_ok by done. cbn [block final].
      unfold new_events. cbn [after st_trace]. rewrite Ht1, <- app_assoc, drop_app_length.
      by rewrite syscalls_app, Hoffered.
    + destruct (echo_loop_first_call env r w peer' sd buffer1 s1 Hhost)
        as (ret & data & rest & Hfirst).
      exists (EvRecv sd 79 ret data :: syscalls rest). split; [|by eexists _, _, _].
      unfold t, new_events. rewrite Heq, Hfirst, Ht1, <- app_assoc, drop_app_length.
      by rewrite syscalls_app, Hoffered.
  - intros w peer' ->.
    destruct (echo_loop_eof env Hhost w peer' sd buffer1 s1)
      as (s2 & Hend & Hadds2); [done|congruence|].
    pose proof (adds_trans _ _ _ _ _ Hadds1 Hadds2) as Hadds.
    exists s2. unfold t. rewrite Heq, Hend. cbn [final].
    rewrite (adds_new_events _ _ _ Hadds).
    assert (Hsys : syscalls (rounds_events sd rounds ++
                     [ log_line "Receiving from the socket...";
                       EvRecv sd (MAX_BUFFER_SIZE - 1) 0 [];
                       log_line "Client disconnected." ])
                   = offered_calls sd rounds ++ [EvRecv sd 79 0 []]).
    { by rewrite syscalls_app, Hoffered. }
    split_and!; [done|done| | |].
    + destruct Hadds as (_ & _ & -> & _). done.
    + rewrite <- (proj1 (bytes_of_syscalls _)), Hsys, received_bytes_app, Hrecv.
      cbn. by rewrite app_nil_r.
    + rewrite <- (proj2 (bytes_of_syscalls _)), Hsys, sent_bytes_app, Hsent.
      cbn. by rewrite app_nil_r.
  - intros Hwhole.
    rewrite <- Hoffered, (syscalls_rounds_events_whole sd rounds Hwhole).
    split; [done|].
    rewrite <- (syscalls_rounds_events_whole sd rounds Hwhole), Hoffered, Hsent.
    f_equal. clear -Hwhole. induction Hwhole as [|[d room] rounds Hr _ IH]; [done|].
    simpl in Hr. cbn [map fst snd]. rewrite IH. f_equal. apply take_ge. lia.
Qed.

Lemma echo_chunks_offered_in_order_witness :
  let peer := [(Success [], Success 0)] in
  let rounds := [(ping, 4); (hello, 2)] in
  let t := new_events fresh_process
             (final (echo_loop (session []) (as_peer rounds ++ peer) 4
                       (uninitialised MAX_BUFFER_SIZE []) fresh_process)) in
  (exists rest,
     syscalls t = offered_calls 4 rounds ++ rest /\
     match peer with
     | [] => rest = []
     | _ :: _ => exists ret data rest', rest = EvRecv 4 79 ret data :: rest'
     end) /\
  (forall w peer', peer = (Success [], w) :: peer' ->
     exists s',
       echo_loop (session []) (as_peer rounds ++ peer) 4
         (uninitialised MAX_BUFFER_SIZE []) fresh_process = Returned tt s' /\
       syscalls t = offered_calls 4 rounds ++ [EvRecv 4 79 0 []] /\
       st_pending s' = None /\
       received_bytes t = concat (map fst rounds) /\
       sent_bytes t = concat (map (fun r => take (Z.to_nat (snd r)) (fst r)) rounds)) /\
  (Forall (fun r => Z.of_nat (length (fst r)) <= snd r) rounds ->
   offered_calls 4 rounds = echo_calls 4 (map fst rounds) /\
   sent_bytes (offered_calls 4 rounds) = concat (map fst rounds)).
Proof.
  apply (echo_chunks_offered_in_order (session []) [(ping, 4); (hello, 2)]
           [(Success [], Success 0)] 4 (uninitialised MAX_BUFFER_SIZE []) fresh_process).
  - repeat split; intros; reflexivity.
  - reflexivity.
  - reflexivity.
  - repeat constructor; simpl; lia.
Defined.

(** C2 as the specification words it does not hold of the code.  The
    peer sends "hello", of which the kernel takes two bytes, and
    disconnects.  The server received the five bytes and offered them
    once; the peer got back "he"; the other three bytes were never
    offered again. *)
Lemma echo_not_exact_counterexample :
  exists s',
    echo_loop (session []) [(Success hello, Success 2); (Success [], Success 0)] 4
      (uninitialised MAX_BUFFER_SIZE []) fresh_process = Returned tt s' /\
    syscalls (new_events fresh_process s')
      = [EvRecv 4 79 5 hello; EvSend 4 hello 2; EvRecv 4 79 0 []] /\
    received_bytes (new_events fresh_process s') = hello /\
    sent_bytes (new_events fresh_process s') = list_ascii_of_string "he" /\
    sent_bytes (new_events fresh_process s') <> received_bytes (new_events fresh_process s') /\
    syscalls (new_events fresh_process s') <> echo_calls 4 [hello] ++ [EvRecv 4 79 0 []].
Proof.
  eexists. split; [vm_compute; reflexivity|].
  split_and!; [reflexivity|reflexivity|reflexivity|discriminate|discriminate].
Qed.

(** C3.  When a receive or a send of the echo loop returns -1, after any
    number of rounds that went well, the loop returns; the failed call is
    the last call it made; exactly one exception was thrown during the
    loop, a [java.io.IOException] whose message is the text the platform
    gives for the error number of the failed call; and that text is not
    empty on a platform whose [strerror_r] never writes an empty text. *)
Theorem echo_loop_io_failure env rounds e text peer sd buffer s :
  host_ok env ->
  length buffer = 80%nat ->
  st_pending s = None ->
  Forall good_round rounds ->
  errno_message env e = Some text ->
  (forall w, exists s',
     echo_loop env (as_peer rounds ++ (Failure e, w) :: peer) sd buffer s
       = Returned tt s' /\
     new_events s s' = rounds_events sd rounds ++
       [ EvLog "Receiving from the socket...";
         EvRecv sd 79 (-1) [];
         EvThrow IOException text ] /\
     throws (new_events s s') = [EvThrow IOException text] /\
     st_pending s' = Some (IOException, text)) /\
  (forall d, (0 < length d <= 79)%nat -> exists s',
     echo_loop env (as_peer rounds ++ (Success d, Failure e) :: peer) sd buffer s
       = Returned tt s' /\
     new_events s s' = rounds_events sd rounds ++
       [ EvLog "Receiving from the socket...";
         EvRecv sd 79 (Z.of_nat (length d)) d;
         log_line ("Received " +:+ fmt_d (Z.of_nat (length d)) +:+ " bytes: "
                   +:+ string_of_list_ascii (c_str d));
         EvLog "Sending to the socket...";
         EvSend sd d (-1);
         EvThrow IOException text ] /\
     throws (new_events s s') = [EvThrow IOException text] /\
     st_pending s' = Some (IOException, text)) /\
  ((forall e' t, env_strerror_r env e' = Success t -> t <> EmptyString) ->
   text <> EmptyString).
Proof.
  intros Hhost Hb Hp Hgood Hmsg. split_and!.
  - intros w.
    destruct (echo_loop_rounds env Hhost rounds ((Failure e, w) :: peer) sd buffer s)
      as (buffer1 & s1 & Hb1 & (Ht1 & _ & Hp1 & _) & ->); [done..|].
    destruct (echo_loop_recv_fail env Hhost e text w peer sd buffer1 s1 Hmsg)
      as (s2 & -> & Ht2 & Hp2 & _).
    exists s2. split; [done|].
    assert (new_events s s2 = rounds_events sd rounds ++
              [ EvLog "Receiving from the socket..."; EvRecv sd 79 (-1) [];
                EvThrow IOException text ]) as ->.
    { unfold new_events. rewrite Ht2, Ht1, <- app_assoc. apply drop_app_length. }
    rewrite throws_app, throws_rounds_events. done.
  - intros d Hd.
    destruct (echo_loop_rounds env Hhost rounds ((Success d, Failure e) :: peer)
                sd buffer s)
      as (buffer1 & s1 & Hb1 & (Ht1 & _ & Hp1 & _) & ->); [done..|].
    destruct (echo_loop_send_fail env Hhost e text d peer sd buffer1 s1)
      as (s2 & -> & Ht2 & Hp2 & _); [done|done|congruence|done|].
    exists s2. split; [done|].
    match goal with |- new_events s s2 = ?t /\ _ =>
      assert (new_events s s2 = t) as -> end.
    { unfold new_events. rewrite Ht2, Ht1, <- app_assoc. apply drop_app_length. }
    rewrite throws_app, throws_rounds_events. done.
  - intros Hplat. by eapply errno_message_nonempty.
Qed.

Lemma echo_loop_io_failure_witness :
  (forall w, exists s',
     echo_loop (session []) (as_peer [(ping, 4)] ++ [(Failure ECONNRESET, w)])
       4 (uninitialised MAX_BUFFER_SIZE []) fresh_process = Returned tt s' /\
     new_events fresh_process s' = rounds_events 4 [(ping, 4)] ++
       [ EvLog "Receiving from the socket...";
         EvRecv 4 79 (-1) [];
         EvThrow IOException "error 104" ] /\
     throws (new_events fresh_process s') = [EvThrow IOException "error 104"] /\
     st_pending s' = Some (IOException, "error 104"%string)) /\
  (forall d, (0 < length d <= 79)%nat -> exists s',
     echo_loop (session []) (as_peer [(ping, 4)] ++ [(Success d, Failure ECONNRESET)])
       4 (uninitialised MAX_BUFFER_SIZE []) fresh_process = Returned tt s' /\
     new_events fresh_process s' = rounds_events 4 [(ping, 4)] ++
       [ EvLog "Receiving from the socket...";
         EvRecv 4 79 (Z.of_nat (length d)) d;
         log_line ("Received " +:+ fmt_d (Z.of_nat (length d)) +:+ " bytes: "
                   +:+ string_of_list_ascii (c_str d));
         EvLog "Sending to the socket...";
         EvSend 4 d (-1);
         EvThrow IOException "error 104" ] /\
     throws (new_events fresh_process s') = [EvThrow IOException "error 104"] /\
     st_pending s' = Some (IOException, "error 104"%string)) /\
  ((forall e' t, env_strerror_r (session []) e' = Success t -> t <> EmptyString) ->
   "error 104"%string <> EmptyString).
Proof.
  apply (echo_loop_io_failure (session []) [(ping, 4)] ECONNRESET "error 104" [] 4
           (uninitialised MAX_BUFFER_SIZE []) fresh_process).
  - repeat split; intros; reflexivity.
  - reflexivity.
  - reflexivity.
  - repeat constructor; simpl; lia.
  - reflexivity.
Defined.

(** C4.  When a receive of the echo loop returns 0, after any number of
    rounds that went well, the loop returns with no exception pending and
    none thrown; the last three events of the run are the notice of the
    receive, the receive itself and the line "Client disconnected.";
    nothing is sent after it, and no send of the loop carries an empty
    buffer or returns 0. *)
Theorem echo_loop_disconnect env rounds w peer sd buffer s :
  host_ok env ->
  length buffer = 80%nat ->
  st_pending s = None ->
  Forall good_round rounds ->
  exists s',
    echo_loop env (as_peer rounds ++ (Success [], w) :: peer) sd buffer s
      = Returned tt s' /\
    new_events s s' = rounds_events sd rounds ++
      [ EvLog "Receiving from the socket...";
        EvRecv sd 79 0 [];
        EvLog "Client disconnected." ] /\
    st_pending s' = None /\
    throws (new_events s s') = [] /\
    (forall sd' data ret,
       EvSend sd' data ret ∈ new_events s s' -> data <> [] /\ 0 < ret).
Proof.
  intros Hhost Hb Hp Hgood.
  destruct (echo_loop_rounds env Hhost rounds ((Success [], w) :: peer) sd buffer s)
    as (buffer1 & s1 & Hb1 & Hadds1 & ->); [done..|].
  destruct (echo_loop_eof env Hhost w peer sd buffer1 s1)
    as (s2 & -> & Hadds2); [done| |].
  { destruct Hadds1 as (_ & _ & -> & _). done. }
  exists s2. split; [done|].
  pose proof (adds_trans _ _ _ _ _ Hadds1 Hadds2) as Hadds.
  rewrite (adds_new_events _ _ _ Hadds).
  split_and!.
  - reflexivity.
  - destruct Hadds as (_ & _ & -> & _). done.
  - rewrite throws_app, throws_rounds_events. reflexivity.
  - intros sd' data ret [Hin|Hin]%elem_of_app.
    + by eapply sends_of_rounds_events.
    + repeat (apply elem_of_cons in Hin as [Heq|Hin]; [discriminate Heq|]).
      by apply elem_of_nil in Hin.
Qed.

Lemma echo_loop_disconnect_witness :
  exists s',
    echo_loop (session []) (as_peer [(ping, 4)] ++ [(Success [], Success 0)])
      4 (uninitialised MAX_BUFFER_SIZE []) fresh_process = Returned tt s' /\
    new_events fresh_process s' = rounds_events 4 [(ping, 4)] ++
      [ EvLog "Receiving from the socket...";
        EvRecv 4 79 0 [];
        EvLog "Client disconnected." ] /\
    st_pending s' = None /\
    throws (new_events fresh_process s') = [] /\
    (forall sd' data ret,
       EvSend sd' data ret ∈ new_events fresh_process s' -> data <> [] /\ 0 < ret).
Proof.
  apply (echo_loop_disconnect (session []) [(ping, 4)] (Success 0) [] 4
           (uninitialised MAX_BUFFER_SIZE []) fresh_process).
  - repeat split; intros; reflexivity.
  - reflexivity.
  - reflexivity.
  - repeat constructor; simpl; lia.
Defined.

(** * Steps that make no system call, for any environment *)

Lemma LogMessage_quiet env text s :
  exists s',
    LogMessage env text s = Returned tt s' /\ quiet s s' /\
    st_errno s' = st_errno s /\ st_undefined s' = st_undefined s.
Proof.
  unfold LogMessage, GetMethodID, NewStringUTF, CallVoidMethod, host_raise.
  unfold_monad.
  destruct (st_methodID s) eqn:Hc; cbn; rewrite ?Hc; cbn;
    [| destruct (host_logMessage (env_host env)); cbn ];
    try destruct (host_NewStringUTF (env_host env) _); cbn;
    (eexists; split; [reflexivity|]; split_and!; [|done..]; split_and!; cbn;
     [ first [ by exists [log_line text] | by exists []; rewrite app_nil_r ]
     | done | done ]).
Qed.

Lemma ThrowErrnoException_quiet env className e s :
  exists s',
    ThrowErrnoException env className e s = Returned tt s' /\ quiet s s' /\
    st_pending s' <> None.
Proof.
  unfold ThrowErrnoException, ThrowException, FindClass, ThrowNew,
    lib_strerror_r, host_raise.
  unfold_monad.
  destruct (env_strerror_r env e) as [e1|t1]; cbn.
  - rewrite decide_True by done. cbn.
    destruct (env_strerror_r env e1) as [e2|t2]; cbn;
      destruct (host_FindClass (env_host env) className); cbn;
      (eexists; split; [reflexivity|]; split; [|done]; split_and!; cbn;
       [ first [ by eexists [EvThrow _ _] | by exists []; rewrite app_nil_r ]
       | done | done ]).
  - rewrite decide_False by done. cbn.
    destruct (host_FindClass (env_host env) className); cbn;
      (eexists; split; [reflexivity|]; split; [|done]; split_and!; cbn;
       [ first [ by eexists [EvThrow _ _] | by exists []; rewrite app_nil_r ]
       | done | done ]).
Qed.

Lemma calls_trans sys1 sys2 s1 s2 s3 :
  calls sys1 s1 s2 -> calls sys2 s2 s3 -> calls (sys1 ++ sys2) s1 s3.
Proof.
  intros (evs1 & Ht1 & Hs1) (evs2 & Ht2 & Hs2).
  exists (evs1 ++ evs2). by rewrite Ht2, Ht1, app_assoc, syscalls_app, Hs1, Hs2.
Qed.

Lemma calls_new_events sys s s' : calls sys s s' -> syscalls (new_events s s') = sys.
Proof.
  intros (evs & Ht & Hs). unfold new_events. by rewrite Ht, drop_app_length.
Qed.

Lemma first_free_ge fuel n fds : n <= first_free fuel n fds.
Proof.
  revert n. induction fuel as [|fuel IH]; intros n; simpl; [lia|].
  destruct (decide (n ∈ fds)); [|lia]. specialize (IH (n + 1)). lia.
Qed.

Lemma lowest_unused_nonneg fds : 0 <= lowest_unused fds.
Proof. apply first_free_ge. Qed.

Lemma first_free_fresh fuel (n : Z) (fds : gset Z) :
  (size (filter (fun x => (n <= x)%Z) fds) <= fuel)%nat ->
  first_free fuel n fds ∉ fds.
Proof.
  revert n. induction fuel as [|fuel IH]; intros n Hsize; simpl.
  - intros Hin.
    assert (n ∈ filter (fun x => n <= x) fds) as Hn
      by (apply elem_of_filter; split; [lia|done]).
    assert (size (filter (fun x => n <= x) fds) = 0%nat) as Hz by lia.
    apply size_empty_inv in Hz. rewrite Hz in Hn. by apply elem_of_empty in Hn.
  - destruct (decide (n ∈ fds)) as [Hin|Hin]; [|done].
    apply IH.
    assert (filter (fun x => n <= x) fds
            ≡ {[n]} ∪ filter (fun x => n + 1 <= x) fds) as Heq.
    { intros x. rewrite elem_of_union, elem_of_singleton, !elem_of_filter.
      split.
      - intros [Hx Hfd]. destruct (decide (x = n)); [by left|right].
        split; [lia|done].
      - intros [->|[Hx Hfd]]; split; [lia|done|lia|done]. }
    rewrite Heq, size_union, size_singleton in Hsize; [lia|].
    intros x Hx1 Hx2. apply elem_of_singleton in Hx1 as ->.
    apply elem_of_filter in Hx2 as [Hx2 _]. lia.
Qed.

(** The descriptor the kernel hands out was not open. *)
Lemma lowest_unused_fresh (fds : gset Z) : lowest_unused fds ∉ fds.
Proof.
  apply first_free_fresh. apply subseteq_size.
  intros x Hx. by apply elem_of_filter in Hx as [_ Hx].
Qed.

Lemma sys_close_spec sd s :
  exists s',
    sys_close sd s = Returned tt s' /\
    st_trace s' = st_trace s ++ [EvClose sd] /\
    st_fds s' = st_fds s ∖ {[sd]} /\
    st_pending s' = st_pending s.
Proof.
  unfold sys_close. unfold_monad.
  destruct (decide (sd ∈ st_fds s)) as [Hin|Hin]; cbn;
    (eexists; split; [reflexivity|]); cbn; split_and!; try done.
  apply set_eq. intros x. rewrite elem_of_difference, elem_of_singleton.
  split; [|tauto]. intros Hx. split; [done|]. by intros ->.
Qed.

(** [NewTcpSocket] in any environment: one call of [socket]; a failure
    leaves an exception pending, a success a new open descriptor. *)
Lemma NewTcpSocket_spec env s :
  exists fd s1,
    NewTcpSocket env s = Returned fd s1 /\
    calls [EvSocket PF_INET SOCK_STREAM 0 fd] s s1 /\
    (st_pending s <> None -> st_pending s1 <> None) /\
    ((fd = -1 /\ st_fds s1 = st_fds s /\ st_pending s1 <> None) \/
     (fd = lowest_unused (st_fds s) /\ st_fds s1 = {[fd]} ∪ st_fds s)).
Proof.
  unfold NewTcpSocket. unfold bind at 1.
  destruct (LogMessage_quiet env "Constructing a new TCP socket..." s)
    as (s0 & -> & Hq0 & _).
  destruct Hq0 as (Hc0 & Hf0 & Hp0).
  unfold sys_socket, new_descriptor.
  destruct (env_socket env) as [e|[]]; unfold_monad; cbn.
  - rewrite decide_True by done.
    match goal with |- context [ThrowErrnoException env IOException ?e0 ?s1] =>
      destruct (ThrowErrnoException_quiet env IOException e0 s1)
        as (s2 & -> & (Hc2 & Hf2 & Hp2) & Hpend) end.
    exists (-1), s2. split; [done|]. split_and!.
    + change [EvSocket PF_INET SOCK_STREAM 0 (-1)]
        with ([] ++ [EvSocket PF_INET SOCK_STREAM 0 (-1)] ++ []).
      eapply calls_trans; [exact Hc0|]. eapply calls_trans; [|exact Hc2].
      by exists [EvSocket PF_INET SOCK_STREAM 0 (-1)].
    + done.
    + left. split_and!; [done| |done]. by rewrite Hf2.
  - pose proof (lowest_unused_nonneg (st_fds s0)).
    rewrite decide_False by lia.
    eexists _, _. split; [reflexivity|]. split_and!.
    + change [EvSocket PF_INET SOCK_STREAM 0 (lowest_unused (st_fds s0))]
        with ([] ++ [EvSocket PF_INET SOCK_STREAM 0 (lowest_unused (st_fds s0))]).
      eapply calls_trans; [exact Hc0|].
      by exists [EvSocket PF_INET SOCK_STREAM 0 (lowest_unused (st_fds s0))].
    + cbn. done.
    + right. cbn. by rewrite Hf0.
Qed.

(** * The client *)

(** C10.  Whatever its arguments and its environment, the client entry
    point returns after one call of [socket] and, exactly when
    [NewTcpSocket] left no exception pending, one call of [close] on the
    descriptor it got, which is then not open any more.  It makes no
    other system call, and the run it makes does not depend on [ip],
    [port] or [message]. *)
Theorem client_only_opens_and_closes env ip port message s :
  exists fd s1 s',
    NewTcpSocket env s = Returned fd s1 /\
    nativeStartTcpClient env ip port message s = Returned tt s' /\
    syscalls (new_events s s') =
      EvSocket PF_INET SOCK_STREAM 0 fd ::
      (if decide (st_pending s1 = None) then [EvClose fd] else []) /\
    (st_pending s1 = None -> fd ∉ st_fds s') /\
    (forall ip' port' message',
       nativeStartTcpClient env ip' port' message' s =
       nativeStartTcpClient env ip port message s).
Proof.
  destruct (NewTcpSocket_spec env s) as (fd & s1 & Heq & Hcalls & _ & Hfd).
  exists fd, s1.
  unfold nativeStartTcpClient. unfold bind at 1. rewrite Heq.
  unfold ExceptionOccurred. unfold bind at 1, get at 1.
  destruct (decide (st_pending s1 = None)) as [Hp1|Hp1].
  - rewrite Hp1. unfold sys_close. unfold_monad. cbn.
    destruct Hfd as [(_ & _ & Hpend)|(Hlow & Hfds)]; [done|].
    rewrite decide_True by (rewrite Hfds; by apply elem_of_union_l, elem_of_singleton).
    eexists. split_and!; [done|reflexivity| | |done].
    2: { intros _. cbn. rewrite elem_of_difference, elem_of_singleton. tauto. }
    apply calls_new_events.
    change (EvSocket PF_INET SOCK_STREAM 0 fd :: [EvClose fd])
      with ([EvSocket PF_INET SOCK_STREAM 0 fd] ++ [EvClose fd]).
    eapply calls_trans; [exact Hcalls|]. by exists [EvClose fd].
  - destruct (st_pending s1) as [p|]; [|done].
    exists s1. split_and!; try done. by apply calls_new_events.
Qed.

(** * A short send *)

(** C7.  A round in which [N] bytes arrive ([1 <= N <= 79]) and [send]
    returns [M] with [0 < M < N] is a round like any other: the loop
    made one call of [send], offering all the bytes received, threw
    nothing, left nothing pending, and goes on with the rest of the
    peer's rounds, that is with the next receive; the [N - M] bytes that
    were not taken are not offered again. *)
Theorem short_send_not_retried env d room peer sd buffer s :
  host_ok env ->
  length buffer = 80%nat ->
  st_pending s = None ->
  (length d <= 79)%nat ->
  0 < room < Z.of_nat (length d) ->
  let s1 := after (round_events sd d room) s in
  echo_loop env ((Success d, Success room) :: peer) sd buffer s =
    echo_loop env peer sd (filled d buffer) s1 /\
  syscalls (new_events s s1) = [EvRecv sd 79 (Z.of_nat (length d)) d; EvSend sd d room] /\
  throws (new_events s s1) = [] /\
  st_pending s1 = None /\
  (forall r w peer', peer = (r, w) :: peer' ->
     exists ret data rest,
       new_events s (final (echo_loop env ((Success d, Success room) :: peer) sd buffer s))
       = round_events sd d room ++
         EvLog "Receiving from the socket..." :: EvRecv sd 79 ret data :: rest).
Proof.
  intros Hhost Hb Hp Hd Hroom s1. split_and!.
  - apply echo_loop_round; [done|done|lia|lia|done].
  - unfold s1. rewrite new_events_after, syscalls_round_events.
    by replace (Z.max 0 (Z.min room (Z.of_nat (length d)))) with room by lia.
  - unfold s1. by rewrite new_events_after.
  - done.
  - intros r w peer' ->.
    rewrite echo_loop_round by (done || lia).
    destruct (echo_loop_first_call env r w peer' sd (filled d buffer)
                (after (round_events sd d room) s) Hhost)
      as (ret & data & rest & Ht).
    exists ret, data, rest. unfold new_events. rewrite Ht. cbn [after st_trace].
    by rewrite <- app_assoc, drop_app_length.
Qed.

Lemma short_send_not_retried_witness :
  let s1 := after (round_events 4 hello 2) fresh_process in
  echo_loop (session []) [(Success hello, Success 2); (Success [], Success 0)] 4
      (uninitialised MAX_BUFFER_SIZE []) fresh_process =
    echo_loop (session []) [(Success [], Success 0)] 4
      (filled hello (uninitialised MAX_BUFFER_SIZE [])) s1 /\
  syscalls (new_events fresh_process s1) = [EvRecv 4 79 5 hello; EvSend 4 hello 2] /\
  throws (new_events fresh_process s1) = [] /\
  st_pending s1 = None /\
  (forall r w peer', [(Success ([] : list ascii), Success 0)] = (r, w) :: peer' ->
     exists ret data rest,
       new_events fresh_process
         (final (echo_loop (session [])
                   [(Success hello, Success 2); (Success [], Success 0)] 4
                   (uninitialised MAX_BUFFER_SIZE []) fresh_process))
       = round_events 4 hello 2 ++
         EvLog "Receiving from the socket..." :: EvRecv 4 79 ret data :: rest).
Proof.
  apply (short_send_not_retried (session []) hello 2 [(Success [], Success 0)] 4
           (uninitialised MAX_BUFFER_SIZE []) fresh_process).
  - repeat split; intros; reflexivity.
  - reflexivity.
  - reflexivity.
  - simpl; lia.
  - simpl; lia.
Defined.

(** * The start of the server when the host is in order *)

Section ServerStart.

Variable env : Env.
Hypothesis Hhost : host_ok env.

Lemma NewTcpSocket_success s :
  env_socket env = Success tt ->
  NewTcpSocket env s =
  let fd := lowest_unused (st_fds s) in
  Returned fd
    (opened fd [ log_line "Constructing a new TCP socket...";
                 EvSocket PF_INET SOCK_STREAM 0 fd ] s).
Proof.
  intros Hr. unfold NewTcpSocket, sys_socket, new_descriptor. rewrite Hr.
  unfold bind at 1. rewrite LogMessage_ok by done.
  unfold_monad. state_fields.
  pose proof (lowest_unused_nonneg (st_fds s)).
  rewrite decide_False by lia.
  cbv zeta. f_equal. unfold opened, after, set_fds. state_fields.
  by rewrite <- app_assoc.
Qed.

Lemma BindSocketToPort_success sd port s :
  env_bind env = Success tt ->
  BindSocketToPort env sd port s =
  Returned tt
    (after [ log_line ("Binding to port " +:+ fmt_hu port +:+ ".");
             EvBind sd (mk_sockaddr_in AF_INET (htons port) (htonl INADDR_ANY)) 0 ] s).
Proof.
  intros Hr. unfold BindSocketToPort, sys_bind. rewrite Hr.
  unfold bind at 1. rewrite LogMessage_ok by done.
  unfold_monad. state_fields.
  rewrite decide_False by lia.
  f_equal. unfold after. state_fields. by rewrite <- app_assoc.
Qed.



Lemma GetSocketPort_success a sd s :
  env_getsockname env = Success a ->
  GetSocketPort env sd s =
  Returned (ntohs (sin_port a))
    (after [ EvGetsockname sd 0;
             log_line ("Binded to random port " +:+ fmt_hu (ntohs (sin_port a)) +:+ ".") ]
       s).
Proof.
  intros Hr. unfold GetSocketPort, sys_getsockname. rewrite Hr.
  unfold_monad. state_fields.
  rewrite decide_False by done. rewrite LogMessage_ok by done.
  f_equal. unfold after. state_fields. by rewrite <- app_assoc.
Qed.

Lemma ListenOnSocket_success sd backlog s :
  env_listen env = Success tt ->
  ListenOnSocket env sd backlog s =
  Returned tt
    (after [ log_line ("Listening on socket with a backlog of " +:+ fmt_d backlog
                       +:+ " pending connections.");
             EvListen sd backlog 0 ] s).
Proof.
  intros Hr. unfold ListenOnSocket, sys_listen. rewrite Hr.
  unfold bind at 1. rewrite LogMessage_ok by done.
  unfold_monad. state_fields.
  rewrite decide_False by lia.
  f_equal. unfold after. state_fields. by rewrite <- app_assoc.
Qed.

Lemma AcceptOnSocket_success a ip sd s :
  env_accept env = Success a ->
  env_inet_ntop env = Success ip ->
  AcceptOnSocket env sd s =
  let client := lowest_unused (st_fds s) in
  Returned client
    (opened client
       [ log_line "Waiting for a client connection...";
         EvAccept sd client;
         log_line ("Client connection from " +:+ " " +:+ ip +:+ ":"
                   +:+ fmt_hu (ntohs (sin_port a)) +:+ ".") ] s).
Proof.
  intros Hr Hip.
  unfold AcceptOnSocket, LogAddress, sys_accept, new_descriptor, lib_inet_ntop.
  rewrite Hr, Hip.
  unfold bind at 1. rewrite LogMessage_ok by done.
  unfold_monad. state_fields.
  pose proof (lowest_unused_nonneg (st_fds s)).
  rewrite decide_False by lia.
  rewrite LogMessage_ok by done.
  cbv zeta. f_equal. unfold opened, after, set_fds. state_fields.
  by rewrite <- !app_assoc.
Qed.

(** Listening and accepting, when both succeed, lead into the echo loop
    on the accepted descriptor. *)
Lemma listen_accept_echo junk peer ip fd (k : unit -> M unit) s :
  st_pending s = None ->
  env_listen env = Success tt ->
  env_accept env = Success peer ->
  env_inet_ntop env = Success ip ->
  let client := lowest_unused (st_fds s) in
  bind (ListenOnSocket env fd 4;;
        exc <- ExceptionOccurred;;
        if exc then ret tt else
          clientSocket <- AcceptOnSocket env fd;;
          exc <- ExceptionOccurred;;
          if exc then ret tt else
            echo_loop env (env_peer env) clientSocket
              (uninitialised MAX_BUFFER_SIZE junk);;
            sys_close clientSocket) k s =
  ( echo_loop env (env_peer env) client (uninitialised MAX_BUFFER_SIZE junk);;
    bind (sys_close client) k )
    (opened client
       [ log_line ("Listening on socket with a backlog of " +:+ fmt_d 4
                   +:+ " pending connections.");
         EvListen fd 4 0;
         log_line "Waiting for a client connection...";
         EvAccept fd client;
         log_line ("Client connection from " +:+ " " +:+ ip +:+ ":"
                   +:+ fmt_hu (ntohs (sin_port peer)) +:+ ".") ] s).
Proof.
  intros Hp Hlisten Haccept Hip client.
  cbv beta iota zeta; rewrite ?bind_assoc. unfold bind at 1. rewrite ListenOnSocket_success by done.
  cbv beta iota zeta; rewrite ?bind_assoc.
  unfold ExceptionOccurred at 1. unfold bind at 1, get at 1.
  state_fields. rewrite Hp.
  cbv beta iota zeta; rewrite ?bind_assoc. unfold bind at 1.
  rewrite (AcceptOnSocket_success peer ip) by done. cbv zeta.
  cbv beta iota zeta; rewrite ?bind_assoc.
  unfold ExceptionOccurred at 1. unfold bind at 1, get at 1.
  unfold opened. state_fields. rewrite Hp. fold client.
  cbv beta iota zeta; rewrite ?bind_assoc.
  match goal with |- bind ?m ?k1 ?s1 = bind ?m ?k2 ?s2 =>
    replace s1 with s2; [done|] end.
  unfold opened, after, set_fds; state_fields. by rewrite <- !app_assoc.
Qed.

(** After a setup in which every call succeeded the server runs the echo
    loop on the accepted descriptor, with a buffer of 80 bytes and no
    exception pending, then closes the accepted descriptor and goes to
    the exit. *)
Lemma server_reaches_echo_loop junk port bound peer ip s :
  st_pending s = None ->
  env_socket env = Success tt ->
  env_bind env = Success tt ->
  env_getsockname env = Success bound ->
  env_listen env = Success tt ->
  env_accept env = Success peer ->
  env_inet_ntop env = Success ip ->
  let fd := lowest_unused (st_fds s) in
  let client := lowest_unused ({[fd]} ∪ st_fds s) in
  let s0 := set_fds ({[client]} ∪ ({[fd]} ∪ st_fds s))
              (after (setup_events port fd client bound peer ip) s) in
  length (uninitialised MAX_BUFFER_SIZE junk) = 80%nat /\
  st_pending s0 = None /\
  nativeStartTcpServer env junk port s =
    ( echo_loop env (env_peer env) client (uninitialised MAX_BUFFER_SIZE junk);;
      sys_close client;;
      if decide (fd > 0) then sys_close fd else ret tt ) s0.
Proof.
  intros Hp Hsock Hbind Hname Hlisten Haccept Hip fd client s0.
  split; [by rewrite uninitialised_length|]. split; [done|].
  unfold nativeStartTcpServer.
  unfold bind at 1. rewrite NewTcpSocket_success by done. cbv zeta.
  fold fd. cbv beta iota zeta; rewrite ?bind_assoc.
  unfold ExceptionOccurred at 1. unfold bind at 1, get at 1.
  unfold opened. state_fields. rewrite Hp.
  unfold server_body. cbv zeta. cbv beta iota zeta; rewrite ?bind_assoc.
  unfold bind at 1. rewrite BindSocketToPort_success by done.
  cbv beta iota zeta; rewrite ?bind_assoc.
  unfold ExceptionOccurred at 1. unfold bind at 1, get at 1.
  state_fields. rewrite Hp.
  unfold s0, setup_events, bind_address.
  destruct (decide (0 = port)) as [Hport|Hport].
  - cbv beta iota zeta; rewrite ?bind_assoc.
    unfold bind at 1. rewrite (GetSocketPort_success bound) by done.
    cbv beta iota zeta; rewrite ?bind_assoc.
    unfold ExceptionOccurred at 1. unfold bind at 1, get at 1.
    state_fields. rewrite Hp.
    rewrite (listen_accept_echo junk peer ip) by done. cbv zeta.
    state_fields. fold client.
    match goal with |- bind ?m ?k1 ?s1 = bind ?m ?k2 ?s2 =>
      replace s1 with s2; [done|] end.
    unfold opened, after, set_fds; state_fields. by rewrite <- !app_assoc.
  - rewrite (listen_accept_echo junk peer ip) by done. cbv zeta.
    state_fields. fold client.
    match goal with |- bind ?m ?k1 ?s1 = bind ?m ?k2 ?s2 =>
      replace s1 with s2; [done|] end.
    unfold opened, after, set_fds; state_fields. by rewrite <- !app_assoc.
Qed.

End ServerStart.

(** * Discovery of the port *)



(** * The receive into the transfer buffer *)

Lemma ReceiveFromSocket_truncates env bytes sd buffer s :
  ReceiveFromSocket env (Success bytes) sd buffer MAX_BUFFER_SIZE s =
  ReceiveFromSocket env (Success (take 79 bytes)) sd buffer MAX_BUFFER_SIZE s.
Proof.
  unfold ReceiveFromSocket, sys_recv.
  change (Z.to_nat (to_size_t (MAX_BUFFER_SIZE - 1))) with 79%nat.
  by rewrite take_take, Nat.min_id.
Qed.

(** C8.  A receive of the echo loop, made with the 80-byte buffer, asks
    the kernel for at most 79 bytes.  When it succeeds with [N] bytes,
    [0 <= N <= 79], the buffer returned still has 80 bytes, holds the
    bytes received in front and a zero at offset [N]; the store of that
    zero was inside the buffer (no access outside an object happened);
    and the text logged is read from the buffer after the zero was
    stored.  In a whole run of the server, in any environment, every
    receive asks for 79 bytes and yields at most 79. *)
Theorem receive_bounded_and_terminated env bytes sd buffer s :
  host_ok env ->
  length buffer = 80%nat ->
  let d := take 79 bytes in
  let n := Z.of_nat (length d) in
  let buffer' := filled d buffer in
  (exists s',
     ReceiveFromSocket env (Success bytes) sd buffer MAX_BUFFER_SIZE s
       = Returned (n, buffer') s' /\
     st_trace s' = st_trace s ++
       [ EvLog "Receiving from the socket...";
         EvRecv sd 79 n d;
         if decide (n > 0)
         then log_line ("Received " +:+ fmt_d n +:+ " bytes: "
                        +:+ string_of_list_ascii (c_str buffer'))
         else EvLog "Client disconnected." ] /\
     st_undefined s' = st_undefined s) /\
  0 <= n <= MAX_BUFFER_SIZE - 1 /\
  length buffer' = 80%nat /\
  buffer' !! Z.to_nat n = Some NUL /\
  take (Z.to_nat n) buffer' = d /\
  (forall env' junk port s0 sd' len ret data,
     EvRecv sd' len ret data
       ∈ new_events s0 (final (nativeStartTcpServer env' junk port s0)) ->
     len = MAX_BUFFER_SIZE - 1 /\ ret <= MAX_BUFFER_SIZE - 1 /\
     (length data <= 79)%nat).
Proof.
  intros Hhost Hb d n buffer'.
  assert (Hd : (length d <= 79)%nat) by (unfold d; rewrite length_take; lia).
  split; [|split; [|split_and!]].
  - rewrite ReceiveFromSocket_truncates. fold d.
    destruct d as [|c d'] eqn:Ed.
    + rewrite ReceiveFromSocket_eof by done. eexists. split; [reflexivity|].
      by rewrite decide_False by (unfold n; simpl; lia).
    + rewrite ReceiveFromSocket_data by (done || simpl in *; lia).
      eexists. split; [reflexivity|].
      rewrite decide_True by (unfold n; simpl; lia).
      unfold buffer'. rewrite c_str_filled by (simpl in *; lia). done.
  - unfold MAX_BUFFER_SIZE. lia.
  - unfold buffer'. rewrite filled_length; lia.
  - unfold n, buffer'. rewrite Nat2Z.id. apply filled_terminated. lia.
  - unfold n, buffer'. rewrite Nat2Z.id. apply take_filled. lia.
  - intros env' junk port s0 sd' len ret data Hin.
    by apply server_events in Hin.
Qed.

Lemma receive_bounded_and_terminated_witness :
  let d := take 79 (replicate 100 "x"%char) in
  let n := Z.of_nat (length d) in
  let buffer' := filled d (uninitialised MAX_BUFFER_SIZE []) in
  (exists s',
     ReceiveFromSocket (session []) (Success (replicate 100 "x"%char)) 4
       (uninitialised MAX_BUFFER_SIZE []) MAX_BUFFER_SIZE fresh_process
       = Returned (n, buffer') s' /\
     st_trace s' = st_trace fresh_process ++
       [ EvLog "Receiving from the socket...";
         EvRecv 4 79 n d;
         if decide (n > 0)
         then log_line ("Received " +:+ fmt_d n +:+ " bytes: "
                        +:+ string_of_list_ascii (c_str buffer'))
         else EvLog "Client disconnected." ] /\
     st_undefined s' = st_undefined fresh_process) /\
  0 <= n <= MAX_BUFFER_SIZE - 1 /\
  length buffer' = 80%nat /\
  buffer' !! Z.to_nat n = Some NUL /\
  take (Z.to_nat n) buffer' = d /\
  (forall env' junk port s0 sd' len ret data,
     EvRecv sd' len ret data
       ∈ new_events s0 (final (nativeStartTcpServer env' junk port s0)) ->
     len = MAX_BUFFER_SIZE - 1 /\ ret <= MAX_BUFFER_SIZE - 1 /\
     (length data <= 79)%nat).
Proof.
  apply (receive_bounded_and_terminated (session []) (replicate 100 "x"%char) 4
           (uninitialised MAX_BUFFER_SIZE []) fresh_process).
  - repeat split; intros; reflexivity.
  - reflexivity.
Defined.

(** * The requested port *)

Lemma BindSocketToPort_first_call env sd port s :
  host_ok env ->
  exists s' ret rest,
    BindSocketToPort env sd port s = Returned tt s' /\
    st_trace s' = st_trace s ++
      log_line ("Binding to port " +:+ fmt_hu port +:+ ".") ::
      EvBind sd (mk_sockaddr_in AF_INET (htons port) (htonl INADDR_ANY)) ret :: rest.
Proof.
  intros Hhost. unfold BindSocketToPort, sys_bind.
  unfold bind at 1. rewrite LogMessage_ok by done.
  destruct (env_bind env) as [e|[]]; unfold_monad; state_fields.
  - rewrite decide_True by done.
    match goal with |- context [ThrowErrnoException env IOException ?e ?s0] =>
      destruct (ThrowErrnoException_quiet env IOException e s0)
        as (s' & -> & ((rest & Ht & _) & _) & _) end.
    exists s', (-1), rest. split; [done|]. rewrite Ht. state_fields.
    by rewrite <- !app_assoc.
  - rewrite decide_False by done.
    eexists _, 0, []. split; [reflexivity|]. state_fields.
    by rewrite <- !app_assoc.
Qed.

(** C9.  The port is a 32-bit integer; the bind uses its low 16 bits,
    the test that guards the discovery uses all 32.  For every port, each
    bind of the run asks for port [port mod 65536] of the wildcard
    address, and that is the port the log names; [getsockname] is called
    and the port found is reported only when the whole value is 0.  So
    when the server is started with a nonzero multiple of 65536, every
    bind it makes asks for port 0, which lets the kernel pick the port;
    it never calls [getsockname] and never logs the line that reports the
    port found.  When the host is in order and the socket is created,
    the bind is made: the run starts with the creation of the socket and
    the bind to the low 16 bits of the port. *)
Theorem multiple_of_65536_binds_without_discovery env junk port s :
  is_jint port ->
  let fd := lowest_unused (st_fds s) in
  let t := new_events s (final (nativeStartTcpServer env junk port s)) in
  let low := port mod 65536 in
  let address := mk_sockaddr_in AF_INET (htons low) (htonl INADDR_ANY) in
  0 <= low < 65536 /\
  (forall sd a ret, EvBind sd a ret ∈ t -> a = address) /\
  ((exists sd ret, EvGetsockname sd ret ∈ t) -> port = 0) /\
  ((exists message, EvLog message ∈ t /\ is_port_report message = true) -> port = 0) /\
  (host_ok env -> st_pending s = None -> env_socket env = Success tt ->
   exists ret rest,
     t = [ log_line "Constructing a new TCP socket...";
           EvSocket PF_INET SOCK_STREAM 0 fd;
           log_line ("Binding to port " +:+ pretty low +:+ ".");
           EvBind fd address ret ] ++ rest) /\
  (port <> 0 -> low = 0 ->
   (forall sd a ret, EvBind sd a ret ∈ t -> a = ephemeral_address) /\
   (forall sd ret, EvGetsockname sd ret ∉ t) /\
   (forall message, EvLog message ∈ t -> is_port_report message = false) /\
   (host_ok env -> st_pending s = None -> env_socket env = Success tt ->
    exists ret rest,
      t = [ EvLog "Constructing a new TCP socket...";
            EvSocket PF_INET SOCK_STREAM 0 fd;
            EvLog "Binding to port 0.";
            EvBind fd ephemeral_address ret ] ++ rest)).
Proof.
  intros Hjint fd t low address.
  assert (Hlow : 0 <= low < 65536) by (apply Z.mod_pos_bound; lia).
  assert (Hshort : to_ushort port = low).
  { unfold to_ushort, low. by change (2 ^ 16) with 65536. }
  assert (Hfmt : fmt_hu (to_ushort port) = pretty low).
  { unfold fmt_hu. rewrite Hshort. unfold to_ushort.
    change (2 ^ 16) with 65536. by rewrite Z.mod_small. }
  assert (Hbinds : forall sd a ret, EvBind sd a ret ∈ t -> a = address).
  { intros sd a ret Hin. apply server_events in Hin.
    simpl in Hin. by rewrite Hin, Hshort. }
  assert (Hstart : host_ok env -> st_pending s = None -> env_socket env = Success tt ->
            exists ret rest,
              t = [ log_line "Constructing a new TCP socket...";
                    EvSocket PF_INET SOCK_STREAM 0 fd;
                    log_line ("Binding to port " +:+ pretty low +:+ ".");
                    EvBind fd address ret ] ++ rest).
  { intros Hhost Hp Hsock. subst t. unfold nativeStartTcpServer.
    unfold bind at 1. rewrite NewTcpSocket_success by done. cbv zeta.
    fold fd. rewrite ?bind_assoc.
    unfold ExceptionOccurred at 1. unfold bind at 1, get at 1.
    unfold opened. state_fields. rewrite Hp.
    unfold server_body. rewrite ?bind_assoc.
    match goal with |- context [bind (BindSocketToPort env fd ?p) ?k ?s0] =>
      destruct (BindSocketToPort_first_call env fd p s0 Hhost)
        as (s1 & ret & rest & Hbind & Ht1);
      destruct (trace_after_prefix (BindSocketToPort env fd p) k s0 tt s1 Hbind)
        as (rest' & Hfinal) end.
    { intros _. emits_server; done. }
    exists ret, (rest ++ rest'). unfold new_events. rewrite Hfinal, Ht1.
    state_fields. rewrite <- !app_assoc, drop_app_length.
    by rewrite Hfmt, Hshort. }
  split_and!; [lia|lia|exact Hbinds| | |exact Hstart|].
  - intros (sd & ret & Hin). by apply server_events in Hin.
  - intros (message & Hin & Hreport). apply server_events in Hin.
    destruct Hin as [Hin|Hin]; [done|]. by rewrite Hin in Hreport.
  - intros Hne Hzero.
    assert (Haddress : address = ephemeral_address) by (unfold address; by rewrite Hzero).
    split_and!.
    + intros sd a ret Hin. rewrite <- Haddress. by eapply Hbinds.
    + intros sd ret Hin. apply server_events in Hin. done.
    + intros message Hin. apply server_events in Hin. by destruct Hin.
    + intros Hhost Hp Hsock.
      destruct (Hstart Hhost Hp Hsock) as (ret & rest & Ht).
      exists ret, rest. rewrite Ht, Haddress, Hzero. reflexivity.
Qed.

Lemma multiple_of_65536_binds_without_discovery_witness :
  let fd := lowest_unused (st_fds fresh_process) in
  let t := new_events fresh_process
             (final (nativeStartTcpServer (session []) [] 65536 fresh_process)) in
  let low := 65536 mod 65536 in
  let address := mk_sockaddr_in AF_INET (htons low) (htonl INADDR_ANY) in
  0 <= low < 65536 /\
  (forall sd a ret, EvBind sd a ret ∈ t -> a = address) /\
  ((exists sd ret, EvGetsockname sd ret ∈ t) -> 65536 = 0) /\
  ((exists message, EvLog message ∈ t /\ is_port_report message = true) -> 65536 = 0) /\
  (host_ok (session []) -> st_pending fresh_process = None ->
   env_socket (session []) = Success tt ->
   exists ret rest,
     t = [ log_line "Constructing a new TCP socket...";
           EvSocket PF_INET SOCK_STREAM 0 fd;
           log_line ("Binding to port " +:+ pretty low +:+ ".");
           EvBind fd address ret ] ++ rest) /\
  (65536 <> 0 -> low = 0 ->
   (forall sd a ret, EvBind sd a ret ∈ t -> a = ephemeral_address) /\
   (forall sd ret, EvGetsockname sd ret ∉ t) /\
   (forall message, EvLog message ∈ t -> is_port_report message = false) /\
   (host_ok (session []) -> st_pending fresh_process = None ->
    env_socket (session []) = Success tt ->
    exists ret rest,
      t = [ EvLog "Constructing a new TCP socket...";
            EvSocket PF_INET SOCK_STREAM 0 fd;
            EvLog "Binding to port 0.";
            EvBind fd ephemeral_address ret ] ++ rest)).
Proof.
  apply (multiple_of_65536_binds_without_discovery (session []) [] 65536 fresh_process).
  unfold is_jint; lia.
Defined.

(** The low 16 bits of two ports that do not fit them: 70000 is bound as
    4464, and -1 as 65535. *)
Example ports_beyond_16_bits :
  (exists s',
     nativeStartTcpServer (session [(Success [], Success 0)]) [] 70000 fresh_process
       = Returned tt s' /\
     filter (fun e => phase e = Some 2%nat) (st_trace s')
       = [EvBind 3 (mk_sockaddr_in AF_INET (htons 4464) (htonl INADDR_ANY)) 0] /\
     (EvLog "Binding to port 4464." ∈ st_trace s')) /\
  (exists s',
     nativeStartTcpServer (session [(Success [], Success 0)]) [] (-1) fresh_process
       = Returned tt s' /\
     filter (fun e => phase e = Some 2%nat) (st_trace s')
       = [EvBind 3 (mk_sockaddr_in AF_INET (htons 65535) (htonl INADDR_ANY)) 0] /\
     (EvLog "Binding to port 65535." ∈ st_trace s')).
Proof.
  split; (eexists; split; [vm_compute; reflexivity|]);
    (split; [reflexivity|compute_done]).
Qed.

(** * Release of the descriptors *)

(** C1 does not hold of the code.  The server is started on port 5000
    in a fresh process; every call succeeds, except that the address of
    the accepted peer cannot be converted to text.  The server returns
    with the listening descriptor 3 closed, but the accepted descriptor 4
    was never closed and is still open. *)
Theorem accepted_descriptor_left_open :
  exists s',
    nativeStartTcpServer unprintable_peer [] 5000 fresh_process = Returned tt s' /\
    st_trace s' =
      [ EvLog "Constructing a new TCP socket...";
        EvSocket PF_INET SOCK_STREAM 0 3;
        EvLog "Binding to port 5000.";
        EvBind 3 (bind_address 5000) 0;
        EvLog "Listening on socket with a backlog of 4 pending connections.";
        EvListen 3 4 0;
        EvLog "Waiting for a client connection...";
        EvAccept 3 4;
        EvThrow IOException "error 28";
        EvClose 3 ] /\
    (EvClose 4 ∉ st_trace s') /\
    (4 ∈ st_fds s') /\
    (3 ∉ st_fds s').
Proof.
  eexists. split; [vm_compute; reflexivity|].
  split_and!; [reflexivity | | |];
    compute_done.
Qed.

(** The accepted descriptor is left open in the same way when the host
    cannot allocate the line that reports the peer: the exception then
    pending is the host's, and the exit is taken as before. *)
Lemma no_memory_leaves_accepted_descriptor_open :
  exists s',
    nativeStartTcpServer out_of_memory [] 5000 fresh_process = Returned tt s' /\
    syscalls (st_trace s') =
      [ EvSocket PF_INET SOCK_STREAM 0 3;
        EvBind 3 (bind_address 5000) 0;
        EvListen 3 4 0;
        EvAccept 3 4;
        EvClose 3 ] /\
    st_pending s' = Some (OutOfMemoryError, EmptyString) /\
    (4 ∈ st_fds s').
Proof.
  eexists. split; [vm_compute; reflexivity|].
  split_and!; [reflexivity | reflexivity | compute_done].
Qed.

(** X1.  In every run in which the setup succeeds up to the accept and
    the address of the peer cannot be converted to text, the server
    returns with the [IOException] for that error pending, and the
    descriptor that [accept] returned, which was not open before the
    run, is open at the end: the exit taken after [AcceptOnSocket] jumps
    over the close of the accepted descriptor. *)
Lemma accepted_descriptor_leaks env junk port bound peer e text s :
  host_ok env ->
  st_pending s = None ->
  env_socket env = Success tt ->
  env_bind env = Success tt ->
  env_getsockname env = Success bound ->
  env_listen env = Success tt ->
  env_accept env = Success peer ->
  env_inet_ntop env = Failure e ->
  errno_message env e = Some text ->
  let fd := lowest_unused (st_fds s) in
  let client := lowest_unused ({[fd]} ∪ st_fds s) in
  exists s',
    nativeStartTcpServer env junk port s = Returned tt s' /\
    st_pending s' = Some (IOException, text) /\
    (client ∉ st_fds s) /\
    (client ∈ st_fds s').
Proof.
  intros Hhost Hp Hsock Hbind Hname Hlisten Haccept Hip Hmsg fd client.
  pose proof (lowest_unused_fresh ({[fd]} ∪ st_fds s)) as Hfresh. fold client in Hfresh.
  assert (Hrest : forall s0 : State,
    st_pending s0 = None -> st_fds s0 = {[fd]} ∪ st_fds s ->
    exists s1,
      (ListenOnSocket env fd 4;;
       exc <- ExceptionOccurred;;
       if exc then ret tt else
         clientSocket <- AcceptOnSocket env fd;;
         exc <- ExceptionOccurred;;
         if exc then ret tt else
           echo_loop env (env_peer env) clientSocket
             (uninitialised MAX_BUFFER_SIZE junk);;
           sys_close clientSocket) s0 = Returned tt s1 /\
      st_pending s1 = Some (IOException, text) /\
      st_fds s1 = {[client]} ∪ ({[fd]} ∪ st_fds s)).
  { intros s0 Hp0 Hf0.
    unfold bind at 1. rewrite ListenOnSocket_success by done.
    unfold ExceptionOccurred at 1. unfold bind at 1, get at 1.
    state_fields. rewrite Hp0.
    unfold AcceptOnSocket, LogAddress, sys_accept, new_descriptor, lib_inet_ntop.
    rewrite Haccept, Hip.
    unfold bind at 1. unfold bind at 1. rewrite LogMessage_ok by done.
    unfold_monad. state_fields.
    pose proof (lowest_unused_nonneg (st_fds s0)).
    rewrite decide_False by lia.
    match goal with |- context [ThrowErrnoException env IOException ?e0 ?st] =>
      destruct (ThrowErrnoException_ok env Hhost e0 text st Hmsg) as [e' ->] end.
    state_fields. eexists. split; [reflexivity|]. state_fields.
    split; [done|]. by rewrite Hf0. }
  assert (Hexit : forall s1 : State,
    st_pending s1 = Some (IOException, text) ->
    st_fds s1 = {[client]} ∪ ({[fd]} ∪ st_fds s) ->
    exists s',
      (if decide (fd > 0) then sys_close fd else ret tt) s1 = Returned tt s' /\
      st_pending s' = Some (IOException, text) /\ (client ∈ st_fds s')).
  { intros s1 Hp1 Hf1. destruct (decide (fd > 0)).
    - destruct (sys_close_spec fd s1) as (s' & -> & _ & Hf' & Hp').
      exists s'. split_and!; [done|congruence|].
      rewrite Hf', Hf1, elem_of_difference, elem_of_union, !elem_of_singleton.
      split; [by left|]. intros ->. apply Hfresh.
      by apply elem_of_union_l, elem_of_singleton.
    - exists s1. split_and!; [done|done|].
      rewrite Hf1. by apply elem_of_union_l, elem_of_singleton. }
  assert (Hnew : client ∉ st_fds s).
  { intros Hin. apply Hfresh. by apply elem_of_union_r. }
  unfold nativeStartTcpServer.
  unfold bind at 1. rewrite NewTcpSocket_success by done. cbv zeta.
  fold fd. cbv beta iota zeta; rewrite ?bind_assoc.
  unfold ExceptionOccurred at 1. unfold bind at 1, get at 1.
  unfold opened. state_fields. rewrite Hp.
  unfold server_body. cbv beta iota zeta; rewrite ?bind_assoc.
  unfold bind at 1. rewrite BindSocketToPort_success by done.
  cbv beta iota zeta; rewrite ?bind_assoc.
  unfold ExceptionOccurred at 1. unfold bind at 1, get at 1.
  state_fields. rewrite Hp.
  destruct (decide (0 = port)) as [Hport|Hport].
  - cbv beta iota zeta; rewrite ?bind_assoc.
    unfold bind at 1. rewrite (GetSocketPort_success env Hhost bound) by done.
    cbv beta iota zeta; rewrite ?bind_assoc.
    unfold ExceptionOccurred at 1. unfold bind at 1, get at 1.
    state_fields. rewrite Hp.
    unfold bind at 1.
    match goal with |- context [bind (ListenOnSocket env fd 4) _ ?s0] =>
      destruct (Hrest s0) as (s1 & -> & Hp1 & Hf1); [done|done|] end.
    destruct (Hexit s1 Hp1 Hf1) as (s' & -> & Hp' & Hin').
    by exists s'.
  - unfold bind at 1.
    match goal with |- context [bind (ListenOnSocket env fd 4) _ ?s0] =>
      destruct (Hrest s0) as (s1 & -> & Hp1 & Hf1); [done|done|] end.
    destruct (Hexit s1 Hp1 Hf1) as (s' & -> & Hp' & Hin').
    by exists s'.
Qed.

Lemma accepted_descriptor_leaks_witness :
  exists s',
    nativeStartTcpServer unprintable_peer [] 0 no_stdin = Returned tt s' /\
    st_pending s' = Some (IOException, "error 28"%string) /\
    (3 ∉ st_fds no_stdin) /\
    (3 ∈ st_fds s').
Proof.
  apply (accepted_descriptor_leaks unprintable_peer [] 0 loopback loopback ENOSPC
           "error 28" no_stdin).
  - repeat split; intros; reflexivity.
  - reflexivity.
  - reflexivity.
  - reflexivity.
  - reflexivity.
  - reflexivity.
  - reflexivity.
  - reflexivity.
  - reflexivity.
Defined.

(** The same happens to the listening descriptor when it is descriptor 0:
    the exit tests [serverSocket > 0], and the session ends with
    descriptor 0 still open. *)
Lemma listening_descriptor_zero_left_open :
  exists s',
    nativeStartTcpServer (session [(Success [], Success 0)]) [] 5000 no_stdin
      = Returned tt s' /\
    syscalls (st_trace s') =
      [ EvSocket PF_INET SOCK_STREAM 0 0;
        EvBind 0 (bind_address 5000) 0;
        EvListen 0 4 0;
        EvAccept 0 3;
        EvRecv 3 79 0 [];
        EvClose 3 ] /\
    0 ∈ st_fds s'.
Proof.
  eexists. split; [vm_compute; reflexivity|].
  split; [reflexivity|]. compute_done.
Qed.

(** C5 does not hold of the code.  The server is started on port 0 and
    every call succeeds, except that the address of the accepted peer
    cannot be converted to text.  The steps run in the order socket,
    bind, getsockname, listen, accept; the accept step leaves an
    exception pending and the echo loop is skipped; the descriptor of the
    listening socket is closed, but the descriptor that accept had
    returned is not: no close is made for it and it stays open. *)
Theorem cleanup_skips_accepted_descriptor :
  exists s',
    nativeStartTcpServer unprintable_peer [] 0 fresh_process = Returned tt s' /\
    syscalls (st_trace s') =
      [ EvSocket PF_INET SOCK_STREAM 0 3;
        EvBind 3 ephemeral_address 0;
        EvGetsockname 3 0;
        EvListen 3 4 0;
        EvAccept 3 4;
        EvClose 3 ] /\
    throws (st_trace s') = [EvThrow IOException "error 28"] /\
    st_pending s' = Some (IOException, "error 28"%string) /\
    (3 ∉ st_fds s') /\
    (4 ∈ st_fds s').
Proof.
  eexists. split; [vm_compute; reflexivity|].
  split_and!; [reflexivity | reflexivity | reflexivity | |];
    compute_done.
Qed.

(** * A whole session *)

(** X2.  When the setup succeeds, the peer sends chunks that are echoed
    and then disconnects, the server returns with nothing pending,
    having made exactly the calls of the setup, of the rounds and of the
    last receive, the close of the accepted descriptor and the exit;
    neither the accepted descriptor nor a listening descriptor above 0
    is open at the end. *)
Lemma server_session env junk port bound peer ip rounds w rest s :
  host_ok env ->
  st_pending s = None ->
  env_socket env = Success tt ->
  env_bind env = Success tt ->
  env_getsockname env = Success bound ->
  env_listen env = Success tt ->
  env_accept env = Success peer ->
  env_inet_ntop env = Success ip ->
  env_peer env = as_peer rounds ++ (Success [], w) :: rest ->
  Forall good_round rounds ->
  let fd := lowest_unused (st_fds s) in
  let client := lowest_unused ({[fd]} ∪ st_fds s) in
  exists s',
    nativeStartTcpServer env junk port s = Returned tt s' /\
    new_events s s' =
      setup_events port fd client bound peer ip ++
      rounds_events client rounds ++
      [ EvLog "Receiving from the socket...";
        EvRecv client 79 0 [];
        EvLog "Client disconnected.";
        EvClose client ] ++
      exit_events fd /\
    st_pending s' = None /\
    (client ∉ st_fds s') /\
    (fd > 0 -> fd ∉ st_fds s').
Proof.
  intros Hhost Hp Hsock Hbind Hname Hlisten Haccept Hip Hpeer Hgood fd client.
  destruct (server_reaches_echo_loop env Hhost junk port bound peer ip s)
    as (Hb & Hp0 & ->); [done..|].
  fold fd client. rewrite Hpeer.
  set (s0 := set_fds _ _) in *.
  unfold bind at 1.
  destruct (echo_loop_rounds env Hhost rounds ((Success [], w) :: rest) client
              (uninitialised MAX_BUFFER_SIZE junk) s0)
    as (buffer1 & s1 & Hb1 & (Ht1 & Hf1 & Hp1 & _) & ->); [done..|].
  destruct (echo_loop_eof env Hhost w rest client buffer1 s1)
    as (s2 & -> & (Ht2 & Hf2 & Hp2 & _)); [done|congruence|].
  unfold bind at 1.
  destruct (sys_close_spec client s2) as (s3 & -> & Ht3 & Hf3 & Hp3).
  assert (Htrace : st_trace s3 = st_trace s ++
            setup_events port fd client bound peer ip ++
            rounds_events client rounds ++
            [ EvLog "Receiving from the socket..."; EvRecv client 79 0 [];
              EvLog "Client disconnected."; EvClose client ]).
  { rewrite Ht3, Ht2, Ht1. unfold s0. state_fields.
    rewrite <- !app_assoc. reflexivity. }
  assert (Hclient : client ∉ st_fds s3).
  { rewrite Hf3, elem_of_difference, elem_of_singleton. tauto. }
  unfold exit_events. destruct (decide (fd > 0)) as [Hfd|Hfd].
  - destruct (sys_close_spec fd s3) as (s4 & -> & Ht4 & Hf4 & Hp4).
    exists s4. split; [done|]. split_and!.
    + unfold new_events. rewrite Ht4, Htrace, <- ?app_assoc.
      by rewrite drop_app_length.
    + congruence.
    + rewrite Hf4, elem_of_difference. tauto.
    + intros _. rewrite Hf4, elem_of_difference, elem_of_singleton. tauto.
  - exists s3. split; [done|]. split_and!.
    + unfold new_events. rewrite Htrace, drop_app_length.
      by rewrite <- ?app_assoc, ?app_nil_r.
    + congruence.
    + done.
    + done.
Qed.

Lemma server_session_witness :
  exists s',
    nativeStartTcpServer
      (session [(Success ping, Success 4); (Success hello, Success 5);
                (Success [], Success 0)])
      [] 0 fresh_process = Returned tt s' /\
    new_events fresh_process s' =
      setup_events 0 3 4 loopback loopback "127.0.0.1" ++
      rounds_events 4 [(ping, 4); (hello, 5)] ++
      [ EvLog "Receiving from the socket...";
        EvRecv 4 79 0 [];
        EvLog "Client disconnected.";
        EvClose 4 ] ++
      [EvClose 3] /\
    st_pending s' = None /\
    (4 ∉ st_fds s') /\
    (3 > 0 -> 3 ∉ st_fds s').
Proof.
  apply (server_session
           (session [(Success ping, Success 4); (Success hello, Success 5);
                     (Success [], Success 0)])
           [] 0 loopback loopback "127.0.0.1" [(ping, 4); (hello, 5)] (Success 0) []
           fresh_process).
  - repeat split; intros; reflexivity.
  - reflexivity.
  - reflexivity.
  - reflexivity.
  - reflexivity.
  - reflexivity.
  - reflexivity.
  - reflexivity.
  - reflexivity.
  - repeat constructor; simpl; lia.
Defined.

(** The session of the specification: the server is started on port
    5000, the peer sends "ping" and disconnects. *)
Example ping_session :
  exists s',
    nativeStartTcpServer (session [(Success ping, Success 4); (Success [], Success 0)])
      [] 5000 fresh_process = Returned tt s' /\
    st_trace s' =
      [ EvLog "Constructing a new TCP socket...";
        EvSocket PF_INET SOCK_STREAM 0 3;
        EvLog "Binding to port 5000.";
        EvBind 3 (bind_address 5000) 0;
        EvLog "Listening on socket with a backlog of 4 pending connections.";
        EvListen 3 4 0;
        EvLog "Waiting for a client connection...";
        EvAccept 3 4;
        EvLog "Client connection from  127.0.0.1:40000.";
        EvLog "Receiving from the socket...";
        EvRecv 4 79 4 ping;
        EvLog "Received 4 bytes: ping";
        EvLog "Sending to the socket...";
        EvSend 4 ping 4;
        EvLog "Sent 4 bytes: ping";
        EvLog "Receiving from the socket...";
        EvRecv 4 79 0 [];
        EvLog "Client disconnected.";
        EvClose 4;
        EvClose 3 ] /\
    (3 ∉ st_fds s') /\
    (4 ∉ st_fds s') /\
    st_pending s' = None.
Proof.
  eexists. split; [vm_compute; reflexivity|].
  split_and!; [reflexivity | compute_done | compute_done | reflexivity].
Qed.

(** * The order of the steps and the test after each, for any environment *)

Lemma follows_mono p p' q : (p' <= p)%nat -> follows p q -> follows p' q.
Proof. unfold follows. lia. Qed.

Lemma lifecycle_mono p p' b t :
  (p' <= p)%nat -> lifecycle p b t -> lifecycle p' b t.
Proof.
  revert p p' b. induction t as [|e t IH]; intros p p' b Hle; simpl; [done|].
  destruct (phase e) as [q|].
  - intros (Hf & Hs & Ht). split_and!; [by eapply follows_mono|done|done].
  - by apply IH.
Qed.

Lemma last_phase_mono p p' t :
  (p' <= p)%nat -> (last_phase p' t <= last_phase p t)%nat.
Proof.
  revert p p'. induction t as [|e t IH]; intros p p' Hle; simpl; [done|].
  destruct (phase e) as [q|]; simpl; [done|by apply IH].
Qed.

Lemma last_phase_ge p b t : lifecycle p b t -> (p <= last_phase p t)%nat.
Proof.
  revert p b. induction t as [|e t IH]; intros p b; simpl; [done|].
  destruct (phase e) as [q|]; simpl.
  - intros (Hf & _ & Ht). apply IH in Ht. unfold follows in Hf. lia.
  - apply IH.
Qed.

Lemma lifecycle_app p b t1 t2 :
  lifecycle p b t1 ->
  lifecycle (last_phase p t1) (b || any_failed t1) t2 ->
  lifecycle p b (t1 ++ t2).
Proof.
  revert p b. induction t1 as [|e t1 IH]; intros p b; simpl.
  - by rewrite orb_false_r.
  - rewrite orb_assoc. destruct (phase e) as [q|]; simpl.
    + intros (Hf & Hs & Ht) H2. split_and!; [done|done|by apply IH].
    + intros Ht H2. by apply IH.
Qed.

Lemma last_phase_app p t1 t2 :
  last_phase p (t1 ++ t2) = last_phase (last_phase p t1) t2.
Proof.
  revert p. induction t1 as [|e t1 IH]; intros p; simpl; [done|]. apply IH.
Qed.

Lemma any_failed_app t1 t2 : any_failed (t1 ++ t2) = any_failed t1 || any_failed t2.
Proof. apply existsb_app. Qed.

(** Events of the host do not move the life cycle. *)
Lemma lifecycle_host p t :
  Forall (fun e => phase e = None) t ->
  (forall b, lifecycle p b t) /\ last_phase p t = p.
Proof.
  induction 1 as [|e t He _ [IH1 IH2]]; simpl; [done|].
  rewrite He. simpl. split; [intros b; apply IH1|done].
Qed.

(** Closes may come at any point. *)
Lemma lifecycle_closes p t :
  (p <= 7)%nat -> Forall (fun e => exists sd, e = EvClose sd) t ->
  (forall b, lifecycle p b t) /\ (last_phase p t <= 7)%nat /\ any_failed t = false.
Proof.
  intros Hp Ht. revert p Hp.
  induction Ht as [|e t [sd ->] _ IH]; intros p Hp; simpl; [done|].
  destruct (IH 7%nat) as (IH1 & IH2 & IH3); [done|].
  split_and!; [|done|done].
  intros b. split_and!; [unfold follows; lia|done|apply IH1].
Qed.

(** One call of step [q], between events of the host. *)
Lemma step_call {A} p q (m : M A) :
  follows p q ->
  (forall s, exists s' before e rest,
     final (m s) = s' /\
     st_trace s' = st_trace s ++ before ++ e :: rest /\
     Forall (fun e => phase e = None /\ failed e = false) before /\
     phase e = Some q /\
     Forall (fun e => phase e = None) rest /\
     (failed e || any_failed rest = true -> st_pending s' <> None)) ->
  step p m q.
Proof.
  intros Hf Hm s.
  destruct (Hm s) as (s' & before & e & rest & -> & Ht & Hb & He & Hr & Hp).
  exists (before ++ e :: rest). split; [done|].
  assert (Hb' : Forall (fun e => phase e = None) before).
  { eapply Forall_impl; [exact Hb|]. by intros ? [? _]. }
  assert (Hnf : any_failed before = false).
  { clear -Hb. induction Hb as [|x t [_ Hx] _ IH]; simpl; [done|]. by rewrite Hx. }
  destruct (lifecycle_host p before Hb') as [Hl1 Hl2].
  destruct (lifecycle_host q rest Hr) as [Hl3 Hl4].
  split_and!.
  - apply lifecycle_app; [apply Hl1|]. rewrite Hl2, Hnf. simpl. rewrite He.
    split_and!; [done|done|apply Hl3].
  - rewrite last_phase_app, Hl2. simpl. rewrite He. simpl. by rewrite Hl4.
  - rewrite any_failed_app, Hnf. simpl. exact Hp.
Qed.

(** A step, the test of the pending exception, and the next step. *)
Lemma step_checked {A} (c : A -> bool) p q r (m : M A) (k : A -> M unit) :
  step p m q ->
  (q <= r)%nat ->
  (forall a, step q (k a) r) ->
  step p (bind m (fun a =>
            bind ExceptionOccurred (fun exc =>
              if c a || exc then ret tt else k a))) r.
Proof.
  intros Hm Hqr Hk s. destruct (Hm s) as (evs1 & Ht1 & Hl1 & Hq1 & Hp1).
  unfold bind, ExceptionOccurred, get, ret.
  destruct (m s) as [a s1|s1]; simpl in Ht1, Hp1.
  - destruct (st_pending s1) as [exn|] eqn:Hpend.
    + rewrite orb_true_r. exists evs1. simpl. rewrite Hpend.
      split_and!; [done|done|lia|done].
    + rewrite orb_false_r. destruct (c a).
      * exists evs1. simpl. split_and!; [done|done|lia|].
        intros H. by destruct (Hp1 H).
      * destruct (Hk a s1) as (evs2 & Ht2 & Hl2 & Hq2 & Hp2).
        assert (Hnf : any_failed evs1 = false).
        { destruct (any_failed evs1); [|done]. by destruct Hp1. }
        exists (evs1 ++ evs2). split_and!.
        -- by rewrite Ht2, Ht1, app_assoc.
        -- apply lifecycle_app; [done|]. rewrite Hnf. simpl.
           by eapply lifecycle_mono.
        -- rewrite last_phase_app.
           etrans; [apply (last_phase_mono q); lia|done].
        -- rewrite any_failed_app, Hnf. simpl. done.
  - exists evs1. simpl. split_and!; [done|done|lia|done].
Qed.

(** A step and then closes, whatever the step left pending. *)
Lemma step_then_closes {A B} p q (m : M A) (k : A -> M B) :
  step p m q ->
  (q <= 7)%nat ->
  (forall a s, exists evs,
     st_trace (final (k a s)) = st_trace s ++ evs /\
     Forall (fun e => exists sd, e = EvClose sd) evs /\
     st_pending (final (k a s)) = st_pending s) ->
  step p (bind m k) 7.
Proof.
  intros Hm Hq Hk s. destruct (Hm s) as (evs1 & Ht1 & Hl1 & Hq1 & Hp1).
  unfold bind. destruct (m s) as [a s1|s1]; simpl in Ht1, Hp1.
  - destruct (Hk a s1) as (evs2 & Ht2 & Hc2 & Hp2).
    destruct (lifecycle_closes (last_phase p evs1) evs2) as (Hl2 & Hq2 & Hf2);
      [lia|done|].
    exists (evs1 ++ evs2). split_and!.
    + by rewrite Ht2, Ht1, app_assoc.
    + apply lifecycle_app; [done|apply Hl2].
    + by rewrite last_phase_app.
    + rewrite any_failed_app, Hf2, orb_false_r, Hp2. done.
  - exists evs1. simpl. split_and!; [done|done|lia|done].
Qed.

Lemma LogMessage_logs env text s :
  exists s' evs,
    LogMessage env text s = Returned tt s' /\
    st_trace s' = st_trace s ++ evs /\
    Forall (fun e => phase e = None /\ failed e = false) evs /\
    (st_pending s <> None -> st_pending s' <> None).
Proof.
  unfold LogMessage, GetMethodID, NewStringUTF, CallVoidMethod, host_raise.
  unfold_monad.
  destruct (st_methodID s) eqn:Hc; cbn; rewrite ?Hc; cbn;
    [| destruct (host_logMessage (env_host env)); cbn ];
    try destruct (host_NewStringUTF (env_host env) _); cbn;
    first [ by eexists _, [log_line text]; split_and!; [| |repeat constructor|]
          | by eexists _, []; split_and!; [|rewrite app_nil_r| |] ].
Qed.

Lemma ThrowErrnoException_raises env className e s :
  exists s' evs,
    ThrowErrnoException env className e s = Returned tt s' /\
    st_trace s' = st_trace s ++ evs /\
    Forall (fun e => phase e = None) evs /\
    st_pending s' <> None.
Proof.
  unfold ThrowErrnoException, ThrowException, FindClass, ThrowNew,
    lib_strerror_r, host_raise.
  unfold_monad.
  destruct (env_strerror_r env e) as [e1|t1]; cbn.
  - rewrite decide_True by done. cbn.
    destruct (env_strerror_r env e1) as [e2|t2]; cbn;
      destruct (host_FindClass (env_host env) className); cbn;
      first [ by eexists _, [EvThrow _ _]; split_and!; [| |repeat constructor|]
            | by eexists _, []; split_and!; [|rewrite app_nil_r| |] ].
  - rewrite decide_False by done. cbn.
    destruct (host_FindClass (env_host env) className); cbn;
      first [ by eexists _, [EvThrow _ _]; split_and!; [| |repeat constructor|]
            | by eexists _, []; split_and!; [|rewrite app_nil_r| |] ].
Qed.

Lemma Forall_host_events (evs : list event) :
  Forall (fun e => phase e = None /\ failed e = false) evs ->
  Forall (fun e => phase e = None) evs.
Proof. intros H. eapply Forall_impl; [exact H|]. by intros ? [? _]. Qed.

Lemma any_failed_logs (evs : list event) :
  Forall (fun e => phase e = None /\ failed e = false) evs ->
  any_failed evs = false.
Proof.
  induction 1 as [|x t [_ Hx] _ IH]; simpl; [done|]. by rewrite Hx.
Qed.

Section Steps.

Variable env : Env.

Lemma step_NewTcpSocket p : (p < 1)%nat -> step p (NewTcpSocket env) 1.
Proof.
  intros Hp. apply step_call; [left; lia|]. intros s.
  unfold NewTcpSocket. unfold bind at 1.
  destruct (LogMessage_logs env "Constructing a new TCP socket..." s)
    as (s0 & logs & -> & Ht0 & Hl0 & _).
  unfold sys_socket, new_descriptor.
  destruct (env_socket env) as [e|[]]; unfold_monad; cbn.
  - rewrite decide_True by done.
    match goal with |- context [ThrowErrnoException env IOException ?e0 ?s1] =>
      destruct (ThrowErrnoException_raises env IOException e0 s1)
        as (s2 & thr & -> & Ht2 & Hthr & Hpend) end.
    exists s2, logs, (EvSocket PF_INET SOCK_STREAM 0 (-1)), thr.
    split; [done|]. rewrite Ht2. cbn. rewrite Ht0, <- !app_assoc. done.
  - pose proof (lowest_unused_nonneg (st_fds s0)).
    rewrite decide_False by lia.
    eexists _, logs, (EvSocket PF_INET SOCK_STREAM 0 (lowest_unused (st_fds s0))), [].
    split; [reflexivity|]. cbn. rewrite Ht0, <- !app_assoc.
    rewrite bool_decide_eq_false_2 by lia. done.
Qed.

Ltac raise_errno s2 thr Ht2 Hthr Hpend :=
  match goal with |- context [ThrowErrnoException env IOException ?e0 ?s1] =>
    destruct (ThrowErrnoException_raises env IOException e0 s1)
      as (s2 & thr & -> & Ht2 & Hthr & Hpend) end.

Ltac log_line_of s2 logs2 Ht2 Hl2 :=
  match goal with |- context [LogMessage env ?text ?s1] =>
    destruct (LogMessage_logs env text s1) as (s2 & logs2 & -> & Ht2 & Hl2 & _) end.

Lemma step_BindSocketToPort p sd port :
  (p < 2)%nat -> step p (BindSocketToPort env sd port) 2.
Proof.
  intros Hp. apply step_call; [left; lia|]. intros s.
  unfold BindSocketToPort. unfold bind at 1.
  log_line_of s0 logs Ht0 Hl0.
  unfold sys_bind.
  destruct (env_bind env) as [e|[]]; unfold_monad; cbn -[LogMessage ThrowErrnoException].
  - rewrite decide_True by done.
    raise_errno s2 thr Ht2 Hthr Hpend.
    eexists s2, logs, (EvBind _ _ (-1)), thr.
    split; [done|]. rewrite Ht2. cbn. rewrite Ht0, <- !app_assoc. done.
  - rewrite decide_False by done.
    eexists _, logs, (EvBind _ _ 0), [].
    split; [reflexivity|]. cbn. rewrite Ht0, <- !app_assoc. done.
Qed.

Lemma step_GetSocketPort p sd :
  (p < 3)%nat -> step p (GetSocketPort env sd) 3.
Proof.
  intros Hp. apply step_call; [left; lia|]. intros s.
  unfold GetSocketPort, sys_getsockname.
  destruct (env_getsockname env) as [e|a]; unfold_monad; cbn -[LogMessage ThrowErrnoException].
  - rewrite decide_True by done.
    raise_errno s2 thr Ht2 Hthr Hpend.
    eexists s2, [], (EvGetsockname _ (-1)), thr.
    split; [done|]. rewrite Ht2. cbn. rewrite <- !app_assoc. done.
  - rewrite decide_False by done.
    log_line_of s2 logs2 Ht2 Hl2.
    eexists s2, [], (EvGetsockname _ 0), logs2.
    split; [done|]. rewrite Ht2. cbn. rewrite <- !app_assoc.
    rewrite (any_failed_logs _ Hl2).
    split_and!; [done|done|done|by apply Forall_host_events|done].
Qed.

Lemma step_ListenOnSocket p sd backlog :
  (p < 4)%nat -> step p (ListenOnSocket env sd backlog) 4.
Proof.
  intros Hp. apply step_call; [left; lia|]. intros s.
  unfold ListenOnSocket. unfold bind at 1.
  log_line_of s0 logs Ht0 Hl0.
  unfold sys_listen.
  destruct (env_listen env) as [e|[]]; unfold_monad; cbn -[LogMessage ThrowErrnoException].
  - rewrite decide_True by done.
    raise_errno s2 thr Ht2 Hthr Hpend.
    eexists s2, logs, (EvListen _ _ (-1)), thr.
    split; [done|]. rewrite Ht2. cbn. rewrite Ht0, <- !app_assoc. done.
  - rewrite decide_False by done.
    eexists _, logs, (EvListen _ _ 0), [].
    split; [reflexivity|]. cbn. rewrite Ht0, <- !app_assoc. done.
Qed.

Lemma step_AcceptOnSocket p sd :
  (p < 5)%nat -> step p (AcceptOnSocket env sd) 5.
Proof.
  intros Hp. apply step_call; [left; lia|]. intros s.
  unfold AcceptOnSocket. unfold bind at 1.
  log_line_of s0 logs Ht0 Hl0.
  unfold sys_accept, new_descriptor, LogAddress, lib_inet_ntop.
  destruct (env_accept env) as [e|a]; unfold_monad; cbn -[LogMessage ThrowErrnoException].
  - rewrite decide_True by done.
    raise_errno s2 thr Ht2 Hthr Hpend.
    eexists s2, logs, (EvAccept _ (-1)), thr.
    split; [done|]. rewrite Ht2. cbn. rewrite Ht0, <- !app_assoc. done.
  - pose proof (lowest_unused_nonneg (st_fds s0)).
    rewrite decide_False by lia.
    destruct (env_inet_ntop env) as [e|ip]; cbn -[LogMessage ThrowErrnoException].
    + raise_errno s2 thr Ht2 Hthr Hpend.
      eexists s2, logs, (EvAccept _ _), thr.
      split; [done|]. rewrite Ht2. cbn. rewrite Ht0, <- !app_assoc. done.
    + log_line_of s2 logs2 Ht2 Hl2.
      eexists s2, logs, (EvAccept _ _), logs2.
      split; [done|].
      split; [rewrite Ht2; cbn; rewrite Ht0, <- !app_assoc; reflexivity|].
      cbn. rewrite bool_decide_eq_false_2 by lia.
      rewrite (any_failed_logs _ Hl2).
      split_and!; [done|done|by apply Forall_host_events|done].
Qed.

Lemma step_ReceiveFromSocket p r sd buffer bufferSize :
  (p <= 6)%nat -> step p (ReceiveFromSocket env r sd buffer bufferSize) 6.
Proof.
  intros Hp. apply step_call; [unfold follows; lia|]. intros s.
  unfold ReceiveFromSocket. unfold bind at 1.
  log_line_of s0 logs Ht0 Hl0.
  unfold sys_recv, store, read_c_str.
  destruct r as [e|bytes]; unfold_monad; cbn -[LogMessage ThrowErrnoException].
  - rewrite decide_True by done.
    raise_errno s2 thr Ht2 Hthr Hpend.
    eexists s2, logs, (EvRecv _ _ (-1) _), thr.
    split; [done|]. rewrite Ht2. cbn. rewrite Ht0, <- !app_assoc. done.
  - repeat (destruct (decide _); cbn -[LogMessage ThrowErrnoException]);
      try lia;
      log_line_of s2 logs2 Ht2 Hl2;
      (eexists s2, logs, (EvRecv _ _ _ _), logs2;
       split; [done|];
       split; [rewrite Ht2; cbn; rewrite Ht0, <- !app_assoc; reflexivity|];
       cbn; rewrite bool_decide_eq_false_2 by lia;
       rewrite (any_failed_logs _ Hl2);
       split_and!; [done|done|by apply Forall_host_events|done]).
Qed.

Lemma step_SendToSocket p r sd buffer bufferSize :
  (p <= 6)%nat -> step p (SendToSocket env r sd buffer bufferSize) 6.
Proof.
  intros Hp. apply step_call; [unfold follows; lia|]. intros s.
  unfold SendToSocket. unfold bind at 1.
  log_line_of s0 logs Ht0 Hl0.
  unfold sys_send, read_c_str.
  destruct r as [e|room]; unfold_monad; cbn -[LogMessage ThrowErrnoException].
  - destruct (decide (bufferSize <= _)); cbn -[LogMessage ThrowErrnoException];
      rewrite decide_True by done;
      raise_errno s2 thr Ht2 Hthr Hpend;
      (eexists s2, logs, (EvSend _ _ (-1)), thr;
       split; [done|]; rewrite Ht2; cbn; rewrite Ht0, <- !app_assoc; done).
  - repeat (destruct (decide _); cbn -[LogMessage ThrowErrnoException]);
      try lia;
      log_line_of s2 logs2 Ht2 Hl2;
      (eexists s2, logs, (EvSend _ _ _), logs2;
       split; [done|];
       split; [rewrite Ht2; cbn; rewrite Ht0, <- !app_assoc; reflexivity|];
       cbn; rewrite bool_decide_eq_false_2 by lia;
       rewrite (any_failed_logs _ Hl2);
       split_and!; [done|done|by apply Forall_host_events|done]).
Qed.

End Steps.

Lemma step_ext {A} p q (m m' : M A) :
  (forall s, m s = m' s) -> step p m q -> step p m' q.
Proof. intros Heq Hm s. rewrite <- Heq. apply Hm. Qed.

Lemma closes_sys_close sd s :
  exists evs,
    st_trace (final (sys_close sd s)) = st_trace s ++ evs /\
    Forall (fun e => exists sd, e = EvClose sd) evs /\
    st_pending (final (sys_close sd s)) = st_pending s.
Proof.
  destruct (sys_close_spec sd s) as (s' & -> & Ht & _ & Hp).
  exists [EvClose sd]. simpl. split_and!; [done| |done].
  constructor; [by exists sd|done].
Qed.

Section Lifecycle.

Variable env : Env.

Lemma step_echo_loop peer sd buffer p :
  (p <= 6)%nat -> step p (echo_loop env peer sd buffer) 6.
Proof.
  revert buffer p. induction peer as [|[r w] peer IH]; intros buffer p Hp.
  - cbn [echo_loop]. intros s. unfold bind.
    destruct (LogMessage_logs env "Receiving from the socket..." s)
      as (s' & evs & -> & Ht & Hlogs & _).
    exists evs. simpl.
    destruct (lifecycle_host p evs (Forall_host_events _ Hlogs)) as [Hl Hlast].
    split_and!; [done|apply Hl|lia|].
    by rewrite (any_failed_logs _ Hlogs).
  - cbn [echo_loop].
    eapply (step_ext _ _
      (bind (ReceiveFromSocket env r sd buffer MAX_BUFFER_SIZE) (fun x =>
         bind ExceptionOccurred (fun exc =>
           if bool_decide (0 = (fst x)) || exc then ret tt else
             bind (SendToSocket env w sd (snd x) (to_size_t (fst x))) (fun sentSize =>
               bind ExceptionOccurred (fun exc =>
                 if bool_decide (0 = sentSize) || exc then ret tt
                 else echo_loop env peer sd (snd x))))))).
    { intros s. unfold bind at 1 5.
      by destruct (ReceiveFromSocket env r sd buffer MAX_BUFFER_SIZE s) as [[n b] s1|s1]. }
    apply (step_checked (fun x => bool_decide (0 = (fst x))) p 6 6);
      [apply step_ReceiveFromSocket; lia|done|].
    intros [n b]. cbn [fst snd].
    apply (step_checked (fun m => bool_decide (0 = m)) 6 6 6);
      [apply step_SendToSocket; lia|done|].
    intros _. by apply IH.
Qed.

(** The part of the server from [listen] on. *)
Lemma step_listen_accept_echo junk fd p :
  (p < 4)%nat ->
  step p (ListenOnSocket env fd 4;;
          exc <- ExceptionOccurred;;
          if exc then ret tt else
            clientSocket <- AcceptOnSocket env fd;;
            exc <- ExceptionOccurred;;
            if exc then ret tt else
              echo_loop env (env_peer env) clientSocket
                (uninitialised MAX_BUFFER_SIZE junk);;
              sys_close clientSocket) 7.
Proof.
  intros Hp.
  apply (step_checked (fun _ => false) p 4 7);
    [apply step_ListenOnSocket; lia|lia|].
  intros _.
  apply (step_checked (fun _ => false) 4 5 7);
    [apply step_AcceptOnSocket; lia|lia|].
  intros clientSocket.
  apply (step_then_closes 5 6); [apply step_echo_loop; lia|lia|].
  intros _ s. apply closes_sys_close.
Qed.

Lemma step_server_body junk port fd :
  step 1 (server_body env junk port fd) 7.
Proof.
  unfold server_body. cbv zeta.
  apply (step_checked (fun _ => false) 1 2 7);
    [apply step_BindSocketToPort; lia|lia|].
  intros _. destruct (decide (0 = port)).
  - apply (step_checked (fun _ => false) 2 3 7);
      [apply step_GetSocketPort; lia|lia|].
    intros _. apply step_listen_accept_echo. lia.
  - apply step_listen_accept_echo. lia.
Qed.

Lemma step_nativeStartTcpServer junk port :
  step 0 (nativeStartTcpServer env junk port) 7.
Proof.
  unfold nativeStartTcpServer.
  eapply (step_ext _ _
    (bind (bind (NewTcpSocket env) (fun serverSocket =>
             bind ExceptionOccurred (fun exc =>
               if false || exc then ret serverSocket
               else bind (server_body env junk port serverSocket)
                         (fun _ => ret serverSocket))))
          (fun serverSocket =>
             if decide (serverSocket > 0) then sys_close serverSocket else ret tt))).
  { intros s. unfold bind, ExceptionOccurred, get, ret.
    destruct (NewTcpSocket env s) as [fd s1|s1]; [|done]. cbn.
    destruct (st_pending s1); [done|].
    by destruct (server_body env junk port fd s1). }
  apply (step_then_closes 0 7); [|lia|].
  - intros s. destruct (step_NewTcpSocket env 0 ltac:(lia) s)
      as (evs1 & Ht1 & Hl1 & Hq1 & Hp1).
    unfold bind, ExceptionOccurred, get, ret.
    destruct (NewTcpSocket env s) as [fd s1|s1]; simpl in Ht1, Hp1.
    + cbn. destruct (st_pending s1) as [exn|] eqn:Hpend.
      * exists evs1. simpl. rewrite Hpend. split_and!; [done|done|lia|done].
      * destruct (step_server_body junk port fd s1) as (evs2 & Ht2 & Hl2 & Hq2 & Hp2).
        assert (Hnf : any_failed evs1 = false).
        { destruct (any_failed evs1); [|done]. by destruct Hp1. }
        destruct (server_body env junk port fd s1) as [[] s2|s2]; simpl in *;
          (exists (evs1 ++ evs2); split_and!;
           [ by rewrite Ht2, Ht1, app_assoc
           | apply lifecycle_app; [done|]; rewrite Hnf; simpl;
             by eapply lifecycle_mono
           | rewrite last_phase_app;
             etrans; [apply (last_phase_mono 1); lia|done]
           | by rewrite any_failed_app, Hnf ]).
    + exists evs1. simpl. split_and!; [done|done|lia|done].
  - intros fd s. destruct (decide (fd > 0)).
    + apply closes_sys_close.
    + exists []. simpl. by rewrite app_nil_r.
Qed.

End Lifecycle.

(** X3.  In every run of the server, in any environment, the calls come
    in the order socket, bind, getsockname, listen, accept, then the calls
    of the echo loop, then the closes, each of the first five at most
    once; and after the first call that returned -1, or the first
    exception thrown, the only calls are closes. *)
Theorem lifecycle_in_order_and_gated env junk port s :
  lifecycle 0 false (new_events s (final (nativeStartTcpServer env junk port s))).
Proof.
  destruct (step_nativeStartTcpServer env junk port s) as (evs & Ht & Hl & _).
  unfold new_events. by rewrite Ht, drop_app_length.
Qed.

Lemma step_nativeStartTcpClient env ip port message :
  step 0 (nativeStartTcpClient env ip port message) 7.
Proof.
  unfold nativeStartTcpClient.
  apply (step_checked (fun _ => false) 0 1 7); [apply step_NewTcpSocket; lia|lia|].
  intros c s. destruct (sys_close_spec c s) as (s' & -> & Ht & _ & Hp).
  exists [EvClose c]. simpl. split_and!; try done; unfold follows; lia.
Qed.

(** X4.  No failure is dropped.  In every run of the server or of the
    client, in any environment, when a call returned -1 or an exception
    was thrown, an exception is pending when the run ends, for Java to
    see when the native method returns. *)
Theorem failures_leave_an_exception_pending env junk ip port message s :
  let server := final (nativeStartTcpServer env junk port s) in
  let client := final (nativeStartTcpClient env ip port message s) in
  (any_failed (new_events s server) = true -> st_pending server <> None) /\
  (any_failed (new_events s client) = true -> st_pending client <> None).
Proof.
  intros server client. split.
  - destruct (step_nativeStartTcpServer env junk port s) as (evs & Ht & _ & _ & Hp).
    unfold server, new_events. by rewrite Ht, drop_app_length.
  - destruct (step_nativeStartTcpClient env ip port message s) as (evs & Ht & _ & _ & Hp).
    unfold client, new_events. by rewrite Ht, drop_app_length.
Qed.

(** * Failures of the host and of the kernel *)

Lemma new_events_app s s' evs :
  st_trace s' = st_trace s ++ evs -> new_events s s' = evs.
Proof. intros Ht. unfold new_events. by rewrite Ht, drop_app_length. Qed.

Lemma vsnprintf_length size text :
  (String.length (vsnprintf size text) <= Z.to_nat (size - 1))%nat.
Proof.
  unfold vsnprintf. generalize (Z.to_nat (size - 1)) as n.
  induction text as [|c text IH]; intros [|n]; simpl; try lia.
  specialize (IH n). lia.
Qed.

(** ** The exception for an error number *)

(** X5.  [ThrowErrnoException] always returns and opens or closes
    nothing.  The message it throws is the text [strerror_r] has for the
    error number, cut to the 255 characters of the buffer; when
    [strerror_r] fails on it, the text for the [errno] that failure
    left; when that fails as well, the buffer is read without having
    been written.  When the class of the exception is not found, nothing
    is thrown and the exception pending is the one of the failed
    lookup. *)
Theorem ThrowErrnoException_message env className errnum s :
  exists s',
    ThrowErrnoException env className errnum s = Returned tt s' /\
    st_fds s' = st_fds s /\
    match env_strerror_r env errnum with
    | Success text =>
        raises env className (vsnprintf MAX_LOG_MESSAGE_LENGTH text) s s' /\
        st_errno s' = st_errno s
    | Failure e =>
        match env_strerror_r env e with
        | Success text =>
            raises env className (vsnprintf MAX_LOG_MESSAGE_LENGTH text) s s' /\
            st_errno s' = e
        | Failure e' => st_undefined s' = true /\ st_errno s' = e'
        end
    end.
Proof.
  unfold ThrowErrnoException, ThrowException, FindClass, ThrowNew,
    lib_strerror_r, host_raise, raises.
  unfold_monad.
  destruct (env_strerror_r env errnum) as [e1|t1]; cbn.
  - rewrite decide_True by done. cbn.
    destruct (env_strerror_r env e1) as [e2|t2]; cbn;
      destruct (host_FindClass (env_host env) className); cbn;
      (eexists; split; [reflexivity|]); cbn; split_and!; try done.
    + by apply new_events_app.
    + apply new_events_app. cbn. by rewrite app_nil_r.
  - rewrite decide_False by done. cbn.
    destruct (host_FindClass (env_host env) className); cbn;
      (eexists; split; [reflexivity|]); cbn; split_and!; try done.
    + by apply new_events_app.
    + apply new_events_app. cbn. by rewrite app_nil_r.
Qed.

(** ** A socket that cannot be created *)

Lemma NewTcpSocket_fail env e s :
  env_socket env = Failure e ->
  exists s1,
    NewTcpSocket env s = Returned (-1) s1 /\
    calls [EvSocket PF_INET SOCK_STREAM 0 (-1)] s s1 /\
    st_fds s1 = st_fds s /\ st_pending s1 <> None.
Proof.
  intros Hr.
  destruct (NewTcpSocket_spec env s) as (fd & s1 & Heq & Hcalls & _ & Hfd).
  assert (fd = -1) as ->.
  { revert Heq. unfold NewTcpSocket, sys_socket. rewrite Hr.
    unfold bind at 1.
    destruct (LogMessage_quiet env "Constructing a new TCP socket..." s)
      as (s0 & -> & _).
    unfold_monad. cbn. rewrite decide_True by done.
    match goal with |- context [ThrowErrnoException env IOException ?e0 ?st] =>
      destruct (ThrowErrnoException_quiet env IOException e0 st)
        as (s2 & -> & _) end.
    by intros [= <- _]. }
  exists s1. split_and!; [done|done| |].
  - destruct Hfd as [(_ & Hf & _)|(Hlow & _)]; [done|].
    pose proof (lowest_unused_nonneg (st_fds s)). lia.
  - destruct Hfd as [(_ & _ & Hp)|(Hlow & _)]; [done|].
    pose proof (lowest_unused_nonneg (st_fds s)). lia.
Qed.

(** X6.  When [socket] fails, the server and the client do the same and
    nothing else: the one call of [socket], no close of the -1 it
    returned, the descriptors as they were, and an exception pending. *)
Theorem socket_failure_ends_the_run env junk ip port message e s :
  env_socket env = Failure e ->
  exists s1 s2,
    nativeStartTcpServer env junk port s = Returned tt s1 /\
    nativeStartTcpClient env ip port message s = Returned tt s2 /\
    s1 = s2 /\
    syscalls (new_events s s1) = [EvSocket PF_INET SOCK_STREAM 0 (-1)] /\
    st_fds s1 = st_fds s /\
    st_pending s1 <> None.
Proof.
  intros Hr.
  destruct (NewTcpSocket_fail env e s Hr) as (s1 & Heq & Hcalls & Hf & Hp).
  exists s1, s1.
  unfold nativeStartTcpServer, nativeStartTcpClient.
  unfold bind at 1. rewrite Heq. unfold bind at 3. rewrite Heq.
  unfold ExceptionOccurred. unfold_monad.
  destruct (st_pending s1) as [p|] eqn:Hpend; [|done].
  rewrite decide_False by lia.
  split_and!; try done. by apply calls_new_events.
Qed.

Lemma socket_failure_ends_the_run_witness :
  exists s1 s2,
    nativeStartTcpServer no_descriptor_left [] 5000 fresh_process = Returned tt s1 /\
    nativeStartTcpClient no_descriptor_left "10.0.0.1" 5000 "hello" fresh_process
      = Returned tt s2 /\
    s1 = s2 /\
    syscalls (new_events fresh_process s1) = [EvSocket PF_INET SOCK_STREAM 0 (-1)] /\
    st_fds s1 = st_fds fresh_process /\
    st_pending s1 <> None.
Proof.
  apply (socket_failure_ends_the_run no_descriptor_left [] "10.0.0.1" 5000 "hello"
           EMFILE fresh_process).
  reflexivity.
Defined.

(** ** A step of the setup that fails, when the host is in order *)

Section SetupFails.

Variable env : Env.
Hypothesis Hhost : host_ok env.

Lemma BindSocketToPort_fail e text sd port s :
  env_bind env = Failure e ->
  errno_message env e = Some text ->
  exists s',
    BindSocketToPort env sd port s = Returned tt s' /\
    st_trace s' = st_trace s ++
      [ log_line ("Binding to port " +:+ fmt_hu port +:+ ".");
        EvBind sd (mk_sockaddr_in AF_INET (htons port) (htonl INADDR_ANY)) (-1);
        EvThrow IOException text ] /\
    st_pending s' = Some (IOException, text) /\
    st_fds s' = st_fds s.
Proof.
  intros Hr Hmsg. unfold BindSocketToPort, sys_bind. rewrite Hr.
  unfold bind at 1. rewrite LogMessage_ok by done.
  unfold_monad. state_fields.
  rewrite decide_True by done.
  match goal with |- context [ThrowErrnoException env IOException ?e ?s0] =>
    destruct (ThrowErrnoException_ok env Hhost e text s0 Hmsg) as [e' ->] end.
  eexists. split; [reflexivity|]. state_fields. by rewrite <- !app_assoc.
Qed.

Lemma ListenOnSocket_fail e text sd backlog s :
  env_listen env = Failure e ->
  errno_message env e = Some text ->
  exists s',
    ListenOnSocket env sd backlog s = Returned tt s' /\
    st_trace s' = st_trace s ++
      [ log_line ("Listening on socket with a backlog of " +:+ fmt_d backlog
                  +:+ " pending connections.");
        EvListen sd backlog (-1);
        EvThrow IOException text ] /\
    st_pending s' = Some (IOException, text) /\
    st_fds s' = st_fds s.
Proof.
  intros Hr Hmsg. unfold ListenOnSocket, sys_listen. rewrite Hr.
  unfold bind at 1. rewrite LogMessage_ok by done.
  unfold_monad. state_fields.
  rewrite decide_True by done.
  match goal with |- context [ThrowErrnoException env IOException ?e ?s0] =>
    destruct (ThrowErrnoException_ok env Hhost e text s0 Hmsg) as [e' ->] end.
  eexists. split; [reflexivity|]. state_fields. by rewrite <- !app_assoc.
Qed.

Lemma AcceptOnSocket_fail e text sd s :
  env_accept env = Failure e ->
  errno_message env e = Some text ->
  exists s',
    AcceptOnSocket env sd s = Returned (-1) s' /\
    st_trace s' = st_trace s ++
      [ log_line "Waiting for a client connection...";
        EvAccept sd (-1);
        EvThrow IOException text ] /\
    st_pending s' = Some (IOException, text) /\
    st_fds s' = st_fds s.
Proof.
  intros Hr Hmsg. unfold AcceptOnSocket, sys_accept. rewrite Hr.
  unfold bind at 1. rewrite LogMessage_ok by done.
  unfold_monad. state_fields.
  rewrite decide_True by done.
  match goal with |- context [ThrowErrnoException env IOException ?e ?s0] =>
    destruct (ThrowErrnoException_ok env Hhost e text s0 Hmsg) as [e' ->] end.
  eexists. split; [reflexivity|]. state_fields. by rewrite <- !app_assoc.
Qed.

(** The exit of the server, taken with the listening descriptor open. *)
Lemma server_exit fd (fds : gset Z) s1 :
  fd ∉ fds -> st_fds s1 = {[fd]} ∪ fds ->
  exists s',
    (if decide (fd > 0) then sys_close fd else ret tt) s1 = Returned tt s' /\
    st_trace s' = st_trace s1 ++ exit_events fd /\
    st_pending s' = st_pending s1 /\
    st_fds s' = (if decide (fd > 0) then fds else {[fd]} ∪ fds).
Proof.
  intros Hfresh Hf1. unfold exit_events.
  destruct (decide (fd > 0)) as [Hfd|Hfd].
  - destruct (sys_close_spec fd s1) as (s' & -> & Ht & Hf & Hp).
    exists s'. split_and!; [done..|]. rewrite Hf, Hf1.
    apply set_eq. intros x.
    rewrite elem_of_difference, elem_of_union, elem_of_singleton.
    split; [tauto|]. intros Hx. split; [by right|]. by intros ->.
  - exists s1. split_and!; [done| |done|done]. by rewrite app_nil_r.
Qed.

(** After a socket was created and bound the server goes on with the
    listen step. *)
Lemma server_after_bind junk port bound s :
  st_pending s = None ->
  env_socket env = Success tt ->
  env_bind env = Success tt ->
  env_getsockname env = Success bound ->
  let fd := lowest_unused (st_fds s) in
  nativeStartTcpServer env junk port s =
  ( ( ListenOnSocket env fd 4;;
      exc <- ExceptionOccurred;;
      if exc then ret tt else
        clientSocket <- AcceptOnSocket env fd;;
        exc <- ExceptionOccurred;;
        if exc then ret tt else
          echo_loop env (env_peer env) clientSocket
            (uninitialised MAX_BUFFER_SIZE junk);;
          sys_close clientSocket );;
    if decide (fd > 0) then sys_close fd else ret tt )
    (opened fd (bound_events port fd bound) s).
Proof.
  intros Hp Hsock Hbind Hname fd.
  unfold nativeStartTcpServer.
  unfold bind at 1. rewrite NewTcpSocket_success by done. cbv zeta.
  fold fd. cbv beta iota zeta; rewrite ?bind_assoc.
  unfold ExceptionOccurred at 1. unfold bind at 1, get at 1.
  unfold opened. state_fields. rewrite Hp.
  unfold server_body. cbv zeta. cbv beta iota zeta; rewrite ?bind_assoc.
  unfold bind at 1. rewrite BindSocketToPort_success by done.
  cbv beta iota zeta; rewrite ?bind_assoc.
  unfold ExceptionOccurred at 1. unfold bind at 1, get at 1.
  state_fields. rewrite Hp.
  unfold bound_events, bind_address.
  destruct (decide (0 = port)) as [Hport|Hport].
  - cbv beta iota zeta; rewrite ?bind_assoc.
    unfold bind at 1. rewrite (GetSocketPort_success env Hhost bound) by done.
    cbv beta iota zeta; rewrite ?bind_assoc.
    unfold ExceptionOccurred at 1. unfold bind at 1, get at 1.
    state_fields. rewrite Hp. rewrite ?bind_assoc.
    match goal with |- bind ?m ?k1 ?s1 = bind ?m ?k2 ?s2 =>
      replace s1 with s2; [done|] end.
    unfold opened, after, set_fds; state_fields. by rewrite <- !app_assoc.
  - rewrite ?bind_assoc. match goal with |- bind ?m ?k1 ?s1 = bind ?m ?k2 ?s2 =>
      replace s1 with s2; [done|] end.
    unfold opened, after, set_fds; state_fields. by rewrite <- !app_assoc.
Qed.

End SetupFails.

(** X7.  When [bind] fails, the server throws the [IOException] with
    the text for the error [bind] left, calls neither [listen] nor
    [accept], and takes the exit, which closes the listening descriptor:
    with a listening descriptor above 0 the descriptors open at the end
    are those open at the start. *)
Theorem bind_failure_goes_to_exit env junk port e text s :
  host_ok env ->
  st_pending s = None ->
  env_socket env = Success tt ->
  env_bind env = Failure e ->
  errno_message env e = Some text ->
  let fd := lowest_unused (st_fds s) in
  exists s',
    nativeStartTcpServer env junk port s = Returned tt s' /\
    new_events s s' =
      [ log_line "Constructing a new TCP socket...";
        EvSocket PF_INET SOCK_STREAM 0 fd;
        log_line ("Binding to port " +:+ fmt_hu (to_ushort port) +:+ ".");
        EvBind fd (bind_address port) (-1);
        EvThrow IOException text ] ++ exit_events fd /\
    st_pending s' = Some (IOException, text) /\
    (fd > 0 -> st_fds s' = st_fds s).
Proof.
  intros Hhost Hp Hsock Hbind Hmsg fd.
  unfold nativeStartTcpServer.
  unfold bind at 1. rewrite NewTcpSocket_success by done. cbv zeta.
  fold fd. cbv beta iota zeta; rewrite ?bind_assoc.
  unfold ExceptionOccurred at 1. unfold bind at 1, get at 1.
  unfold opened. state_fields. rewrite Hp.
  unfold server_body. cbv beta iota zeta; rewrite ?bind_assoc.
  unfold bind at 1.
  match goal with |- context [BindSocketToPort env fd ?p ?s0] =>
    destruct (BindSocketToPort_fail env Hhost e text fd p s0 Hbind Hmsg)
      as (s1 & -> & Ht1 & Hp1 & Hf1) end.
  cbv beta iota zeta; rewrite ?bind_assoc.
  unfold ExceptionOccurred at 1. unfold bind at 1, get at 1. rewrite Hp1.
  unfold bind at 1, ret at 1.
  destruct (server_exit fd (st_fds s) s1) as (s' & -> & Ht & Hp' & Hf');
    [apply lowest_unused_fresh|by rewrite Hf1|].
  exists s'. split_and!; [done| |congruence|by intros Hpos; rewrite Hf', decide_True].
  apply new_events_app. rewrite Ht, Ht1. state_fields.
  by rewrite <- !app_assoc.
Qed.

Lemma bind_failure_goes_to_exit_witness :
  exists s',
    nativeStartTcpServer port_in_use [] 5000 fresh_process = Returned tt s' /\
    new_events fresh_process s' =
      [ EvLog "Constructing a new TCP socket...";
        EvSocket PF_INET SOCK_STREAM 0 3;
        EvLog "Binding to port 5000.";
        EvBind 3 (bind_address 5000) (-1);
        EvThrow IOException "error 98";
        EvClose 3 ] /\
    st_pending s' = Some (IOException, "error 98"%string) /\
    (3 > 0 -> st_fds s' = st_fds fresh_process).
Proof.
  apply (bind_failure_goes_to_exit port_in_use [] 5000 EADDRINUSE "error 98" fresh_process).
  - repeat split; intros; reflexivity.
  - reflexivity.
  - reflexivity.
  - reflexivity.
  - reflexivity.
Defined.

(** X8.  When [listen] fails, after the socket was created and bound
    (and, for port 0, the port found), the server throws the
    [IOException] with the text for the error [listen] left, does not
    call [accept], and closes the listening descriptor at the exit. *)
Theorem listen_failure_goes_to_exit env junk port bound e text s :
  host_ok env ->
  st_pending s = None ->
  env_socket env = Success tt ->
  env_bind env = Success tt ->
  env_getsockname env = Success bound ->
  env_listen env = Failure e ->
  errno_message env e = Some text ->
  let fd := lowest_unused (st_fds s) in
  exists s',
    nativeStartTcpServer env junk port s = Returned tt s' /\
    new_events s s' =
      bound_events port fd bound ++
      [ log_line ("Listening on socket with a backlog of " +:+ fmt_d 4
                  +:+ " pending connections.");
        EvListen fd 4 (-1);
        EvThrow IOException text ] ++ exit_events fd /\
    st_pending s' = Some (IOException, text) /\
    (fd > 0 -> st_fds s' = st_fds s).
Proof.
  intros Hhost Hp Hsock Hbind Hname Hlisten Hmsg fd.
  rewrite (server_after_bind env Hhost junk port bound) by done. fold fd.
  rewrite ?bind_assoc. unfold bind at 1.
  match goal with |- context [ListenOnSocket env fd 4 ?s0] =>
    destruct (ListenOnSocket_fail env Hhost e text fd 4 s0 Hlisten Hmsg)
      as (s1 & -> & Ht1 & Hp1 & Hf1) end.
  cbv beta iota zeta; rewrite ?bind_assoc.
  unfold ExceptionOccurred at 1. unfold bind at 1, get at 1. rewrite Hp1.
  unfold bind at 1, ret at 1.
  destruct (server_exit fd (st_fds s) s1) as (s' & -> & Ht & Hp' & Hf');
    [apply lowest_unused_fresh|by rewrite Hf1|].
  exists s'. split_and!; [done| |congruence|by intros Hpos; rewrite Hf', decide_True].
  apply new_events_app. rewrite Ht, Ht1. unfold opened. state_fields.
  by rewrite <- !app_assoc.
Qed.

Lemma listen_failure_goes_to_exit_witness :
  exists s',
    nativeStartTcpServer cannot_listen [] 0 fresh_process = Returned tt s' /\
    new_events fresh_process s' =
      [ EvLog "Constructing a new TCP socket...";
        EvSocket PF_INET SOCK_STREAM 0 3;
        EvLog "Binding to port 0.";
        EvBind 3 ephemeral_address 0;
        EvGetsockname 3 0;
        EvLog "Binded to random port 40000.";
        EvLog "Listening on socket with a backlog of 4 pending connections.";
        EvListen 3 4 (-1);
        EvThrow IOException "error 98";
        EvClose 3 ] /\
    st_pending s' = Some (IOException, "error 98"%string) /\
    (3 > 0 -> st_fds s' = st_fds fresh_process).
Proof.
  apply (listen_failure_goes_to_exit cannot_listen [] 0 loopback EADDRINUSE
           "error 98" fresh_process).
  - repeat split; intros; reflexivity.
  - reflexivity.
  - reflexivity.
  - reflexivity.
  - reflexivity.
  - reflexivity.
  - reflexivity.
Defined.

(** X9.  When [accept] fails, the server throws the [IOException] with
    the text for the error [accept] left and skips the echo loop; the
    only close of the run is the one of the listening descriptor, none
    is made on the -1 that [accept] returned. *)
Theorem accept_failure_goes_to_exit env junk port bound e text s :
  host_ok env ->
  st_pending s = None ->
  env_socket env = Success tt ->
  env_bind env = Success tt ->
  env_getsockname env = Success bound ->
  env_listen env = Success tt ->
  env_accept env = Failure e ->
  errno_message env e = Some text ->
  let fd := lowest_unused (st_fds s) in
  exists s',
    nativeStartTcpServer env junk port s = Returned tt s' /\
    new_events s s' =
      bound_events port fd bound ++
      [ log_line ("Listening on socket with a backlog of " +:+ fmt_d 4
                  +:+ " pending connections.");
        EvListen fd 4 0;
        log_line "Waiting for a client connection...";
        EvAccept fd (-1);
        EvThrow IOException text ] ++ exit_events fd /\
    st_pending s' = Some (IOException, text) /\
    (forall sd, EvClose sd ∈ new_events s s' -> sd = fd) /\
    (fd > 0 -> st_fds s' = st_fds s).
Proof.
  intros Hhost Hp Hsock Hbind Hname Hlisten Haccept Hmsg fd.
  rewrite (server_after_bind env Hhost junk port bound) by done. fold fd.
  rewrite ?bind_assoc. unfold bind at 1.
  rewrite ListenOnSocket_success by done.
  cbv beta iota zeta; rewrite ?bind_assoc.
  unfold ExceptionOccurred at 1. unfold bind at 1, get at 1.
  unfold opened. state_fields. rewrite Hp.
  cbv beta iota zeta; rewrite ?bind_assoc. unfold bind at 1.
  match goal with |- context [AcceptOnSocket env fd ?s0] =>
    destruct (AcceptOnSocket_fail env Hhost e text fd s0 Haccept Hmsg)
      as (s1 & -> & Ht1 & Hp1 & Hf1) end.
  cbv beta iota zeta; rewrite ?bind_assoc.
  unfold ExceptionOccurred at 1. unfold bind at 1, get at 1. rewrite Hp1.
  unfold bind at 1, ret at 1.
  destruct (server_exit fd (st_fds s) s1) as (s' & -> & Ht & Hp' & Hf');
    [apply lowest_unused_fresh|by rewrite Hf1|].
  assert (Hnew : new_events s s' =
    bound_events port fd bound ++
      [ log_line ("Listening on socket with a backlog of " +:+ fmt_d 4
                  +:+ " pending connections.");
        EvListen fd 4 0;
        log_line "Waiting for a client connection...";
        EvAccept fd (-1);
        EvThrow IOException text ] ++ exit_events fd).
  { apply new_events_app. rewrite Ht, Ht1. state_fields.
    by rewrite <- !app_assoc. }
  exists s'. split_and!; [done|done|congruence| |by intros Hpos; rewrite Hf', decide_True].
  intros sd Hin. rewrite Hnew in Hin.
  unfold bound_events, exit_events, log_line in Hin.
  destruct (decide (0 = port)); destruct (decide (fd > 0));
    repeat (apply elem_of_app in Hin as [Hin|Hin]);
    repeat (apply elem_of_cons in Hin as [Hin|Hin]);
    try discriminate Hin; try (by inversion Hin); by apply elem_of_nil in Hin.
Qed.

Lemma accept_failure_goes_to_exit_witness :
  exists s',
    nativeStartTcpServer connection_aborted [] 5000 fresh_process = Returned tt s' /\
    new_events fresh_process s' =
      [ EvLog "Constructing a new TCP socket...";
        EvSocket PF_INET SOCK_STREAM 0 3;
        EvLog "Binding to port 5000.";
        EvBind 3 (bind_address 5000) 0;
        EvLog "Listening on socket with a backlog of 4 pending connections.";
        EvListen 3 4 0;
        EvLog "Waiting for a client connection...";
        EvAccept 3 (-1);
        EvThrow IOException "error 103" ] ++ [EvClose 3] /\
    st_pending s' = Some (IOException, "error 103"%string) /\
    (forall sd, EvClose sd ∈ new_events fresh_process s' -> sd = 3) /\
    (3 > 0 -> st_fds s' = st_fds fresh_process).
Proof.
  apply (accept_failure_goes_to_exit connection_aborted [] 5000 loopback ECONNABORTED
           "error 103" fresh_process).
  - repeat split; intros; reflexivity.
  - reflexivity.
  - reflexivity.
  - reflexivity.
  - reflexivity.
  - reflexivity.
  - reflexivity.
  - reflexivity.
Defined.

(** ** A host that cannot log *)

Lemma LogMessage_cannot_log env text s :
  cannot_log env s text ->
  exists s' class,
    LogMessage env text s = Returned tt s' /\
    st_trace s' = st_trace s /\ st_fds s' = st_fds s /\
    (class = NoSuchMethodError \/ class = OutOfMemoryError) /\
    st_pending s' = Some (class, EmptyString).
Proof.
  unfold cannot_log, LogMessage, GetMethodID, NewStringUTF, CallVoidMethod, host_raise.
  unfold_monad.
  destruct (st_methodID s) eqn:Hc; cbn; rewrite ?Hc; cbn.
  - intros [[? _]|Hmem]; [done|]. rewrite Hmem. cbn.
    eexists _, OutOfMemoryError. split_and!; try done. by right.
  - destruct (host_logMessage (env_host env)) eqn:Hm; cbn.
    + intros [[_ ?]|Hmem]; [done|]. rewrite Hmem. cbn.
      eexists _, OutOfMemoryError. split_and!; try done. by right.
    + intros _. eexists _, NoSuchMethodError. split_and!; try done. by left.
Qed.

(** X10.  When the first [LogMessage] of a run cannot hand its line to
    Java (the [logMessage] method is not found, or the host has no
    memory for the string), it logs nothing and leaves the host's
    exception pending; [NewTcpSocket] creates the socket all the same.
    The server then takes the exit and closes it (when it is above 0);
    the client, which closes its socket only when nothing is pending,
    returns with the descriptor still open. *)
Theorem failed_log_leaks_client_socket env junk ip port message s :
  cannot_log env s "Constructing a new TCP socket..." ->
  env_socket env = Success tt ->
  let fd := lowest_unused (st_fds s) in
  exists s1 s2 class,
    (class = NoSuchMethodError \/ class = OutOfMemoryError) /\
    nativeStartTcpServer env junk port s = Returned tt s1 /\
    new_events s s1 = EvSocket PF_INET SOCK_STREAM 0 fd :: exit_events fd /\
    st_pending s1 = Some (class, EmptyString) /\
    nativeStartTcpClient env ip port message s = Returned tt s2 /\
    new_events s s2 = [EvSocket PF_INET SOCK_STREAM 0 fd] /\
    st_pending s2 = Some (class, EmptyString) /\
    (fd ∉ st_fds s) /\
    (fd ∈ st_fds s2).
Proof.
  intros Hlog Hsock fd.
  pose proof (lowest_unused_fresh (st_fds s)) as Hfresh. fold fd in Hfresh.
  pose proof (lowest_unused_nonneg (st_fds s)) as Hnn. fold fd in Hnn.
  destruct (LogMessage_cannot_log env _ s Hlog) as (s0 & class & Hlog0 & Ht0 & Hf0 & Hc & Hp0).
  assert (Hnew : NewTcpSocket env s =
            Returned fd (set_trace (st_trace s0 ++ [EvSocket PF_INET SOCK_STREAM 0 fd])
                           (set_fds ({[fd]} ∪ st_fds s0) s0))).
  { unfold NewTcpSocket, sys_socket, new_descriptor. rewrite Hsock.
    unfold bind at 1. rewrite Hlog0. unfold_monad. cbn.
    rewrite Hf0. fold fd. by rewrite decide_False by lia. }
  unfold nativeStartTcpServer, nativeStartTcpClient.
  unfold bind at 1. rewrite Hnew. unfold bind at 3. rewrite Hnew.
  unfold ExceptionOccurred. unfold_monad. cbn. rewrite Hp0. cbn.
  unfold exit_events, sys_close. unfold_monad.
  destruct (decide (fd > 0)); cbn.
  - rewrite Hf0. rewrite decide_True by (by apply elem_of_union_l, elem_of_singleton). cbn.
    eexists _, _, class. split_and!; try reflexivity; try done.
    + apply new_events_app. cbn. by rewrite Ht0, <- app_assoc.
    + apply new_events_app. cbn. by rewrite Ht0.
    + by apply elem_of_union_l, elem_of_singleton.
  - eexists _, _, class. split_and!; try reflexivity; try done.
    + apply new_events_app. cbn. by rewrite Ht0.
    + apply new_events_app. cbn. by rewrite Ht0.
    + cbn. rewrite Hf0. by apply elem_of_union_l, elem_of_singleton.
Qed.

Lemma failed_log_leaks_client_socket_witness :
  exists s1 s2 class,
    (class = NoSuchMethodError \/ class = OutOfMemoryError) /\
    nativeStartTcpServer no_log_method [] 5000 fresh_process = Returned tt s1 /\
    new_events fresh_process s1 = [EvSocket PF_INET SOCK_STREAM 0 3; EvClose 3] /\
    st_pending s1 = Some (class, EmptyString) /\
    nativeStartTcpClient no_log_method "10.0.0.1" 5000 "hello" fresh_process
      = Returned tt s2 /\
    new_events fresh_process s2 = [EvSocket PF_INET SOCK_STREAM 0 3] /\
    st_pending s2 = Some (class, EmptyString) /\
    (3 ∉ st_fds fresh_process) /\
    (3 ∈ st_fds s2).
Proof.
  apply (failed_log_leaks_client_socket no_log_method [] "10.0.0.1" 5000
           "hello" fresh_process).
  - left. split; reflexivity.
  - reflexivity.
Defined.

(** ** The end of a session, when the host is in order *)

Section SessionEnds.

Variable env : Env.
Hypothesis Hhost : host_ok env.

(** When the echo loop returns, the server closes the accepted
    descriptor and takes the exit. *)
Lemma server_after_loop junk port bound peer ip evs s s2 :
  st_pending s = None ->
  env_socket env = Success tt ->
  env_bind env = Success tt ->
  env_getsockname env = Success bound ->
  env_listen env = Success tt ->
  env_accept env = Success peer ->
  env_inet_ntop env = Success ip ->
  let fd := lowest_unused (st_fds s) in
  let client := lowest_unused ({[fd]} ∪ st_fds s) in
  let s0 := set_fds ({[client]} ∪ ({[fd]} ∪ st_fds s))
              (after (setup_events port fd client bound peer ip) s) in
  echo_loop env (env_peer env) client (uninitialised MAX_BUFFER_SIZE junk) s0
    = Returned tt s2 ->
  st_trace s2 = st_trace s0 ++ evs ->
  st_fds s2 = st_fds s0 ->
  exists s',
    nativeStartTcpServer env junk port s = Returned tt s' /\
    new_events s s' =
      setup_events port fd client bound peer ip ++ evs ++
      [EvClose client] ++ exit_events fd /\
    st_pending s' = st_pending s2 /\
    (client ∉ st_fds s') /\
    (fd > 0 -> st_fds s' = st_fds s).
Proof.
  intros Hp Hsock Hbind Hname Hlisten Haccept Hip fd client s0 Hloop Ht2 Hf2.
  destruct (server_reaches_echo_loop env Hhost junk port bound peer ip s)
    as (_ & _ & ->); [done..|].
  fold fd client s0.
  pose proof (lowest_unused_fresh (st_fds s)) as Hfd. fold fd in Hfd.
  pose proof (lowest_unused_fresh ({[fd]} ∪ st_fds s)) as Hclient.
  fold client in Hclient.
  unfold bind at 1. rewrite Hloop.
  unfold bind at 1.
  destruct (sys_close_spec client s2) as (s3 & -> & Ht3 & Hf3 & Hp3).
  assert (Hfds3 : st_fds s3 = {[fd]} ∪ st_fds s).
  { rewrite Hf3, Hf2. unfold s0. state_fields.
    apply set_eq. intros x.
    rewrite elem_of_difference, elem_of_union, elem_of_singleton.
    split; [tauto|]. intros Hx. split; [by right|]. by intros ->. }
  destruct (server_exit fd (st_fds s) s3 Hfd Hfds3) as (s' & -> & Ht & Hp' & Hf').
  exists s'. split_and!; [done| |congruence| |by intros Hpos; rewrite Hf', decide_True].
  - apply new_events_app. rewrite Ht, Ht3, Ht2. unfold s0. state_fields.
    by rewrite <- !app_assoc.
  - rewrite Hf'. intros Hin. apply Hclient.
    destruct (decide (fd > 0)); [by apply elem_of_union_r|done].
Qed.

(** The kernel takes nothing of an answer: [send] returns 0.  The loop
    ends as after a disconnect, and the server closes both descriptors. *)
Lemma echo_loop_ends_refused rounds d room rest sd buffer s :
  length buffer = 80%nat -> Forall good_round rounds ->
  (0 < length d <= 79)%nat -> room <= 0 -> st_pending s = None ->
  exists s',
    echo_loop env (as_peer rounds ++ (Success d, Success room) :: rest) sd buffer s
      = Returned tt s' /\
    adds (rounds_events sd rounds ++
          [ log_line "Receiving from the socket...";
            EvRecv sd (MAX_BUFFER_SIZE - 1) (Z.of_nat (length d)) d;
            log_line ("Received " +:+ fmt_d (Z.of_nat (length d)) +:+ " bytes: "
                      +:+ string_of_list_ascii (c_str d));
            log_line "Sending to the socket...";
            EvSend sd d 0;
            log_line "Client disconnected." ]) s s'.
Proof.
  intros Hb Hgood Hd Hroom Hp.
  destruct (echo_loop_rounds env Hhost rounds ((Success d, Success room) :: rest)
              sd buffer s) as (buffer1 & s1 & Hb1 & Hadds1 & ->); [done..|].
  destruct (echo_loop_send_none env Hhost d room rest sd buffer1 s1)
    as (s2 & -> & Hadds2); [done..| |].
  { destruct Hadds1 as (_ & _ & -> & _). done. }
  exists s2. split; [done|]. by eapply adds_trans.
Qed.

End SessionEnds.

(** X11.  When the kernel takes nothing of an answer ([send] returns
    0), the loop ends as after a disconnect: the line [Client
    disconnected.] is logged, nothing is thrown or pending, the server
    closes the accepted descriptor and takes the exit. *)
Theorem send_refused_ends_session env junk port bound peer ip rounds d room rest s :
  host_ok env ->
  st_pending s = None ->
  env_socket env = Success tt ->
  env_bind env = Success tt ->
  env_getsockname env = Success bound ->
  env_listen env = Success tt ->
  env_accept env = Success peer ->
  env_inet_ntop env = Success ip ->
  env_peer env = as_peer rounds ++ (Success d, Success room) :: rest ->
  Forall good_round rounds ->
  (0 < length d <= 79)%nat ->
  room <= 0 ->
  let fd := lowest_unused (st_fds s) in
  let client := lowest_unused ({[fd]} ∪ st_fds s) in
  exists s',
    nativeStartTcpServer env junk port s = Returned tt s' /\
    new_events s s' =
      setup_events port fd client bound peer ip ++
      (rounds_events client rounds ++
       [ log_line "Receiving from the socket...";
         EvRecv client (MAX_BUFFER_SIZE - 1) (Z.of_nat (length d)) d;
         log_line ("Received " +:+ fmt_d (Z.of_nat (length d)) +:+ " bytes: "
                   +:+ string_of_list_ascii (c_str d));
         log_line "Sending to the socket...";
         EvSend client d 0;
         log_line "Client disconnected." ]) ++
      [EvClose client] ++ exit_events fd /\
    st_pending s' = None /\
    (client ∉ st_fds s') /\
    (fd > 0 -> st_fds s' = st_fds s).
Proof.
  intros Hhost Hp Hsock Hbind Hname Hlisten Haccept Hip Hpeer Hgood Hd Hroom fd client.
  set (s0 := set_fds ({[client]} ∪ ({[fd]} ∪ st_fds s))
               (after (setup_events port fd client bound peer ip) s)).
  destruct (echo_loop_ends_refused env Hhost rounds d room rest client
              (uninitialised MAX_BUFFER_SIZE junk) s0)
    as (s2 & Hloop & Ht2 & Hf2 & Hp2 & _);
    [by rewrite uninitialised_length|done..|].
  rewrite <- Hpeer in Hloop.
  destruct (server_after_loop env Hhost junk port bound peer ip _ s s2
              Hp Hsock Hbind Hname Hlisten Haccept Hip Hloop Ht2 Hf2)
    as (s' & Hrun & Hnew & Hp' & Hcl & Hfds).
  exists s'. split_and!; [done|done| |done|done].
  rewrite Hp', Hp2. done.
Qed.

Lemma send_refused_ends_session_witness :
  exists s',
    nativeStartTcpServer (session [(Success ping, Success 4); (Success hello, Success 0)])
      [] 5000 fresh_process = Returned tt s' /\
    new_events fresh_process s' =
      setup_events 5000 3 4 loopback loopback "127.0.0.1" ++
      (rounds_events 4 [(ping, 4)] ++
       [ EvLog "Receiving from the socket...";
         EvRecv 4 79 5 hello;
         EvLog "Received 5 bytes: hello";
         EvLog "Sending to the socket...";
         EvSend 4 hello 0;
         EvLog "Client disconnected." ]) ++
      [EvClose 4] ++ [EvClose 3] /\
    st_pending s' = None /\
    (4 ∉ st_fds s') /\
    (3 > 0 -> st_fds s' = st_fds fresh_process).
Proof.
  apply (send_refused_ends_session
           (session [(Success ping, Success 4); (Success hello, Success 0)])
           [] 5000 loopback loopback "127.0.0.1" [(ping, 4)] hello 0 []
           fresh_process).
  - repeat split; intros; reflexivity.
  - reflexivity.
  - reflexivity.
  - reflexivity.
  - reflexivity.
  - reflexivity.
  - reflexivity.
  - reflexivity.
  - reflexivity.
  - repeat constructor; simpl; lia.
  - simpl; lia.
  - lia.
Defined.

(** X12.  When a receive or a send of the echo loop fails, after any
    number of rounds, the server leaves the loop, closes the accepted
    descriptor and takes the exit; the [IOException] with the text for
    the error stays pending for Java, and with a listening descriptor
    above 0 the descriptors open at the end are those open at the
    start. *)
Theorem io_failure_releases_descriptors
    env junk port bound peer ip rounds last rest e text s :
  host_ok env ->
  st_pending s = None ->
  env_socket env = Success tt ->
  env_bind env = Success tt ->
  env_getsockname env = Success bound ->
  env_listen env = Success tt ->
  env_accept env = Success peer ->
  env_inet_ntop env = Success ip ->
  env_peer env = as_peer rounds ++ last :: rest ->
  Forall good_round rounds ->
  (fst last = Failure e \/
   exists d, (0 < length d <= 79)%nat /\ last = (Success d, Failure e)) ->
  errno_message env e = Some text ->
  let fd := lowest_unused (st_fds s) in
  let client := lowest_unused ({[fd]} ∪ st_fds s) in
  exists s' round,
    nativeStartTcpServer env junk port s = Returned tt s' /\
    new_events s s' =
      setup_events port fd client bound peer ip ++
      (rounds_events client rounds ++ round ++ [EvThrow IOException text]) ++
      [EvClose client] ++ exit_events fd /\
    throws round = [] /\
    st_pending s' = Some (IOException, text) /\
    (client ∉ st_fds s') /\
    (fd > 0 -> st_fds s' = st_fds s).
Proof.
  intros Hhost Hp Hsock Hbind Hname Hlisten Haccept Hip Hpeer Hgood Hlast Hmsg
    fd client.
  set (s0 := set_fds ({[client]} ∪ ({[fd]} ∪ st_fds s))
               (after (setup_events port fd client bound peer ip) s)).
  destruct (echo_loop_rounds env Hhost rounds (last :: rest) client
              (uninitialised MAX_BUFFER_SIZE junk) s0)
    as (buffer1 & s1 & Hb1 & (Ht1 & Hf1 & Hp1 & _) & Hloop);
    [by rewrite uninitialised_length|done..|].
  rewrite <- Hpeer in Hloop.
  assert (exists s2 round,
            echo_loop env (last :: rest) client buffer1 s1 = Returned tt s2 /\
            st_trace s2 = st_trace s1 ++ round ++ [EvThrow IOException text] /\
            throws round = [] /\
            st_pending s2 = Some (IOException, text) /\
            st_fds s2 = st_fds s1) as (s2 & round & Hend & Ht2 & Hthr & Hp2 & Hf2).
  { destruct Hlast as [Hrecv|(d & Hd & ->)].
    - destruct last as [r w]. simpl in Hrecv. subst r.
      destruct (echo_loop_recv_fail env Hhost e text w rest client buffer1 s1 Hmsg)
        as (s2 & -> & Ht2 & Hp2 & Hf2 & _).
      exists s2, [ log_line "Receiving from the socket...";
                   EvRecv client (MAX_BUFFER_SIZE - 1) (-1) [] ].
      split_and!; done.
    - destruct (echo_loop_send_fail env Hhost e text d rest client buffer1 s1)
        as (s2 & -> & Ht2 & Hp2 & Hf2 & _); [done|done|by rewrite Hp1|done|].
      exists s2, [ log_line "Receiving from the socket...";
                   EvRecv client (MAX_BUFFER_SIZE - 1) (Z.of_nat (length d)) d;
                   log_line ("Received " +:+ fmt_d (Z.of_nat (length d)) +:+ " bytes: "
                             +:+ string_of_list_ascii (c_str d));
                   log_line "Sending to the socket...";
                   EvSend client d (-1) ].
      split_and!; done. }
  rewrite Hend in Hloop.
  assert (Ht : st_trace s2 = st_trace s0 ++
            rounds_events client rounds ++ round ++ [EvThrow IOException text]).
  { rewrite Ht2, Ht1. by rewrite <- !app_assoc. }
  destruct (server_after_loop env Hhost junk port bound peer ip _ s s2
              Hp Hsock Hbind Hname Hlisten Haccept Hip Hloop Ht)
    as (s' & Hrun & Hnew & Hp' & Hcl & Hfds); [by rewrite Hf2|].
  exists s', round. split_and!; [done|done|done|congruence|done|done].
Qed.

Lemma io_failure_releases_descriptors_witness :
  exists s' round,
    nativeStartTcpServer
      (session [(Success ping, Success 4); (Success hello, Failure ECONNRESET)])
      [] 5000 fresh_process = Returned tt s' /\
    new_events fresh_process s' =
      setup_events 5000 3 4 loopback loopback "127.0.0.1" ++
      (rounds_events 4 [(ping, 4)] ++ round ++ [EvThrow IOException "error 104"]) ++
      [EvClose 4] ++ [EvClose 3] /\
    throws round = [] /\
    st_pending s' = Some (IOException, "error 104"%string) /\
    (4 ∉ st_fds s') /\
    (3 > 0 -> st_fds s' = st_fds fresh_process).
Proof.
  apply (io_failure_releases_descriptors
           (session [(Success ping, Success 4); (Success hello, Failure ECONNRESET)])
           [] 5000 loopback loopback "127.0.0.1" [(ping, 4)]
           (Success hello, Failure ECONNRESET) [] ECONNRESET "error 104"
           fresh_process).
  - repeat split; intros; reflexivity.
  - reflexivity.
  - reflexivity.
  - reflexivity.
  - reflexivity.
  - reflexivity.
  - reflexivity.
  - reflexivity.
  - reflexivity.
  - repeat constructor; simpl; lia.
  - right. exists hello. split; [simpl; lia|reflexivity].
  - reflexivity.
Defined.

(** ** Bytes and ports *)

Lemma c_str_no_nul d : NUL ∉ d -> c_str d = d.
Proof.
  induction d as [|c d IH]; simpl; [done|]. intros Hn.
  rewrite decide_False by (intros ->; apply Hn; left).
  rewrite IH; [done|]. intros Hin. apply Hn. by right.
Qed.

(** X13.  A chunk with a zero byte in it is echoed whole, while the
    two lines of the log ("Received ..." and "Sent ...") show it only up
    to the zero: the log prints the buffer as a C string, the send is
    given the number of bytes received. *)
Theorem zero_byte_cuts_the_log_not_the_echo env before behind room peer sd buffer s :
  host_ok env ->
  length buffer = 80%nat ->
  NUL ∉ before ->
  (length before + 1 + length behind <= 79)%nat ->
  0 < room ->
  st_pending s = None ->
  let data := before ++ NUL :: behind in
  let n := Z.of_nat (length data) in
  let m := Z.max 0 (Z.min room n) in
  echo_loop env ((Success data, Success room) :: peer) sd buffer s =
  echo_loop env peer sd (filled data buffer)
    (after [ log_line "Receiving from the socket...";
             EvRecv sd (MAX_BUFFER_SIZE - 1) n data;
             log_line ("Received " +:+ fmt_d n +:+ " bytes: "
                       +:+ string_of_list_ascii before);
             log_line "Sending to the socket...";
             EvSend sd data m;
             log_line ("Sent " +:+ fmt_d m +:+ " bytes: "
                       +:+ string_of_list_ascii before) ] s).
Proof.
  intros Hhost Hb Hnul Hlen Hroom Hp data n m.
  assert (Hd : (0 < length data <= 79)%nat).
  { unfold data. rewrite length_app. simpl. lia. }
  rewrite echo_loop_round by done.
  unfold round_events. cbv zeta. fold n m.
  replace (c_str data) with before; [done|].
  unfold data. by rewrite c_str_app_nul, c_str_no_nul.
Qed.

Lemma zero_byte_cuts_the_log_not_the_echo_witness :
  let data := list_ascii_of_string "ab" ++ NUL :: list_ascii_of_string "cd" in
  echo_loop (session []) [(Success data, Success 5)] 4
    (uninitialised MAX_BUFFER_SIZE []) fresh_process =
  echo_loop (session []) [] 4 (filled data (uninitialised MAX_BUFFER_SIZE []))
    (after [ EvLog "Receiving from the socket...";
             EvRecv 4 79 5 data;
             EvLog "Received 5 bytes: ab";
             EvLog "Sending to the socket...";
             EvSend 4 data 5;
             EvLog "Sent 5 bytes: ab" ] fresh_process).
Proof.
  apply (zero_byte_cuts_the_log_not_the_echo (session [])
           (list_ascii_of_string "ab") (list_ascii_of_string "cd") 5 [] 4
           (uninitialised MAX_BUFFER_SIZE []) fresh_process).
  - repeat split; intros; reflexivity.
  - reflexivity.
  - compute_done.
  - simpl; lia.
  - lia.
  - reflexivity.
Defined.

Lemma testbit_255 n : 0 <= n -> Z.testbit 255 n = bool_decide (n < 8).
Proof.
  intros Hn. change 255 with (Z.ones 8).
  destruct (decide (n < 8)) as [Hlt|Hge].
  - rewrite bool_decide_eq_true_2 by done. apply Z.ones_spec_low. lia.
  - rewrite bool_decide_eq_false_2 by done. apply Z.ones_spec_high. lia.
Qed.

(** The bits of a 16-bit value after its two bytes were exchanged. *)
Lemma htons_testbit x n : 0 <= n ->
  Z.testbit (htons x) n =
  if decide (n < 8) then Z.testbit x (n + 8)
  else if decide (n < 16) then Z.testbit x (n - 8) else false.
Proof.
  intros Hn. unfold htons. rewrite Z.lor_spec, Z.land_spec.
  rewrite Z.shiftr_spec by done. rewrite testbit_255 by done.
  destruct (decide (n < 8)) as [H8|H8].
  - rewrite Z.shiftl_spec_low by lia.
    rewrite bool_decide_eq_true_2 by done. by rewrite andb_true_r.
  - rewrite Z.shiftl_spec by done. rewrite Z.land_spec, testbit_255 by lia.
    rewrite (bool_decide_eq_false_2 (n < 8)) by done. rewrite andb_false_r, orb_false_r.
    destruct (decide (n < 16)) as [H16|H16].
    + rewrite bool_decide_eq_true_2 by lia. by rewrite andb_true_r.
    + rewrite bool_decide_eq_false_2 by lia. by rewrite andb_false_r.
Qed.

Lemma ntohs_htons p : 0 <= p < 65536 -> ntohs (htons p) = p.
Proof.
  intros Hp. unfold ntohs. apply Z.bits_inj'. intros n Hn.
  rewrite htons_testbit by done.
  destruct (decide (n < 8)) as [H8|H8].
  - rewrite htons_testbit by lia.
    rewrite decide_False, decide_True by lia. f_equal. lia.
  - destruct (decide (n < 16)) as [H16|H16].
    + rewrite htons_testbit by lia. rewrite decide_True by lia. f_equal. lia.
    + symmetry. destruct (decide (p = 0)) as [->|Hne]; [apply Z.bits_0|].
      apply Z.bits_above_log2; [lia|].
      assert (Z.log2 p < 16); [|lia]. apply Z.log2_lt_pow2; lia.
Qed.

(** X14.  Ports cross the kernel interface in network byte order and
    are logged in host byte order: when the address the kernel gives
    holds [htons p], [GetSocketPort] returns and logs [p] and
    [LogAddress] logs [p]; the port of the address handed to [bind],
    read back this way, is the port asked for. *)
Theorem ports_reported_in_host_order env p a ip message sd s :
  host_ok env ->
  0 <= p < 65536 ->
  sin_port a = htons p ->
  (env_getsockname env = Success a ->
   GetSocketPort env sd s =
   Returned p
     (after [ EvGetsockname sd 0;
              log_line ("Binded to random port " +:+ pretty p +:+ ".") ] s)) /\
  (env_inet_ntop env = Success ip ->
   LogAddress env message a s =
   Returned tt
     (after [ log_line (message +:+ " " +:+ ip +:+ ":" +:+ pretty p +:+ ".") ] s)) /\
  ntohs (sin_port (bind_address p)) = p.
Proof.
  intros Hhost Hp Hport.
  assert (Hfmt : fmt_hu p = pretty p).
  { unfold fmt_hu, to_ushort. by rewrite Z.mod_small by lia. }
  split_and!.
  - intros Hname. rewrite (GetSocketPort_success env Hhost a) by done.
    by rewrite Hport, ntohs_htons, Hfmt.
  - intros Hip. unfold LogAddress, lib_inet_ntop. rewrite Hip.
    unfold_monad. rewrite LogMessage_ok by done.
    by rewrite Hport, ntohs_htons, Hfmt.
  - unfold bind_address, to_ushort. cbn [sin_port].
    rewrite Z.mod_small by lia. by apply ntohs_htons.
Qed.

Lemma ports_reported_in_host_order_witness :
  (env_getsockname (session []) = Success loopback ->
   GetSocketPort (session []) 3 fresh_process =
   Returned 40000
     (after [ EvGetsockname 3 0; EvLog "Binded to random port 40000." ]
        fresh_process)) /\
  (env_inet_ntop (session []) = Success "127.0.0.1"%string ->
   LogAddress (session []) "Client connection from " loopback fresh_process =
   Returned tt
     (after [ EvLog "Client connection from  127.0.0.1:40000." ] fresh_process)) /\
  ntohs (sin_port (bind_address 40000)) = 40000.
Proof.
  apply (ports_reported_in_host_order (session []) 40000 loopback "127.0.0.1"
           "Client connection from " 3 fresh_process).
  - repeat split; intros; reflexivity.
  - lia.
  - reflexivity.
Defined.

(** * The echo loop in any environment *)

Lemma quiet_calls s s' : quiet s s' -> calls [] s s'.
Proof. by intros (H & _). Qed.

Lemma calls_step e s1 s2 :
  is_syscall e = true -> st_trace s2 = st_trace s1 ++ [e] -> calls [e] s1 s2.
Proof.
  intros He Ht. exists [e]. split; [done|].
  unfold syscalls. by rewrite filter_cons_True.
Qed.

Lemma calls_around e s s0 s1 s2 :
  quiet s s0 -> is_syscall e = true -> st_trace s1 = st_trace s0 ++ [e] ->
  quiet s1 s2 -> calls [e] s s2.
Proof.
  intros H0 He Ht H2.
  change [e] with ([] ++ [e] ++ []).
  eapply calls_trans; [by apply quiet_calls|].
  eapply calls_trans; [by apply calls_step|by apply quiet_calls].
Qed.

Lemma quiet_refl s : quiet s s.
Proof. split_and!; [|done..]. exists []. by rewrite app_nil_r. Qed.

(** When the platform has a text for the error number, the buffer of
    [ThrowErrnoException] is written before it is read. *)
Lemma ThrowErrnoException_defined env className e s :
  errno_message env e <> None ->
  st_undefined (final (ThrowErrnoException env className e s)) = st_undefined s.
Proof.
  unfold errno_message, ThrowErrnoException, ThrowException, FindClass, ThrowNew,
    lib_strerror_r, host_raise.
  unfold_monad.
  destruct (env_strerror_r env e) as [e1|t1]; cbn.
  - rewrite decide_True by done. cbn.
    destruct (env_strerror_r env e1) as [e2|t2]; cbn; [done|]. intros _.
    by destruct (host_FindClass (env_host env) className).
  - intros _. rewrite decide_False by done. cbn.
    by destruct (host_FindClass (env_host env) className).
Qed.

Lemma ReceiveFromSocket_any env r sd s :
  exists n data s',
    calls [EvRecv sd (MAX_BUFFER_SIZE - 1) n data] s s' /\
    st_fds s' = st_fds s /\
    (st_pending s <> None -> st_pending s' <> None) /\
    ((n = -1 /\ st_pending s' <> None /\
      (strerror_ok env -> st_undefined s' = st_undefined s)) \/
     (n = Z.of_nat (length data) /\ (length data <= 79)%nat /\
      st_undefined s' = st_undefined s)) /\
    forall buffer, length buffer = 80%nat ->
      ReceiveFromSocket env r sd buffer MAX_BUFFER_SIZE s =
      Returned (n, if decide (n = -1) then buffer else filled data buffer) s'.
Proof.
  destruct (LogMessage_quiet env "Receiving from the socket..." s)
    as (s0 & Hlog & Hq0 & He0 & Hu0).
  pose proof Hq0 as (_ & Hf0 & Hp0).
  destruct r as [e|bytes].
  - set (s1 := set_trace (st_trace s0 ++ [EvRecv sd (MAX_BUFFER_SIZE - 1) (-1) []])
                 (set_errno e s0)).
    destruct (ThrowErrnoException_quiet env IOException e s1)
      as (s2 & Hthrow & Hq2 & Hp2).
    pose proof Hq2 as (_ & Hf2 & _).
    exists (-1), [], s2. split_and!.
    + by apply (calls_around _ s s0 s1 s2).
    + by rewrite Hf2.
    + done.
    + left. split_and!; [done|done|]. intros Hstr.
      pose proof (ThrowErrnoException_defined env IOException e s1 (Hstr e)) as Hu.
      rewrite Hthrow in Hu. simpl in Hu. by rewrite Hu.
    + intros buffer Hb. unfold ReceiveFromSocket, sys_recv.
      unfold bind at 1. rewrite Hlog.
      unfold_monad. cbn. rewrite decide_True by done.
      change (to_size_t (MAX_BUFFER_SIZE - 1)) with (MAX_BUFFER_SIZE - 1).
      fold s1. change (st_errno s1) with e. by rewrite Hthrow.
  - set (data := take 79 bytes).
    assert (Hd : (length data <= 79)%nat) by (unfold data; rewrite length_take; lia).
    set (s1 := set_trace (st_trace s0 ++
                 [EvRecv sd (MAX_BUFFER_SIZE - 1) (Z.of_nat (length data)) data]) s0).
    set (text := if decide (Z.of_nat (length data) > 0)
                 then ("Received " +:+ fmt_d (Z.of_nat (length data)) +:+ " bytes: "
                       +:+ string_of_list_ascii (c_str data))
                 else "Client disconnected."%string).
    destruct (LogMessage_quiet env text s1) as (s2 & Hlog2 & Hq2 & He2 & Hu2).
    pose proof Hq2 as (_ & Hf2 & Hp2).
    exists (Z.of_nat (length data)), data, s2. split_and!.
    + by apply (calls_around _ s s0 s1 s2).
    + by rewrite Hf2.
    + intros Hp. by apply Hp2, Hp0.
    + right. split_and!; [done|done|]. by rewrite Hu2.
    + intros buffer Hb. unfold ReceiveFromSocket, sys_recv, store, read_c_str.
      change (Z.to_nat (to_size_t (MAX_BUFFER_SIZE - 1))) with 79%nat.
      change (to_size_t (MAX_BUFFER_SIZE - 1)) with (MAX_BUFFER_SIZE - 1).
      fold data.
      unfold bind at 1. unfold bind at 1. rewrite Hlog.
      rewrite decide_True by lia.
      rewrite (take_ge (data ++ _)) by (rewrite length_app, length_drop; lia).
      unfold_monad. cbn -[LogMessage ThrowErrnoException].
      rewrite decide_False by lia.
      rewrite decide_True by (rewrite length_app, length_drop; lia).
      rewrite Nat2Z.id. fold (filled data buffer). fold s1.
      rewrite (decide_False (P := Z.of_nat (length data) = -1)) by lia.
      unfold text in Hlog2.
      destruct (decide (Z.of_nat (length data) > 0)) as [Hpos|Hzero].
      * rewrite decide_True by (apply NUL_in_filled; lia).
        rewrite c_str_filled by lia. by rewrite Hlog2.
      * by rewrite Hlog2.
Qed.

Lemma SendToSocket_any env w sd d s :
  (0 < length d <= 79)%nat ->
  exists m s',
    calls [EvSend sd d m] s s' /\
    st_fds s' = st_fds s /\
    (st_pending s <> None -> st_pending s' <> None) /\
    ((m = -1 /\ st_pending s' <> None /\
      (strerror_ok env -> st_undefined s' = st_undefined s)) \/
     (0 <= m <= Z.of_nat (length d) /\ st_undefined s' = st_undefined s)) /\
    forall buffer, length buffer = 80%nat ->
      SendToSocket env w sd (filled d buffer) (to_size_t (Z.of_nat (length d))) s =
      Returned m s'.
Proof.
  intros Hd.
  destruct (LogMessage_quiet env "Sending to the socket..." s)
    as (s0 & Hlog & Hq0 & He0 & Hu0).
  pose proof Hq0 as (_ & Hf0 & Hp0).
  assert (Hsize : to_size_t (Z.of_nat (length d)) = Z.of_nat (length d))
    by (apply to_size_t_small; unfold SIZE_BITS; lia).
  destruct w as [e|room].
  - set (s1 := set_trace (st_trace s0 ++ [EvSend sd d (-1)]) (set_errno e s0)).
    destruct (ThrowErrnoException_quiet env IOException e s1)
      as (s2 & Hthrow & Hq2 & Hp2).
    pose proof Hq2 as (_ & Hf2 & _).
    exists (-1), s2. split_and!.
    + by apply (calls_around _ s s0 s1 s2).
    + by rewrite Hf2.
    + done.
    + left. split_and!; [done|done|]. intros Hstr.
      pose proof (ThrowErrnoException_defined env IOException e s1 (Hstr e)) as Hu.
      rewrite Hthrow in Hu. simpl in Hu. by rewrite Hu.
    + intros buffer Hb. rewrite Hsize. unfold SendToSocket, sys_send.
      unfold bind at 1. rewrite Hlog.
      rewrite Nat2Z.id, take_filled, filled_length by lia.
      rewrite decide_True by lia.
      unfold_monad. cbn -[LogMessage ThrowErrnoException].
      rewrite decide_True by done.
      fold s1. change (st_errno s1) with e. by rewrite Hthrow.
  - set (m := Z.max 0 (Z.min room (Z.of_nat (length d)))).
    set (s1 := set_trace (st_trace s0 ++ [EvSend sd d m]) s0).
    set (text := if decide (m > 0)
                 then ("Sent " +:+ fmt_d m +:+ " bytes: "
                       +:+ string_of_list_ascii (c_str d))
                 else "Client disconnected."%string).
    destruct (LogMessage_quiet env text s1) as (s2 & Hlog2 & Hq2 & He2 & Hu2).
    pose proof Hq2 as (_ & Hf2 & Hp2).
    exists m, s2. split_and!.
    + by apply (calls_around _ s s0 s1 s2).
    + by rewrite Hf2.
    + intros Hp. by apply Hp2, Hp0.
    + right. split; [unfold m; lia|]. by rewrite Hu2.
    + intros buffer Hb. rewrite Hsize. unfold SendToSocket, sys_send, read_c_str.
      unfold bind at 1. rewrite Hlog.
      rewrite Nat2Z.id, take_filled, filled_length by lia.
      rewrite decide_True by lia.
      unfold_monad. cbn -[LogMessage ThrowErrnoException].
      fold m. fold s1.
      rewrite decide_False by (unfold m; lia).
      unfold text in Hlog2.
      destruct (decide (m > 0)) as [Hpos|Hzero].
      * rewrite decide_True by (apply NUL_in_filled; lia).
        rewrite c_str_filled by lia. by rewrite Hlog2.
      * by rewrite Hlog2.
Qed.

(** The echo loop in any environment: what it does is the same for
    every buffer of 80 bytes; its calls are receives and sends that echo
    on [sd]; it opens and closes nothing. *)
Lemma echo_loop_any env peer sd s :
  exists sys o,
    calls sys s (final o) /\
    echoes sd sys /\
    st_fds (final o) = st_fds s /\
    (strerror_ok env -> st_undefined (final o) = st_undefined s) /\
    forall buffer, length buffer = 80%nat ->
      echo_loop env peer sd buffer s = o.
Proof.
  revert s. induction peer as [|[r w] peer IH]; intros s.
  - destruct (LogMessage_quiet env "Receiving from the socket..." s)
      as (s' & Hlog & Hq & _ & Hu).
    pose proof Hq as (_ & Hf & _).
    exists [], (Blocked s'). cbn [final echoes]. split_and!; try done.
    + by apply quiet_calls.
    + intros buffer _. cbn [echo_loop]. unfold bind. by rewrite Hlog.
  - destruct (ReceiveFromSocket_any env r sd s)
      as (n & data & s1 & Hc1 & Hf1 & _ & Hn & Hrecv).
    destruct (decide (0 = n \/ st_pending s1 <> None)) as [Hstop|Hgo].
    { exists [EvRecv sd (MAX_BUFFER_SIZE - 1) n data], (Returned tt s1).
      cbn [final echoes]. split_and!; try done.
      - intros Hstr. destruct Hn as [(_ & _ & Hu)|(_ & _ & Hu)]; [by apply Hu|done].
      - intros buffer Hb. cbn [echo_loop]. unfold bind at 1. rewrite Hrecv by done.
        unfold ExceptionOccurred. unfold bind at 1, get at 1.
        destruct Hstop as [Hz|Hp].
        + by rewrite bool_decide_eq_true_2.
        + destruct (st_pending s1); [|done]. by rewrite orb_true_r. }
    assert (Hz : 0 <> n) by tauto.
    assert (Hp1 : st_pending s1 = None).
    { destruct (st_pending s1) eqn:E; [|done]. exfalso. apply Hgo. by right. }
    destruct Hn as [(_ & Hpend & _)|(Hlen & Hd & Hu1)]; [done|].
    assert (Hd' : (0 < length data <= 79)%nat) by lia.
    destruct (SendToSocket_any env w sd data s1 Hd')
      as (m & s2 & Hc2 & Hf2 & _ & Hm & Hsend).
    assert (Hround : forall buffer, length buffer = 80%nat ->
              echo_loop env ((r, w) :: peer) sd buffer s =
              (exc <- ExceptionOccurred;;
               if bool_decide (0 = m) || exc then ret tt
               else echo_loop env peer sd (filled data buffer)) s2).
    { intros buffer Hb. cbn [echo_loop]. unfold bind at 1. rewrite Hrecv by done.
      unfold ExceptionOccurred at 1. unfold bind at 1, get at 1.
      rewrite Hp1, bool_decide_eq_false_2 by done. cbn [orb].
      rewrite decide_False by lia. rewrite Hlen.
      unfold bind at 1. by rewrite Hsend. }
    destruct (decide (0 = m \/ st_pending s2 <> None)) as [Hstop|Hgo2].
    { exists [EvRecv sd (MAX_BUFFER_SIZE - 1) n data; EvSend sd data m], (Returned tt s2).
      cbn [final echoes]. split_and!; try done.
      - by apply (calls_trans [_] [_] s s1 s2).
      - lia.
      - by rewrite Hf2.
      - intros Hstr. destruct Hm as [(_ & _ & Hu)|(_ & Hu)]; rewrite ?Hu; done.
      - intros buffer Hb. rewrite Hround by done.
        unfold ExceptionOccurred. unfold bind at 1, get at 1.
        destruct Hstop as [Hz'|Hp].
        + by rewrite bool_decide_eq_true_2.
        + destruct (st_pending s2); [|done]. by rewrite orb_true_r. }
    assert (Hz2 : 0 <> m) by tauto.
    assert (Hp2 : st_pending s2 = None).
    { destruct (st_pending s2) eqn:E; [|done]. exfalso. apply Hgo2. by right. }
    destruct Hm as [(_ & Hpend & _)|(Hm & Hu2)]; [done|].
    destruct (IH s2) as (sys & o & Hc3 & He3 & Hf3 & Hu3 & Hloop).
    exists (EvRecv sd (MAX_BUFFER_SIZE - 1) n data :: EvSend sd data m :: sys), o.
    split_and!.
    + apply (calls_trans [_] (_ :: _) s s1 (final o)); [done|].
      by apply (calls_trans [_] sys s1 s2 (final o)).
    + cbn [echoes]. split_and!; try done; lia.
    + by rewrite Hf3, Hf2.
    + intros Hstr. by rewrite Hu3, Hu2.
    + intros buffer Hb. rewrite Hround by done.
      unfold ExceptionOccurred. unfold bind at 1, get at 1.
      rewrite Hp2, bool_decide_eq_false_2 by done. cbn [orb].
      apply Hloop. rewrite filled_length; lia.
Qed.

(** * Invariants of a run, for any environment *)

Lemma hoare_bind {A B} P (m : M A) (f : A -> M B) Q1 Q Bl :
  hoare P m Q1 Bl -> (forall a, hoare (Q1 a) (f a) Q Bl) -> hoare P (bind m f) Q Bl.
Proof.
  intros Hm Hf s HP. specialize (Hm s HP). unfold bind.
  destruct (m s) as [a s1|s1]; [by apply Hf|done].
Qed.

Lemma hoare_ret {A} (P : State -> Prop) (a : A) (Q : A -> State -> Prop) Bl :
  (forall s, P s -> Q a s) -> hoare P (ret a) Q Bl.
Proof. intros H s HP. by apply H. Qed.

Lemma hoare_conseq {A} (P P' : State -> Prop) (m : M A) (Q Q' : A -> State -> Prop)
    (Bl Bl' : State -> Prop) :
  hoare P' m Q' Bl' ->
  (forall s, P s -> P' s) -> (forall a s, Q' a s -> Q a s) ->
  (forall s, Bl' s -> Bl s) ->
  hoare P m Q Bl.
Proof.
  intros Hm HP HQ HB s Hs. specialize (Hm s (HP s Hs)).
  destruct (m s); eauto.
Qed.

(** A step followed by the test for a pending exception: [goto exit]
    when there is one, the rest of the body otherwise. *)
Lemma hoare_checked {A} P (m : M A) (k : A -> M unit) Q1 Q Bl :
  hoare P m Q1 Bl ->
  (forall a s, Q1 a s -> st_pending s <> None -> Q tt s) ->
  (forall a, hoare (fun s => Q1 a s /\ st_pending s = None) (k a) Q Bl) ->
  hoare P (a <- m;; exc <- ExceptionOccurred;; if exc then ret tt else k a) Q Bl.
Proof.
  intros Hm Hexit Hk. eapply hoare_bind; [exact Hm|]. intros a s H1.
  unfold ExceptionOccurred. unfold bind at 1, get at 1.
  destruct (st_pending s) as [p|] eqn:Hp.
  - apply (Hexit a); [done|]. by rewrite Hp.
  - by apply Hk.
Qed.

Section Preserves.

Context (R : State -> State -> Prop) `{!PreOrder R}.

Lemma preserves_ret {A} (a : A) : preserves R (ret a).
Proof. intros s. simpl. reflexivity. Qed.

Lemma preserves_get {A} (f : State -> A) : preserves R (get f).
Proof. intros s. simpl. reflexivity. Qed.

Lemma preserves_modify f : (forall s, R s (f s)) -> preserves R (modify f).
Proof. intros Hf s. apply Hf. Qed.

Lemma preserves_bind {A B} (m : M A) (f : A -> M B) :
  preserves R m -> (forall a, preserves R (f a)) -> preserves R (bind m f).
Proof.
  intros Hm Hf s. specialize (Hm s). unfold bind.
  destruct (m s) as [a s1|s1]; simpl in *; [|done].
  etrans; [exact Hm|apply Hf].
Qed.

End Preserves.

#[global] Instance defined_preorder env : PreOrder (defined env).
Proof.
  split.
  - by intros s _.
  - intros s1 s2 s3 H12 H23 Hstr. by rewrite H23, H12.
Qed.

#[global] Instance steady_preorder env : PreOrder (steady env).
Proof.
  split.
  - intros s. split; [done|reflexivity].
  - intros s1 s2 s3 [Hf12 H12] [Hf23 H23]. split; [by rewrite Hf23|by etrans].
Qed.

Ltac preserves_leaf :=
  intros ?; first [ by intros _ | by split; [|intros _] ].

Ltac preserves_step :=
  lazymatch goal with
  | |- PreOrder _ => apply _
  | |- preserves _ (bind _ _) => apply preserves_bind; [apply _| |intros]
  | |- preserves _ (ret _) => apply preserves_ret; apply _
  | |- preserves _ (get _) => apply preserves_get; apply _
  | |- preserves _ ExceptionOccurred => apply preserves_get; apply _
  | |- preserves _ (modify _) => apply preserves_modify; preserves_leaf
  | |- preserves _ (emit _) => apply preserves_modify; preserves_leaf
  | |- preserves _ (if ?b then _ else _) => destruct b
  | |- preserves _ (match ?x with _ => _ end) => destruct x
  end.

Section Steady.

Variable env : Env.

Lemma steady_defined {A} (m : M A) : preserves (steady env) m -> preserves (defined env) m.
Proof. intros H s. apply H. Qed.

Lemma steady_LogMessage text : preserves (steady env) (LogMessage env text).
Proof.
  intros s. destruct (LogMessage_quiet env text s) as (s' & -> & (_ & Hf & _) & _ & Hu).
  split; [done|]. by intros _.
Qed.

Lemma steady_ThrowErrnoException e : preserves (steady env) (ThrowErrnoException env IOException e).
Proof.
  intros s. split.
  - by destruct (ThrowErrnoException_quiet env IOException e s) as (s' & -> & (_ & Hf & _) & _).
  - intros Hstr. by apply ThrowErrnoException_defined.
Qed.

Ltac steady :=
  repeat first [ apply steady_LogMessage | apply steady_ThrowErrnoException
               | preserves_step ].

Lemma steady_BindSocketToPort sd port : preserves (steady env) (BindSocketToPort env sd port).
Proof. unfold BindSocketToPort, sys_bind. steady. Qed.

Lemma steady_GetSocketPort sd : preserves (steady env) (GetSocketPort env sd).
Proof. unfold GetSocketPort, sys_getsockname. steady. Qed.

Lemma steady_ListenOnSocket sd backlog : preserves (steady env) (ListenOnSocket env sd backlog).
Proof. unfold ListenOnSocket, sys_listen. steady. Qed.

Lemma steady_LogAddress message address : preserves (steady env) (LogAddress env message address).
Proof. unfold LogAddress, lib_inet_ntop. steady. Qed.

End Steady.

Section Defined.

Variable env : Env.

Ltac definedness :=
  repeat first [ apply steady_defined, steady_LogMessage
               | apply steady_defined, steady_ThrowErrnoException
               | apply steady_defined, steady_LogAddress
               | preserves_step ].

Lemma defined_NewTcpSocket : preserves (defined env) (NewTcpSocket env).
Proof. unfold NewTcpSocket, sys_socket, new_descriptor. definedness. Qed.

Lemma defined_AcceptOnSocket sd : preserves (defined env) (AcceptOnSocket env sd).
Proof. unfold AcceptOnSocket, sys_accept, new_descriptor. definedness. Qed.

Lemma defined_sys_close sd : preserves (defined env) (sys_close sd).
Proof. unfold sys_close. definedness. Qed.

Lemma defined_nativeStartTcpClient ip port message :
  preserves (defined env) (nativeStartTcpClient env ip port message).
Proof.
  unfold nativeStartTcpClient.
  repeat first [ apply defined_NewTcpSocket | apply defined_sys_close | preserves_step ].
Qed.

End Defined.

Lemma LogAddress_quiet env message address s :
  exists s', LogAddress env message address s = Returned tt s' /\ quiet s s'.
Proof.
  unfold LogAddress, lib_inet_ntop.
  destruct (env_inet_ntop env) as [e|ip]; unfold_monad; cbn -[LogMessage ThrowErrnoException].
  - destruct (ThrowErrnoException_quiet env IOException e (set_errno e s))
      as (s' & -> & (Hc & Hf & Hp) & _).
    exists s'. split; [done|]. split_and!; done.
  - destruct (LogMessage_quiet env
                (message +:+ " " +:+ ip +:+ ":" +:+ fmt_hu (ntohs (sin_port address)) +:+ ".") s)
      as (s' & -> & Hq & _).
    by exists s'.
Qed.

(** [AcceptOnSocket] in any environment: one call of [accept]; a failure
    leaves an exception pending, a success a new open descriptor. *)
Lemma AcceptOnSocket_any env sd s :
  exists c s',
    AcceptOnSocket env sd s = Returned c s' /\
    calls [EvAccept sd c] s s' /\
    ((c = -1 /\ st_fds s' = st_fds s /\ st_pending s' <> None) \/
     (c = lowest_unused (st_fds s) /\ st_fds s' = {[c]} ∪ st_fds s)).
Proof.
  unfold AcceptOnSocket. unfold bind at 1.
  destruct (LogMessage_quiet env "Waiting for a client connection..." s)
    as (s0 & -> & Hq0 & _).
  pose proof Hq0 as (_ & Hf0 & _).
  unfold sys_accept, new_descriptor.
  destruct (env_accept env) as [e|a]; unfold_monad; cbn -[LogAddress ThrowErrnoException].
  - rewrite decide_True by done.
    match goal with |- context [ThrowErrnoException env IOException ?e0 ?s1] =>
      destruct (ThrowErrnoException_quiet env IOException e0 s1)
        as (s2 & -> & Hq2 & Hpend);
      pose proof Hq2 as (_ & Hf2 & _);
      exists (-1), s2; split; [done|]; split;
        [by apply (calls_around _ s s0 s1 s2)|] end.
    left. split_and!; [done| |done]. by rewrite Hf2.
  - pose proof (lowest_unused_nonneg (st_fds s0)).
    rewrite decide_False by lia.
    match goal with |- context [LogAddress env ?msg a ?s1] =>
      destruct (LogAddress_quiet env msg a s1) as (s2 & -> & Hq2);
      pose proof Hq2 as (_ & Hf2 & _);
      exists (lowest_unused (st_fds s0)), s2; split; [done|]; split;
        [by apply (calls_around _ s s0 s1 s2)|] end.
    right. rewrite Hf2, <- Hf0. by cbn.
Qed.

(** Inclusions between sets of descriptors. *)
Ltac descriptors :=
  let x := fresh "x" in
  try apply elem_of_subseteq; try intros x;
  repeat match goal with
         | H : _ ⊆ _ |- _ => apply elem_of_subseteq in H; specialize (H x)
         end;
  rewrite ?elem_of_difference, ?elem_of_union, ?elem_of_singleton in *;
  intuition congruence.

Lemma on_descriptors_syscalls fd client evs :
  Forall (on_descriptors fd client) (syscalls evs) ->
  Forall (on_descriptors fd client) evs.
Proof.
  unfold syscalls. induction evs as [|e evs IH]; [done|].
  destruct (is_syscall e) eqn:He.
  - rewrite filter_cons_True by done. intros H.
    apply Forall_cons in H as [H1 H2]. constructor; [done|by apply IH].
  - rewrite filter_cons_False by (by rewrite He). intros H.
    constructor; [by destruct e|by apply IH].
Qed.

Lemma steady_echo_loop env peer sd buffer :
  length buffer = 80%nat -> preserves (steady env) (echo_loop env peer sd buffer).
Proof.
  intros Hb s.
  destruct (echo_loop_any env peer sd s) as (sys & o & _ & _ & Hf & Hu & Hloop).
  rewrite Hloop by done. by split.
Qed.

Section ServerAny.

Variables (env : Env) (junk : list ascii) (port : Z) (s0 : State) (fd client : Z).
Hypothesis Hfd : fd = lowest_unused (st_fds s0).
Hypothesis Hclient : client = lowest_unused ({[fd]} ∪ st_fds s0).

Lemma fd_fresh : fd ∉ st_fds s0.
Proof. rewrite Hfd. apply lowest_unused_fresh. Qed.

Lemma client_fresh : client ∉ ({[fd]} ∪ st_fds s0 : gset Z).
Proof. rewrite Hclient. apply lowest_unused_fresh. Qed.

Lemma tracks_steady {A} F (m : M A) :
  emits (on_descriptors fd client) m -> preserves (steady env) m ->
  hoare (tracks env s0 fd client F) m
    (fun _ => tracks env s0 fd client F) (tracks env s0 fd client F).
Proof.
  intros He Hs s1 (Hf & Hd & evs & Ht & HP).
  destruct (He s1) as (evs1 & Ht1 & HP1). destruct (Hs s1) as [Hf1 Hd1].
  assert (tracks env s0 fd client F (final (m s1))) as Hfinal.
  { split_and!; [by rewrite Hf1|by etrans|].
    exists (evs ++ evs1). rewrite Ht1, Ht, app_assoc.
    split; [done|by apply Forall_app]. }
  by destruct (m s1).
Qed.

Lemma tracks_calls F F' sys s1 s2 :
  tracks env s0 fd client F s1 ->
  calls sys s1 s2 -> Forall (on_descriptors fd client) sys ->
  st_fds s2 = F' -> defined env s1 s2 ->
  tracks env s0 fd client F' s2.
Proof.
  intros (Hf & Hd & evs & Ht & HP) (evs1 & Ht1 & Hsys) Hon Hf2 Hd2.
  split_and!; [done|by etrans|].
  exists (evs ++ evs1). rewrite Ht1, Ht, app_assoc. split; [done|].
  apply Forall_app. split; [done|]. apply on_descriptors_syscalls. by rewrite Hsys.
Qed.

Lemma tracks_start : tracks env s0 fd client (st_fds s0) s0.
Proof.
  split_and!; [done|reflexivity|]. exists []. by rewrite app_nil_r.
Qed.

Lemma tracks_NewTcpSocket :
  hoare (fun s => s = s0) (NewTcpSocket env)
    (fun r s => (r = -1 /\ tracks env s0 fd client (st_fds s0) s /\ st_pending s <> None) \/
                (r = fd /\ tracks env s0 fd client ({[fd]} ∪ st_fds s0) s))
    (fun _ => False).
Proof.
  intros s ->.
  destruct (NewTcpSocket_spec env s0) as (r & s1 & Heq & Hcalls & _ & Hcases).
  pose proof (defined_NewTcpSocket env s0) as Hd. rewrite Heq in *. simpl in Hd.
  destruct Hcases as [(-> & Hf & Hp)|(Hr & Hf)].
  - left. split_and!; [done| |done].
    apply (tracks_calls _ _ _ s0 s1 tracks_start Hcalls); [|done..].
    constructor; [by right|done].
  - right. rewrite <- Hfd in Hr. subst r. split; [done|].
    apply (tracks_calls _ _ _ s0 s1 tracks_start Hcalls); [|done..].
    constructor; [by left|done].
Qed.

Lemma tracks_AcceptOnSocket :
  hoare (tracks env s0 fd client ({[fd]} ∪ st_fds s0)) (AcceptOnSocket env fd)
    (fun c s =>
       (c = -1 /\ tracks env s0 fd client ({[fd]} ∪ st_fds s0) s /\ st_pending s <> None) \/
       (c = client /\ tracks env s0 fd client ({[client]} ∪ ({[fd]} ∪ st_fds s0)) s))
    (fun _ => False).
Proof.
  intros s1 Ht.
  destruct (AcceptOnSocket_any env fd s1) as (c & s2 & Heq & Hcalls & Hcases).
  pose proof (defined_AcceptOnSocket env fd s1) as Hd. rewrite Heq in *. simpl in Hd.
  pose proof Ht as (Hf1 & _).
  destruct Hcases as [(-> & Hf & Hp)|(Hc & Hf)].
  - left. split_and!; [done| |done].
    apply (tracks_calls _ _ _ s1 s2 Ht Hcalls); [|by rewrite Hf|done].
    constructor; [|done]. split; [done|by right].
  - right. rewrite Hf1, <- Hclient in Hc. subst c. split; [done|].
    apply (tracks_calls _ _ _ s1 s2 Ht Hcalls); [|by rewrite Hf, Hf1|done].
    constructor; [|done]. split; [done|by left].
Qed.

Lemma tracks_close_client :
  hoare (tracks env s0 fd client ({[client]} ∪ ({[fd]} ∪ st_fds s0))) (sys_close client)
    (fun _ => tracks env s0 fd client ({[fd]} ∪ st_fds s0)) (fun _ => False).
Proof.
  intros s1 Ht.
  destruct (sys_close_spec client s1) as (s2 & Heq & Ht2 & Hf2 & _).
  pose proof (defined_sys_close env client s1) as Hd. rewrite Heq in *. simpl in Hd.
  pose proof Ht as (Hf1 & _).
  apply (tracks_calls _ _ [EvClose client] s1 s2 Ht); [by apply calls_step| | |done].
  - constructor; [by left|done].
  - rewrite Hf2, Hf1. apply set_eq. intros x.
    rewrite elem_of_difference, elem_of_union, (elem_of_singleton x client).
    split; [tauto|]. intros Hx. split; [by right|].
    intros ->. by apply client_fresh.
Qed.

(** The part of the server from [listen] on: it ends with the
    listening descriptor open and the accepted one closed, or, when it
    takes the exit after a successful accept or is blocked in the loop,
    with both open. *)
Lemma tracks_listen_accept_echo :
  let ends s := tracks env s0 fd client ({[fd]} ∪ st_fds s0) s \/
                tracks env s0 fd client ({[client]} ∪ ({[fd]} ∪ st_fds s0)) s in
  hoare (fun s => tracks env s0 fd client ({[fd]} ∪ st_fds s0) s /\ st_pending s = None)
    (ListenOnSocket env fd 4;;
     exc <- ExceptionOccurred;;
     if exc then ret tt else
       clientSocket <- AcceptOnSocket env fd;;
       exc <- ExceptionOccurred;;
       if exc then ret tt else
         echo_loop env (env_peer env) clientSocket
           (uninitialised MAX_BUFFER_SIZE junk);;
         sys_close clientSocket)
    (fun _ => ends) ends.
Proof.
  intros ends.
  apply (hoare_checked _ _ _ (fun _ => tracks env s0 fd client ({[fd]} ∪ st_fds s0))).
  { eapply hoare_conseq; [apply (tracks_steady ({[fd]} ∪ st_fds s0))| | |].
    - apply emits_ListenOnSocket; by intros.
    - apply steady_ListenOnSocket.
    - by intros s [H _].
    - done.
    - by left. }
  { by left. }
  intros _.
  apply (hoare_checked _ _ _
    (fun c s =>
       (c = -1 /\ tracks env s0 fd client ({[fd]} ∪ st_fds s0) s /\ st_pending s <> None) \/
       (c = client /\ tracks env s0 fd client ({[client]} ∪ ({[fd]} ∪ st_fds s0)) s))).
  { eapply hoare_conseq; [apply tracks_AcceptOnSocket| | |]; [by intros s [H _]|done..]. }
  { intros c s [(_ & H & _)|(_ & H)] _; [by left|by right]. }
  intros c s [[(_ & _ & Hpend)|(-> & Ht)] Hp]; [done|].
  clear Hp. revert s Ht.
  change (hoare (tracks env s0 fd client ({[client]} ∪ ({[fd]} ∪ st_fds s0)))
            (echo_loop env (env_peer env) client (uninitialised MAX_BUFFER_SIZE junk);;
             sys_close client) (fun _ => ends) ends).
  apply (hoare_bind _ _ _
           (fun _ => tracks env s0 fd client ({[client]} ∪ ({[fd]} ∪ st_fds s0)))).
  - eapply hoare_conseq; [apply (tracks_steady ({[client]} ∪ ({[fd]} ∪ st_fds s0)))| | |].
    + apply emits_echo_loop; by intros.
    + apply steady_echo_loop. by rewrite uninitialised_length.
    + done.
    + done.
    + by right.
  - intros _. eapply hoare_conseq; [apply tracks_close_client|done| |done].
    by left.
Qed.

Lemma tracks_server_body :
  let ends s := tracks env s0 fd client ({[fd]} ∪ st_fds s0) s \/
                tracks env s0 fd client ({[client]} ∪ ({[fd]} ∪ st_fds s0)) s in
  hoare (fun s => tracks env s0 fd client ({[fd]} ∪ st_fds s0) s /\ st_pending s = None)
    (server_body env junk port fd) (fun _ => ends) ends.
Proof.
  intros ends. unfold server_body. cbv zeta.
  apply (hoare_checked _ _ _ (fun _ => tracks env s0 fd client ({[fd]} ∪ st_fds s0))).
  { eapply hoare_conseq; [apply (tracks_steady ({[fd]} ∪ st_fds s0))| | |].
    - apply emits_BindSocketToPort; by intros.
    - apply steady_BindSocketToPort.
    - by intros s [H _].
    - done.
    - by left. }
  { by left. }
  intros _. destruct (decide (0 = port)).
  - apply (hoare_checked _ _ _ (fun _ => tracks env s0 fd client ({[fd]} ∪ st_fds s0))).
    { eapply hoare_conseq; [apply (tracks_steady ({[fd]} ∪ st_fds s0))| | |].
      - apply emits_GetSocketPort; by intros.
      - apply steady_GetSocketPort.
      - by intros s [H _].
      - done.
      - by left. }
    { by left. }
    intros _. apply tracks_listen_accept_echo.
  - apply tracks_listen_accept_echo.
Qed.

Lemma tracks_exit s2 :
  tracks env s0 fd client ({[fd]} ∪ st_fds s0) s2 \/
  tracks env s0 fd client ({[client]} ∪ ({[fd]} ∪ st_fds s0)) s2 ->
  exists s' F,
    (if decide (fd > 0) then sys_close fd else ret tt) s2 = Returned tt s' /\
    tracks env s0 fd client F s' /\
    st_fds s0 ⊆ F /\ F ⊆ {[fd; client]} ∪ st_fds s0 /\
    (fd > 0 -> fd ∉ F).
Proof.
  intros Hends. pose proof fd_fresh as Hfresh.
  assert (exists F, tracks env s0 fd client F s2 /\
                    st_fds s0 ⊆ F /\ F ⊆ {[fd; client]} ∪ st_fds s0)
    as (F & Ht & Hsub1 & Hsub2).
  { destruct Hends as [H|H]; eexists; (split; [exact H|]); split; descriptors. }
  destruct (decide (fd > 0)) as [Hpos|Hpos].
  - destruct (sys_close_spec fd s2) as (s' & Heq & Ht' & Hf' & _).
    pose proof (defined_sys_close env fd s2) as Hd. rewrite Heq in *. simpl in Hd.
    pose proof Ht as (Hf2 & _).
    exists s', (F ∖ {[fd]}). split; [done|]. split_and!.
    + apply (tracks_calls _ _ [EvClose fd] s2 s' Ht); [by apply calls_step| | |done].
      * constructor; [by right|done].
      * by rewrite Hf', Hf2.
    + descriptors.
    + descriptors.
    + descriptors.
  - exists s2, F. split_and!; done.
Qed.

Lemma tracks_nativeStartTcpServer :
  let ends (closed : Prop) s' :=
    exists F, tracks env s0 fd client F s' /\
              st_fds s0 ⊆ F /\ F ⊆ {[fd; client]} ∪ st_fds s0 /\
              (closed -> fd > 0 -> fd ∉ F) in
  hoare (fun s => s = s0) (nativeStartTcpServer env junk port)
    (fun _ => ends True) (ends False).
Proof.
  intros ends. pose proof fd_fresh as Hfresh.
  unfold nativeStartTcpServer.
  eapply hoare_bind;
    [eapply hoare_conseq; [apply tracks_NewTcpSocket|done|exact (fun a s H => H)|done]|].
  intros r s1 H1.
  unfold ExceptionOccurred. unfold bind at 1, get at 1.
  destruct H1 as [(-> & Ht & Hp)|(-> & Ht)].
  - destruct (st_pending s1); [|done]. unfold bind, ret.
    rewrite decide_False by lia.
    exists (st_fds s0). split_and!; [done|done|descriptors|done].
  - assert (forall s2,
      tracks env s0 fd client ({[fd]} ∪ st_fds s0) s2 \/
      tracks env s0 fd client ({[client]} ∪ ({[fd]} ∪ st_fds s0)) s2 ->
      match (if decide (fd > 0) then sys_close fd else ret tt) s2 with
      | Returned _ s' => ends True s'
      | Blocked s' => ends False s'
      end) as Hexit.
    { intros s2 Hends.
      destruct (tracks_exit s2 Hends) as (s' & F & -> & H1 & H2 & H3 & H4).
      exists F. split_and!; [done|done|done|]. by intros _. }
    destruct (st_pending s1) eqn:Hp.
    + unfold bind at 1, ret at 1. apply Hexit. by left.
    + pose proof (tracks_server_body s1 (conj Ht Hp)) as Hbody.
      unfold bind at 1.
      destruct (server_body env junk port fd s1) as [[] s2|s2].
      * by apply Hexit.
      * destruct Hbody as [H|H]; eexists; (split; [exact H|]);
          (split_and!; [descriptors|descriptors|done]).
Qed.

End ServerAny.

(** X15.  In every run of the server, in any environment, every call
    is made on a descriptor of this run: [bind], [getsockname], [listen]
    and [accept] on the one [socket] returned, the receives and sends on
    the one [accept] returned, and the closes on these two, never on -1
    and never on a descriptor that was open before the run.  The
    descriptors open before the run are open after it, at most these two
    are added, and when the server returns a listening descriptor above
    0 is closed. *)
Theorem server_uses_its_own_descriptors env junk port s :
  let fd := lowest_unused (st_fds s) in
  let client := lowest_unused ({[fd]} ∪ st_fds s) in
  let run := nativeStartTcpServer env junk port s in
  Forall (on_descriptors fd client) (new_events s (final run)) /\
  (fd ∉ st_fds s) /\ (client ∉ st_fds s) /\ fd <> client /\
  st_fds s ⊆ st_fds (final run) /\
  st_fds (final run) ⊆ {[fd; client]} ∪ st_fds s /\
  (forall s', run = Returned tt s' -> fd > 0 -> fd ∉ st_fds s').
Proof.
  intros fd client run.
  pose proof (tracks_nativeStartTcpServer env junk port s fd client eq_refl eq_refl
                s eq_refl) as H.
  fold run in H.
  pose proof (lowest_unused_fresh (st_fds s)) as Hfd. fold fd in Hfd.
  pose proof (lowest_unused_fresh ({[fd]} ∪ st_fds s)) as Hclient. fold client in Hclient.
  assert (exists F closed,
            tracks env s fd client F (final run) /\
            st_fds s ⊆ F /\ F ⊆ {[fd; client]} ∪ st_fds s /\
            (closed -> fd > 0 -> fd ∉ F) /\
            (forall s', run = Returned tt s' -> closed))
    as (F & closed & (Hf & _ & evs & Ht & Hon) & Hs1 & Hs2 & Hs3 & Hret).
  { destruct run as [[] s'|s']; destruct H as (F & H1 & H2 & H3 & H4).
    - by exists F, True.
    - exists F, False. split_and!; [done..|]. by intros ? ?. }
  split_and!.
  - by rewrite (new_events_app _ _ _ Ht).
  - done.
  - descriptors.
  - descriptors.
  - by rewrite Hf.
  - by rewrite Hf.
  - intros s' Hrun Hpos. rewrite Hrun in Hf. simpl in Hf. rewrite Hf.
    apply Hs3; [by apply (Hret s')|done].
Qed.

(** X16.  When the platform has a text for every error number, no run
    of the server or of the client, in any environment, accesses memory
    outside an object: the zero stored behind the bytes received lies
    inside the 80-byte buffer, every buffer printed to the log holds a
    terminator, no send is given more bytes than the buffer holds, and
    the buffer of [ThrowErrnoException] is written before it is read. *)
Theorem no_access_outside_an_object env junk ip port message s :
  strerror_ok env ->
  st_undefined (final (nativeStartTcpServer env junk port s)) = st_undefined s /\
  st_undefined (final (nativeStartTcpClient env ip port message s)) = st_undefined s.
Proof.
  intros Hstr. split.
  - pose proof (tracks_nativeStartTcpServer env junk port s _ _ eq_refl eq_refl
                  s eq_refl) as H.
    destruct (nativeStartTcpServer env junk port s) as [[] s'|s'];
      destruct H as (F & (_ & Hd & _) & _); by apply Hd.
  - by apply (defined_nativeStartTcpClient env ip port message s).
Qed.

Lemma no_access_outside_an_object_witness :
  st_undefined (final (nativeStartTcpServer (session rough_peer) [] 5000 fresh_process))
    = st_undefined fresh_process /\
  st_undefined (final (nativeStartTcpClient (session rough_peer) "10.0.0.1" 5000 "hello"
                         fresh_process))
    = st_undefined fresh_process.
Proof.
  apply (no_access_outside_an_object (session rough_peer) [] "10.0.0.1" 5000 "hello"
           fresh_process).
  intros e. discriminate.
Defined.

(** * What every run of the echo loop does *)

(** X17.  In every run of the echo loop with the 80-byte buffer, in any
    environment, whether it returns or is blocked: the calls are
    receives and sends on the accepted descriptor that alternate,
    starting with a receive; each receive asks for 79 bytes; each send
    offers exactly the bytes the receive before it yielded, at least
    one; a round follows only a send that took at least one byte.  The
    loop opens and closes nothing. *)
Theorem echo_loop_echoes env peer sd buffer s :
  length buffer = 80%nat ->
  let run := echo_loop env peer sd buffer s in
  echoes sd (syscalls (new_events s (final run))) /\
  st_fds (final run) = st_fds s.
Proof.
  intros Hb run.
  destruct (echo_loop_any env peer sd s) as (sys & o & Hc & He & Hf & _ & Hloop).
  unfold run. rewrite Hloop by done.
  by rewrite (calls_new_events _ _ _ Hc).
Qed.

Lemma echo_loop_echoes_witness :
  let run := echo_loop (session rough_peer) rough_peer 4
               (uninitialised MAX_BUFFER_SIZE []) fresh_process in
  echoes 4 (syscalls (new_events fresh_process (final run))) /\
  st_fds (final run) = st_fds fresh_process.
Proof.
  apply (echo_loop_echoes (session rough_peer) rough_peer 4
           (uninitialised MAX_BUFFER_SIZE []) fresh_process).
  reflexivity.
Defined.

Lemma bind_ext {A B} (m : M A) (f g : A -> M B) s :
  (forall a s', f a s' = g a s') -> bind m f s = bind m g s.
Proof. intros H. unfold bind. by destruct (m s). Qed.

Lemma bind_ext_l {A B} (m m' : M A) (f : A -> M B) s :
  m s = m' s -> bind m f s = bind m' f s.
Proof. unfold bind. by intros ->. Qed.

(** X18.  The transfer buffer is an array the server never initialises.
    Whatever the stack holds there, the run of the server is the same:
    every byte the server logs or sends was stored by a receive before
    it is read. *)
Theorem stack_content_never_shows env junk junk' port s :
  nativeStartTcpServer env junk port s = nativeStartTcpServer env junk' port s.
Proof.
  assert (Hloop : forall client s1,
            ( echo_loop env (env_peer env) client (uninitialised MAX_BUFFER_SIZE junk);;
              sys_close client ) s1 =
            ( echo_loop env (env_peer env) client (uninitialised MAX_BUFFER_SIZE junk');;
              sys_close client ) s1).
  { intros client s1. unfold bind.
    destruct (echo_loop_any env (env_peer env) client s1) as (_ & o & _ & _ & _ & _ & H).
    by rewrite !H by (by rewrite uninitialised_length). }
  assert (Hrest : forall fd s1,
            ( ListenOnSocket env fd 4;;
              exc <- ExceptionOccurred;;
              if exc then ret tt else
                clientSocket <- AcceptOnSocket env fd;;
                exc <- ExceptionOccurred;;
                if exc then ret tt else
                  echo_loop env (env_peer env) clientSocket
                    (uninitialised MAX_BUFFER_SIZE junk);;
                  sys_close clientSocket ) s1 =
            ( ListenOnSocket env fd 4;;
              exc <- ExceptionOccurred;;
              if exc then ret tt else
                clientSocket <- AcceptOnSocket env fd;;
                exc <- ExceptionOccurred;;
                if exc then ret tt else
                  echo_loop env (env_peer env) clientSocket
                    (uninitialised MAX_BUFFER_SIZE junk');;
                  sys_close clientSocket ) s1).
  { intros fd s1.
    apply bind_ext. intros _ s2. apply bind_ext. intros [] s3; [done|].
    apply bind_ext. intros client s4. apply bind_ext. intros [] s5; [done|].
    apply Hloop. }
  unfold nativeStartTcpServer.
  apply bind_ext. intros fd s1. apply bind_ext. intros exc s2.
  destruct exc; [done|].
  apply bind_ext_l. unfold server_body. cbv zeta.
  apply bind_ext. intros _ s3. apply bind_ext. intros [] s4; [done|].
  destruct (decide (0 = port)); [|apply Hrest].
  apply bind_ext. intros _ s5. apply bind_ext. intros [] s6; [done|].
  apply Hrest.
Qed.

(** * The lines of the log *)

Lemma log_line_fits text : fits_log_buffer (log_line text).
Proof.
  unfold fits_log_buffer, log_line.
  pose proof (vsnprintf_length MAX_LOG_MESSAGE_LENGTH text) as H.
  change (Z.to_nat (MAX_LOG_MESSAGE_LENGTH - 1)) with 255%nat in H.
  unfold MAX_LOG_MESSAGE_LENGTH at 2. lia.
Qed.

(** X19.  Every line the server or the client hands to [logMessage], in
    any environment and whatever the peer sends, has at most 255
    characters: it fits the 256 bytes of [LogMessage]'s buffer with its
    terminator. *)
Theorem log_lines_fit_the_buffer env junk ip port message s :
  Forall fits_log_buffer
    (new_events s (final (nativeStartTcpServer env junk port s))) /\
  Forall fits_log_buffer
    (new_events s (final (nativeStartTcpClient env ip port message s))).
Proof.
  assert (Hserver : emits fits_log_buffer (nativeStartTcpServer env junk port)).
  { unfold nativeStartTcpServer, server_body.
    emits_server; try done; intros; apply log_line_fits. }
  assert (Hclient : emits fits_log_buffer (nativeStartTcpClient env ip port message)).
  { unfold nativeStartTcpClient.
    emits_server; try done; intros; apply log_line_fits. }
  split.
  - destruct (Hserver s) as (evs & Ht & HP). by rewrite (new_events_app _ _ _ Ht).
  - destruct (Hclient s) as (evs & Ht & HP). by rewrite (new_events_app _ _ _ Ht).
Qed.
